(** * Lead dispatch system: matching engine, job ledger and lookup cache

    A shallow embedding of [lead_dispatch_system.py] (ULWDA v2.0) and the
    properties of its matching-and-dispatch core.

    Conventions of the embedding.
    - Python [float] values and SQLite [REAL] columns are real numbers
      extended with [+inf] ([pyfloat]); rounding and NaN are not modelled.
      In double precision a rounding error can take the [a] of
      [haversine_distance] just above 1, and [math.sqrt(1 - a)] then
      raises [ValueError]; the embedding has the value of exact
      arithmetic there.  What is proved of the value returned by
      [haversine_distance], and by [find_best_worker], which calls it,
      is therefore proved of the call that returns.
    - Python [str] values and SQLite [TEXT] columns are [string]s whose
      characters are read as the code points U+0000..U+00FF.
    - A table is the list of its rows in rowid order; a nullable column
      is an [option].
    - [get_timestamp()] and [datetime.utcnow()] read a clock; the value
      read is an argument ([now], in microseconds) of the operation.
    - A [sqlite3] connection is a pair of the committed database and the
      working copy of the open transaction; a statement that raises leaves
      the committed database as it was.
    - [print_*] calls are collected as a list of structured messages where
      a property depends on them.  The [system_logs] table is a write-only
      sink and is left out. *)

From Stdlib Require Import Reals Lra Lia ZArith List String Ascii Bool.
From Stdlib Require Import Sorted Permutation.
Import ListNotations.

(** ** Python floats *)

Module PyFloat.

(** A finite float, or [float('inf')]. *)
Inductive pyfloat : Type :=
| Finite (x : R)
| PosInf.

(** [a - y] for a finite [y]. *)
Definition fsub (a : pyfloat) (y : R) : pyfloat :=
  match a with
  | Finite x => Finite (x - y)
  | PosInf => PosInf
  end.

(** [a < b]. *)
Definition flt (a b : pyfloat) : bool :=
  match a, b with
  | Finite x, Finite y => if Rlt_dec x y then true else false
  | Finite _, PosInf => true
  | PosInf, _ => false
  end.

(** Truth value of a float: [bool(x)] is [x != 0]. *)
Definition truthy (x : R) : bool :=
  if Req_dec_T x 0 then false else true.

(** Truth value of a nullable [REAL] column read into Python: [None] and
    [0.0] are false. *)
Definition truthy_opt (x : option R) : bool :=
  match x with
  | Some v => truthy v
  | None => false
  end.

End PyFloat.
Export PyFloat.

(** ** Python strings *)

Module PyStr.

Definition text : Type := list ascii.

Definition code (c : ascii) : nat := nat_of_ascii c.

Definition in_range (lo hi : nat) (c : ascii) : bool :=
  Nat.leb lo (code c) && Nat.leb (code c) hi.

(** [str.lower] on one character: A-Z, and the Latin-1 capitals
    U+00C0..U+00DE other than the multiplication sign U+00D7. *)
Definition lower_char (c : ascii) : ascii :=
  if in_range 65 90 c then ascii_of_nat (code c + 32)
  else if in_range 192 222 c && negb (Nat.eqb (code c) 215)
       then ascii_of_nat (code c + 32)
       else c.

Definition lower_text (s : text) : text := map lower_char s.

(** [str.isspace] on one character: TAB..CR, FS..US, space, NEL, NBSP. *)
Definition isspace (c : ascii) : bool :=
  in_range 9 13 c || in_range 28 32 c
  || Nat.eqb (code c) 133 || Nat.eqb (code c) 160.

Fixpoint lstrip (s : text) : text :=
  match s with
  | [] => []
  | c :: s' => if isspace c then lstrip s' else s
  end.

Definition rstrip (s : text) : text := rev (lstrip (rev s)).

Definition strip_text (s : text) : text := rstrip (lstrip s).

(** Truth value of a string: non-empty. *)
Definition nonempty (s : string) : bool :=
  match s with
  | EmptyString => false
  | String _ _ => true
  end.

Definition lower (s : string) : string :=
  string_of_list_ascii (lower_text (list_ascii_of_string s)).

Definition strip (s : string) : string :=
  string_of_list_ascii (strip_text (list_ascii_of_string s)).

End PyStr.

(** ** Python regular expressions ([re]), as far as the two validation
    patterns need them *)

Module PyRe.
Import PyStr.

Inductive regex : Type :=
| Void
| Eps
| Class (p : ascii -> bool)
| Cat (r1 r2 : regex)
| Or (r1 r2 : regex)
| Star (r : regex).

Fixpoint nullable (r : regex) : bool :=
  match r with
  | Void => false
  | Eps => true
  | Class _ => false
  | Cat r1 r2 => nullable r1 && nullable r2
  | Or r1 r2 => nullable r1 || nullable r2
  | Star _ => true
  end.

Definition mkCat (r1 r2 : regex) : regex :=
  match r1, r2 with
  | Void, _ => Void
  | _, Void => Void
  | Eps, _ => r2
  | _, _ => Cat r1 r2
  end.

Definition mkOr (r1 r2 : regex) : regex :=
  match r1, r2 with
  | Void, _ => r2
  | _, Void => r1
  | _, _ => Or r1 r2
  end.

(** Brzozowski derivative. *)
Fixpoint deriv (c : ascii) (r : regex) : regex :=
  match r with
  | Void => Void
  | Eps => Void
  | Class p => if p c then Eps else Void
  | Cat r1 r2 =>
      if nullable r1
      then mkOr (mkCat (deriv c r1) r2) (deriv c r2)
      else mkCat (deriv c r1) r2
  | Or r1 r2 => mkOr (deriv c r1) (deriv c r2)
  | Star r1 => mkCat (deriv c r1) (Star r1)
  end.

Fixpoint fullmatch (r : regex) (s : text) : bool :=
  match s with
  | [] => nullable r
  | c :: s' => fullmatch (deriv c r) s'
  end.

Definition opt (r : regex) : regex := Or Eps r.
Definition plus (r : regex) : regex := Cat r (Star r).

Fixpoint times (n : nat) (r : regex) : regex :=
  match n with
  | O => Eps
  | S n' => Cat r (times n' r)
  end.

Fixpoint upto (n : nat) (r : regex) : regex :=
  match n with
  | O => Eps
  | S n' => opt (Cat r (upto n' r))
  end.

(** [r{lo,hi}] and [r{lo,}]. *)
Definition between (lo hi : nat) (r : regex) : regex :=
  Cat (times lo r) (upto (hi - lo) r).
Definition at_least (lo : nat) (r : regex) : regex :=
  Cat (times lo r) (Star r).

Definition chr (a : ascii) : regex := Class (Ascii.eqb a).

(** The classes [\d] and [\s] of a [str] pattern, on U+0000..U+00FF. *)
Definition digit (c : ascii) : bool := in_range 48 57 c.
Definition space (c : ascii) : bool := isspace c.
Definition alpha (c : ascii) : bool := in_range 97 122 c || in_range 65 90 c.

Definition one_of (s : string) (c : ascii) : bool :=
  existsb (Ascii.eqb c) (list_ascii_of_string s).

(** [re.compile('^' r '$').match(s)]: without [re.MULTILINE], [$] also
    matches just before a newline that ends the string. *)
Definition match_anchored (r : regex) (s : string) : bool :=
  let t := list_ascii_of_string s in
  fullmatch r t
  || match rev t with
     | c :: t' => Ascii.eqb c "010" && fullmatch r (rev t')
     | [] => false
     end.

End PyRe.

(** ** Configuration and validation utilities *)

Module Config.
Import PyStr PyRe.

Definition CACHE_DURATION_HOURS : Z := 24.
Definition MAX_QUERY_LENGTH : nat := 200.
Definition MAX_NAME_LENGTH : nat := 500.
Definition MAX_PHONE_LENGTH : nat := 20.
Definition MAX_EMAIL_LENGTH : nat := 100.
Definition MAX_SKILLS_LENGTH : nat := 500.

(** [^\+?[\d\s\-\(\)]{6,20}$] *)
Definition PHONE_PATTERN : regex :=
  Cat (opt (chr "+"))
      (between 6 20 (Class (fun c => digit c || space c || one_of "-()" c))).

(** [^[a-zA-Z0-9._%+-]+@[a-zA-Z0-9.-]+\.[a-zA-Z]{2,}$] *)
Definition EMAIL_PATTERN : regex :=
  Cat (plus (Class (fun c => alpha c || digit c || one_of "._%+-" c)))
   (Cat (chr "@")
    (Cat (plus (Class (fun c => alpha c || digit c || one_of ".-" c)))
     (Cat (chr ".") (at_least 2 (Class alpha))))).

End Config.

Module SecurityValidator.
Import PyStr PyRe Config.

(** The class [[\x00-\x1f\x7f-\x9f]] removed by [sanitize_string]. *)
Definition is_control (c : ascii) : bool :=
  in_range 0 31 c || in_range 127 159 c.

Definition sanitize_string (text : string) (max_length : nat) : string :=
  if negb (nonempty text) then EmptyString
  else
    let sanitized :=
      filter (fun c => negb (is_control c)) (list_ascii_of_string text) in
    string_of_list_ascii (strip_text (firstn max_length sanitized)).

Definition validate_phone (phone : string) : bool :=
  if negb (nonempty phone) then false
  else match_anchored PHONE_PATTERN (strip phone).

Definition validate_email (email : string) : bool :=
  if negb (nonempty email) then false
  else match_anchored EMAIL_PATTERN (lower (strip email)).

(** [validate_coordinates] on arguments that are already floats. *)
Definition validate_coordinates (lat lon : R) : bool :=
  (if Rle_dec (-90) lat then true else false)
  && (if Rle_dec lat 90 then true else false)
  && (if Rle_dec (-180) lon then true else false)
  && (if Rle_dec lon 180 then true else false).

End SecurityValidator.

(** ** SQLite text operators *)

Module Sqlite.
Import PyStr.

(** [LIKE] folds the case of the ASCII letters only. *)
Definition like_fold (c : ascii) : ascii :=
  if in_range 65 90 c then ascii_of_nat (code c + 32) else c.

Definition is_percent (c : ascii) : bool := Ascii.eqb c "%".
Definition is_underscore (c : ascii) : bool := Ascii.eqb c "_".

(** [s LIKE p] without an escape character: [%] stands for any run of
    characters, [_] for any one character. *)
Fixpoint like_text (p s : text) : bool :=
  match p with
  | [] => match s with [] => true | _ :: _ => false end
  | c :: p' =>
      if is_percent c then
        (fix any_run (s0 : text) : bool :=
           like_text p' s0
           || match s0 with
              | [] => false
              | _ :: s1 => any_run s1
              end) s
      else
        match s with
        | [] => false
        | d :: s' =>
            (is_underscore c || Ascii.eqb (like_fold c) (like_fold d))
            && like_text p' s'
        end
  end.

Definition like (s pattern : string) : bool :=
  like_text (list_ascii_of_string pattern) (list_ascii_of_string s).

(** [LIMIT n]: a negative [n] is no limit. *)
Definition limit {A : Type} (n : Z) (rows : list A) : list A :=
  if (n <? 0)%Z then rows else firstn (Z.to_nat n) rows.

(** The rowid an [AUTOINCREMENT] table gives its next row: one more
    than the largest rowid ever used. *)
Definition next_rowid (seq : Z) (ids : list Z) : Z :=
  Z.succ (fold_right Z.max (Z.max 0 seq) ids).

End Sqlite.

(** ** Database schema and connections *)

Module Store.

Definition timestamp : Type := Z.

(** Rows of [leads], [workers], [jobs] and [api_cache]; the columns no
    modelled operation reads or writes ([note], [last_contact],
    [contact_count], [evidence], [notes], [completed_at], [query_params])
    are left out. *)
Record Lead : Type := mkLead {
  l_id : Z;
  l_name : string;
  l_category : string;
  l_address : string;
  l_lat : option R;
  l_lon : option R;
  l_phone : string;
  l_email : string;
  l_source : string;
  l_status : string;
  l_created_at : timestamp;
  l_updated_at : option timestamp
}.

Record Worker : Type := mkWorker {
  w_id : Z;
  w_name : string;
  w_skills : string;
  w_phone : string;
  w_email : string;
  w_lat : option R;
  w_lon : option R;
  w_status : string;
  w_rating : R;
  w_jobs_completed : Z;
  w_created_at : timestamp
}.

Record Job : Type := mkJob {
  j_id : Z;
  j_lead_id : Z;
  j_worker_id : Z;
  j_service : string;
  j_price : R;
  j_status : string;
  j_created_at : timestamp
}.

(** One candidate record of a lookup response ([response.json()]).
    [it_lat] and [it_lon] hold what [float(item.get("lat", 0))] yields:
    [None] when the conversion raises. *)
Record Item : Type := mkItem {
  it_display_name : option string;
  it_lat : option R;
  it_lon : option R;
  it_phone : option string;
  it_email : option string
}.

Record CachedQuery : Type := mkCachedQuery {
  c_query_hash : string;
  c_response_data : list Item;
  c_created_at : timestamp;
  c_expires_at : timestamp
}.

Record DB : Type := mkDB {
  leads : list Lead;
  workers : list Worker;
  jobs : list Job;
  api_cache : list CachedQuery;
  seq_leads : Z;
  seq_workers : Z;
  seq_jobs : Z
}.

(** A connection: the committed database and the working copy seen by
    the statements of the open transaction. *)
Record connection : Type := mkConn {
  committed : DB;
  working : DB
}.

Definition get_connection (db : DB) : connection := mkConn db db.

(** Closing, or dropping, a connection rolls the open transaction back:
    what stays is the committed database. *)
Definition close (c : connection) : DB := committed c.

(** A statement either returns, or raises; both leave a connection. *)
Inductive outcome (A : Type) : Type :=
| Ok (a : A) (c : connection)
| Raised (c : connection).
Arguments Ok {A} a c.
Arguments Raised {A} c.

Definition tx (A : Type) : Type := connection -> outcome A.

Definition ret {A : Type} (a : A) : tx A := fun c => Ok a c.

Definition bind {A B : Type} (m : tx A) (k : A -> tx B) : tx B :=
  fun c =>
    match m c with
    | Ok a c' => k a c'
    | Raised c' => Raised c'
    end.

Definition commit : tx unit :=
  fun c => Ok tt (mkConn (working c) (working c)).

Definition raise {A : Type} : tx A := fun c => Raised c.

(** A statement on the working copy. *)
Definition modify (f : DB -> DB) : tx unit :=
  fun c => Ok tt (mkConn (committed c) (f (working c))).

Definition query {A : Type} (f : DB -> A) : tx A :=
  fun c => Ok (f (working c)) c.

End Store.

Declare Scope tx_scope.
Delimit Scope tx_scope with tx.
Notation "x <- m ;; k" := (Store.bind m (fun x => k))
  (at level 61, m at next level, right associativity) : tx_scope.
Notation "m ;;; k" := (Store.bind m (fun _ => k))
  (at level 61, right associativity) : tx_scope.

(** ** Utility functions: [haversine_distance] *)

Module Geo.
Open Scope R_scope.

(** [math.radians]. *)
Definition radians (deg : R) : R := deg * (PI / 180).

(** [math.atan2(y, x)]. *)
Definition atan2 (y x : R) : R :=
  if Rlt_dec 0 x then atan (y / x)
  else if Rlt_dec x 0 then
    if Rlt_dec y 0 then atan (y / x) - PI else atan (y / x) + PI
  else if Rlt_dec 0 y then PI / 2
  else if Rlt_dec y 0 then - (PI / 2)
  else 0.

(** The local [a] of [haversine_distance]. *)
Definition haversine_a (lat1 lon1 lat2 lon2 : R) : R :=
  let lat1_rad := radians lat1 in
  let lat2_rad := radians lat2 in
  let dlat := radians (lat2 - lat1) in
  let dlon := radians (lon2 - lon1) in
  sin (dlat / 2) ^ 2 + cos lat1_rad * cos lat2_rad * sin (dlon / 2) ^ 2.

(** [haversine_distance] in exact arithmetic, where [0 <= a <= 1] and
    neither [math.sqrt] call raises. *)
Definition haversine_distance (lat1 lon1 lat2 lon2 : R) : pyfloat :=
  if negb (truthy lat1 && truthy lon1 && truthy lat2 && truthy lon2) then
    PosInf
  else
    let R_earth := 6371 in
    let a := haversine_a lat1 lon1 lat2 lon2 in
    let c := 2 * atan2 (sqrt a) (sqrt (1 - a)) in
    Finite (R_earth * c).

End Geo.

(** ** Console output *)

Module Console.

Inductive message : Type :=
| LeadNotFound (lead_id : Z)          (* "Lead ID {lead_id} not found" *)
| NoWorkersWithSkill (service : string)
                                      (* "No workers found with skill: {service}" *)
| NameAndSkillsRequired               (* "Name and skills are required" *)
| InvalidPhoneFormat                  (* "Invalid phone format" *)
| InvalidEmailFormat                  (* "Invalid email format" *)
| DuplicatePhone                      (* "... phone number already exists" *)
| RowMissingNameOrSkills (row_num : Z)
                    (* "Row {row_num}: Missing name or skills, skipping" *)
| RowInvalidPhoneClearing (row_num : Z)
                    (* "Row {row_num}: Invalid phone format, clearing" *)
| RowInvalidEmailClearing (row_num : Z)
                    (* "Row {row_num}: Invalid email format, clearing" *)
| RowDuplicatePhone (row_num : Z)
                    (* "Row {row_num}: Duplicate phone number, skipping" *)
| AddedWorker (worker_id : Z)         (* "Added worker: {name} (ID: {worker_id})" *)
| UsingCachedResults                  (* "Using cached results for ..." *)
| Searching                           (* "Searching OpenStreetMap for ..." *)
| RequestsMissing                     (* "'requests' library not installed. ..." *)
| EmptyCityOrQuery                    (* "City and query cannot be empty" *)
| RequestTimedOut                     (* "Request timed out. ..." *)
| RequestFailed.                      (* "API request failed: ..." *)

Inductive printed : Type :=
| print_success (m : message)
| print_error (m : message)
| print_warning (m : message)
| print_info (m : message).

End Console.

(** ** Job matching engine *)

Module JobMatcher.
Import Store Console.
Open Scope string_scope.

(** [SELECT id, name, lat, lon FROM leads WHERE id = ?], [fetchone()]. *)
Definition select_lead (db : DB) (lead_id : Z) : option Lead :=
  find (fun l => Z.eqb (l_id l) lead_id) (leads db).

(** [WHERE status = 'active' AND skills LIKE ?] with the parameter
    ["%" + service_lower + "%"]. *)
Definition eligible (service_lower : string) (w : Worker) : bool :=
  String.eqb (w_status w) "active"
  && Sqlite.like (w_skills w) ("%" ++ service_lower ++ "%").

(** [x] comes strictly before [w] under
    [ORDER BY rating DESC, jobs_completed DESC]. *)
Definition sorts_before (x w : Worker) : bool :=
  if Rlt_dec (w_rating w) (w_rating x) then true
  else if Req_dec_T (w_rating w) (w_rating x)
       then Z.ltb (w_jobs_completed w) (w_jobs_completed x)
       else false.

Fixpoint insert_ordered (w : Worker) (sorted : list Worker) : list Worker :=
  match sorted with
  | [] => [w]
  | x :: rest =>
      if sorts_before x w then x :: insert_ordered w rest
      else w :: sorted
  end.

(** The [ORDER BY]: rows that compare equal stay in rowid order. *)
Definition order_by_rating_jobs (rows : list Worker) : list Worker :=
  fold_right insert_ordered [] rows.

Definition select_workers (db : DB) (service_lower : string) : list Worker :=
  order_by_rating_jobs (filter (eligible service_lower) (workers db)).

Definition float_of (x : option R) : R :=
  match x with
  | Some v => v
  | None => 0%R
  end.

(** The [distance] of one iteration of the scoring loop. *)
Definition worker_distance (lead_lat lead_lon : option R) (worker : Worker)
  : pyfloat :=
  if truthy_opt (w_lat worker) && truthy_opt (w_lon worker)
     && truthy_opt lead_lat && truthy_opt lead_lon
  then Geo.haversine_distance (float_of lead_lat) (float_of lead_lon)
         (float_of (w_lat worker)) (float_of (w_lon worker))
  else Finite 999.

(** The [score] of one iteration. *)
Definition worker_score (lead_lat lead_lon : option R) (worker : Worker)
  : pyfloat :=
  fsub (worker_distance lead_lat lead_lon worker) (w_rating worker * 2).

(** Loop state: [best_worker] (with its ['distance'] entry) and
    [best_distance]. *)
Definition loop_state : Type := (option (Worker * pyfloat) * pyfloat)%type.

Definition loop_body (lead_lat lead_lon : option R)
           (st : loop_state) (worker : Worker) : loop_state :=
  let best_distance := snd st in
  let distance := worker_distance lead_lat lead_lon worker in
  let score := fsub distance (w_rating worker * 2) in
  if flt score best_distance
  then (Some (worker, distance), distance)
  else st.

Definition scoring_loop (lead_lat lead_lon : option R)
           (workers : list Worker) : loop_state :=
  fold_left (loop_body lead_lat lead_lon) workers (None, PosInf).

(** [find_best_worker]: what it prints, and the worker it returns
    together with the ['distance'] entry added to it, or [None].  The
    distances of the loop are those of exact arithmetic: a [ValueError]
    of [haversine_distance], which the source lets escape the loop, has
    no counterpart here. *)
Definition find_best_worker (db : DB) (lead_id : Z) (service : string)
  : list printed * option (Worker * pyfloat) :=
  match select_lead db lead_id with
  | None => ([print_error (LeadNotFound lead_id)], None)
  | Some lead =>
      let service_lower := PyStr.lower service in
      match select_workers db service_lower with
      | [] => ([print_warning (NoWorkersWithSkill service)], None)
      | workers =>
          ([], fst (scoring_loop (l_lat lead) (l_lon lead) workers))
      end
  end.

(** The places of [create_job] where the database engine can raise for
    a reason outside the data (locked file, I/O error). *)
Inductive step : Type :=
| AtConnect
| AtInsertJob
| AtUpdateLead
| AtCommit.

Definition faults : Type := step -> bool.
Definition no_faults : faults := fun _ => false.

Definition lead_exists (db : DB) (lead_id : Z) : bool :=
  existsb (fun l => Z.eqb (l_id l) lead_id) (leads db).
Definition worker_exists (db : DB) (worker_id : Z) : bool :=
  existsb (fun w => Z.eqb (w_id w) worker_id) (workers db).

(** [INSERT INTO jobs ...]; the foreign keys on [lead_id] and
    [worker_id] are enforced ([PRAGMA foreign_keys = ON]).  Returns
    [cur.lastrowid]. *)
Definition insert_job (f : faults) (lead_id worker_id : Z)
           (service : string) (price : R) (now : timestamp) : tx Z :=
  fun c =>
    let db := working c in
    if f AtInsertJob then Raised c
    else if negb (lead_exists db lead_id && worker_exists db worker_id)
    then Raised c
    else
      let job_id := Sqlite.next_rowid (seq_jobs db) (map j_id (jobs db)) in
      let row := mkJob job_id lead_id worker_id service price
                       "dispatched" now in
      Ok job_id
         (mkConn (committed c)
                 (mkDB (leads db) (workers db) (jobs db ++ [row])
                       (api_cache db) (seq_leads db) (seq_workers db)
                       job_id)).

Definition set_contacted (now : timestamp) (lead_id : Z) (l : Lead) : Lead :=
  if Z.eqb (l_id l) lead_id
  then mkLead (l_id l) (l_name l) (l_category l) (l_address l)
              (l_lat l) (l_lon l) (l_phone l) (l_email l) (l_source l)
              "contacted" (l_created_at l) (Some now)
  else l.

(** [UPDATE leads SET status = 'contacted', updated_at = ? WHERE id = ?] *)
Definition update_lead (f : faults) (lead_id : Z) (now : timestamp)
  : tx unit :=
  fun c =>
    let db := working c in
    if f AtUpdateLead then Raised c
    else
      Ok tt
         (mkConn (committed c)
                 (mkDB (map (set_contacted now lead_id) (leads db))
                       (workers db) (jobs db) (api_cache db)
                       (seq_leads db) (seq_workers db) (seq_jobs db))).

Definition commit_job (f : faults) : tx unit :=
  fun c => if f AtCommit then Raised c else commit c.

(** The body of the [try] of [create_job], after [get_connection]. *)
Definition create_job_tx (f : faults) (lead_id worker_id : Z)
           (service : string) (price : R) (now : timestamp) : tx Z :=
  (job_id <- insert_job f lead_id worker_id service price now ;;
   update_lead f lead_id now ;;;
   commit_job f ;;;
   ret job_id)%tx.

(** [create_job]: the job id, or 0 from the [except] branch, and the
    database once the connection is gone. *)
Definition create_job (f : faults) (now : timestamp) (db : DB)
           (lead_id worker_id : Z) (service : string) (price : R)
  : Z * DB :=
  if f AtConnect then (0%Z, db)
  else
    match create_job_tx f lead_id worker_id service price now
                        (get_connection db) with
    | Ok job_id c => (job_id, close c)
    | Raised c => (0%Z, close c)
    end.

(** [SELECT id, name, category FROM leads
     WHERE status = 'new' AND category LIKE ? LIMIT ?] *)
Definition select_new_leads (db : DB) (service : string) (max_matches : Z)
  : list Lead :=
  Sqlite.limit max_matches
    (filter (fun l => String.eqb (l_status l) "new"
                      && Sqlite.like (l_category l) ("%" ++ service ++ "%"))
            (leads db)).

(** The [for lead in leads] loop; [fs k] are the faults met by the
    [create_job] call of iteration [k]. *)
Fixpoint match_loop (fs : nat -> faults) (now : timestamp)
         (service : string) (selected : list Lead) (k : nat)
         (matched_count : Z) (db : DB) : Z * DB :=
  match selected with
  | [] => (matched_count, db)
  | lead :: rest =>
      match snd (find_best_worker db (l_id lead) service) with
      | Some (worker, _) =>
          let (job_id, db') :=
            create_job (fs k) now db (l_id lead) (w_id worker) service 0 in
          if Z.eqb job_id 0
          then match_loop fs now service rest (S k) matched_count db'
          else match_loop fs now service rest (S k) (matched_count + 1) db'
      | None => match_loop fs now service rest (S k) matched_count db
      end
  end.

Definition match_all_leads (fs : nat -> faults) (now : timestamp)
           (db : DB) (service : string) (max_matches : Z) : Z * DB :=
  match select_new_leads db service max_matches with
  | [] => (0%Z, db)
  | selected => match_loop fs now service selected 0 0 db
  end.

End JobMatcher.

(** ** Lead collection: the lookup cache *)

Module LeadCollector.
Import Store Console SecurityValidator.
Open Scope string_scope.
Open Scope Z_scope.

(** What [requests.get(...)] followed by [raise_for_status()] and
    [response.json()] does when the request is made. *)
Inductive response : Type :=
| Success (results : list Item)
| Timeout
| RequestException.

(** The outcome of one [search_nominatim] call: the list returned, the
    database afterwards, the number of requests sent to the provider
    and the console output. *)
Record lookup : Type := mkLookup {
  lk_results : list Item;
  lk_db : DB;
  lk_requests : nat;
  lk_printed : list printed
}.

Definition hours (h : Z) : Z := h * 3600 * 1000000.

Section WithEnvironment.

(** [hashlib.md5(s.encode()).hexdigest()] and the flag set by
    [import requests]. *)
Variable md5_hexdigest : string -> string.
Variable HAVE_REQUESTS : bool.

Definition _get_cache_key (city query : string) : string :=
  md5_hexdigest (PyStr.lower city ++ ":" ++ PyStr.lower query).

(** [SELECT response_data FROM api_cache
     WHERE query_hash = ? AND expires_at > ?], [fetchone()]. *)
Definition _get_cached_results (db : DB) (cache_key : string)
           (now : timestamp) : option (list Item) :=
  match find (fun c => String.eqb (c_query_hash c) cache_key
                       && Z.ltb now (c_expires_at c))
             (api_cache db) with
  | Some row => Some (c_response_data row)
  | None => None
  end.

(** [INSERT OR REPLACE INTO api_cache ...]: a row with the same
    [query_hash] is deleted first. *)
Definition _cache_results (db : DB) (cache_key : string)
           (results : list Item) (now : timestamp) : DB :=
  let expires_at := now + hours Config.CACHE_DURATION_HOURS in
  let kept :=
    filter (fun c => negb (String.eqb (c_query_hash c) cache_key))
           (api_cache db) in
  mkDB (leads db) (workers db) (jobs db)
       (kept ++ [mkCachedQuery cache_key results now expires_at])
       (seq_leads db) (seq_workers db) (seq_jobs db).

(** Truth value of [cached_results]: [None] and the empty list are
    false. *)
Definition cached_truthy (cached : option (list Item)) : bool :=
  match cached with
  | Some (_ :: _) => true
  | _ => false
  end.

(** [search_nominatim]; [resp] is the provider's answer should a
    request be sent.  The wait of [_rate_limit] is not modelled. *)
Definition search_nominatim (now : timestamp) (db : DB)
           (city query : string) (resp : response) : lookup :=
  if negb HAVE_REQUESTS then
    mkLookup [] db 0 [print_error RequestsMissing]
  else
    let city := sanitize_string city 100 in
    let query := sanitize_string query 100 in
    if negb (PyStr.nonempty city) || negb (PyStr.nonempty query) then
      mkLookup [] db 0 [print_error EmptyCityOrQuery]
    else
      let cache_key := _get_cache_key city query in
      let cached_results := _get_cached_results db cache_key now in
      if cached_truthy cached_results then
        mkLookup (match cached_results with
                  | Some r => r
                  | None => []
                  end)
                 db 0 [print_info UsingCachedResults]
      else
        match resp with
        | Success results =>
            mkLookup results (_cache_results db cache_key results now)
                     1 [print_info Searching]
        | Timeout =>
            mkLookup [] db 1
                     [print_info Searching; print_error RequestTimedOut]
        | RequestException =>
            mkLookup [] db 1
                     [print_info Searching; print_error RequestFailed]
        end.

End WithEnvironment.

(** What one iteration of the loop of [collect_leads] does. *)
Inductive row_outcome : Type :=
| RowAdded
| RowDuplicate
| RowSkipped.

Definition default (d : string) (x : option string) : string :=
  match x with
  | Some s => s
  | None => d
  end.

Definition same_float (a : option R) (b : R) : bool :=
  match a with
  | Some x => if Req_dec_T x b then true else false
  | None => false
  end.

(** [UNIQUE(name, lat, lon)] *)
Definition lead_conflict (db : DB) (name : string) (lat lon : R) : bool :=
  existsb (fun l => String.eqb (l_name l) name
                    && same_float (l_lat l) lat && same_float (l_lon l) lon)
          (leads db).

(** The body of [for item in results] of [collect_leads]. *)
Definition collect_item (now : timestamp) (service : string)
           (db : DB) (item : Item) : row_outcome * DB :=
  let name := sanitize_string (default "Unknown" (it_display_name item))
                              Config.MAX_NAME_LENGTH in
  match it_lat item, it_lon item with
  | Some lat, Some lon =>
      if negb (validate_coordinates lat lon) then (RowSkipped, db)
      else
        let address :=
          sanitize_string (default "" (it_display_name item)) 500 in
        let phone := sanitize_string (default "" (it_phone item))
                                     Config.MAX_PHONE_LENGTH in
        let email := sanitize_string (default "" (it_email item))
                                     Config.MAX_EMAIL_LENGTH in
        let phone :=
          if PyStr.nonempty phone && negb (validate_phone phone)
          then "" else phone in
        let email :=
          if PyStr.nonempty email && negb (validate_email email)
          then "" else email in
        if lead_conflict db name lat lon then (RowDuplicate, db)
        else
          let id := Sqlite.next_rowid (seq_leads db) (map l_id (leads db)) in
          let row := mkLead id name service address (Some lat) (Some lon)
                            phone email "nominatim" "new" now None in
          (RowAdded,
           mkDB (leads db ++ [row]) (workers db) (jobs db) (api_cache db)
                id (seq_workers db) (seq_jobs db))
  | _, _ => (RowSkipped, db)
  end.

End LeadCollector.

(** ** Worker management *)

Module WorkerManager.
Import Store Console SecurityValidator.
Open Scope string_scope.
Open Scope Z_scope.

(** One row of the CSV file as [csv.DictReader] yields it.  [csv_name]
    is the value under 'name', empty when there is none; [csv_full_name]
    is the value under 'full_name', [None] when the file has no such
    column.  [csv_lat] and [csv_lon] hold what
    [float(row.get('lat', 0) or 0)] yields: [None] when the conversion
    raises [ValueError]. *)
Record CsvRow : Type := mkCsvRow {
  csv_name : string;
  csv_full_name : option string;
  csv_skills : string;
  csv_phone : string;
  csv_email : string;
  csv_lat : option R;
  csv_lon : option R
}.

Inductive row_outcome : Type :=
| RowImported
| RowError.

(** [UNIQUE(phone)] *)
Definition phone_conflict (db : DB) (phone : string) : bool :=
  existsb (fun w => String.eqb (w_phone w) phone) (workers db).

(** [INSERT INTO workers (name, skills, phone, email, lat, lon,
     created_at, status) VALUES (...)]: [None] stands for
    [sqlite3.IntegrityError]. *)
Definition insert_worker (now : timestamp) (db : DB)
           (name skills phone email : string) (lat lon : R)
  : option (Z * DB) :=
  if phone_conflict db phone then None
  else
    let id := Sqlite.next_rowid (seq_workers db) (map w_id (workers db)) in
    let row := mkWorker id name skills phone email (Some lat) (Some lon)
                        "active" 0 0 now in
    Some (id,
          mkDB (leads db) (workers db ++ [row]) (jobs db) (api_cache db)
               (seq_leads db) id (seq_jobs db)).

(** [row.get('name') or row.get('full_name', 'Unknown')] *)
Definition row_name (row : CsvRow) : string :=
  if PyStr.nonempty (csv_name row) then csv_name row
  else match csv_full_name row with
       | Some full_name => full_name
       | None => "Unknown"
       end.

(** The warning printed when a contact value is cleared. *)
Definition clearing_warning (invalid : bool) (m : message) : list printed :=
  if invalid then [print_warning m] else [].

(** The body of [for row_num, row in enumerate(reader, start=2)] of
    [import_from_csv]: the console output, what became of the row, and
    the database afterwards. *)
Definition import_row (row_num : Z) (now : timestamp) (db : DB)
           (row : CsvRow) : list printed * row_outcome * DB :=
  let name := sanitize_string (row_name row) Config.MAX_NAME_LENGTH in
  let skills := sanitize_string (PyStr.lower (csv_skills row))
                                Config.MAX_SKILLS_LENGTH in
  let phone := sanitize_string (csv_phone row) Config.MAX_PHONE_LENGTH in
  let email := sanitize_string (csv_email row) Config.MAX_EMAIL_LENGTH in
  if negb (PyStr.nonempty name) || negb (PyStr.nonempty skills)
  then ([print_warning (RowMissingNameOrSkills row_num)], RowError, db)
  else
    let phone_warning :=
      clearing_warning (PyStr.nonempty phone && negb (validate_phone phone))
                       (RowInvalidPhoneClearing row_num) in
    let phone :=
      if PyStr.nonempty phone && negb (validate_phone phone)
      then "" else phone in
    let email_warning :=
      clearing_warning (PyStr.nonempty email && negb (validate_email email))
                       (RowInvalidEmailClearing row_num) in
    let email :=
      if PyStr.nonempty email && negb (validate_email email)
      then "" else email in
    let (lat, lon) :=
      match csv_lat row, csv_lon row with
      | Some lat, Some lon =>
          if negb (validate_coordinates lat lon) then (0%R, 0%R)
          else (lat, lon)
      | _, _ => (0%R, 0%R)
      end in
    match insert_worker now db name skills phone email lat lon with
    | Some (_, db') =>
        ((phone_warning ++ email_warning)%list, RowImported, db')
    | None =>
        ((phone_warning ++ email_warning
          ++ [print_warning (RowDuplicatePhone row_num)])%list,
         RowError, db)
    end.

(** [add_worker]: the console output, the value returned and the
    database afterwards. *)
Definition add_worker (now : timestamp) (db : DB)
           (name skills phone email : string) (lat lon : R)
  : list printed * bool * DB :=
  let name := sanitize_string name Config.MAX_NAME_LENGTH in
  let skills := sanitize_string (PyStr.lower skills)
                                Config.MAX_SKILLS_LENGTH in
  let phone := sanitize_string phone Config.MAX_PHONE_LENGTH in
  let email := sanitize_string email Config.MAX_EMAIL_LENGTH in
  if negb (PyStr.nonempty name) || negb (PyStr.nonempty skills)
  then ([print_error NameAndSkillsRequired], false, db)
  else if PyStr.nonempty phone && negb (validate_phone phone)
  then ([print_error InvalidPhoneFormat], false, db)
  else if PyStr.nonempty email && negb (validate_email email)
  then ([print_error InvalidEmailFormat], false, db)
  else
    let (lat, lon) :=
      if negb (validate_coordinates lat lon) then (0%R, 0%R)
      else (lat, lon) in
    match insert_worker now db name skills phone email lat lon with
    | Some (worker_id, db') =>
        ([print_success (AddedWorker worker_id)], true, db')
    | None => ([print_error DuplicatePhone], false, db)
    end.

End WorkerManager.

(** ** What a regular expression matches *)

Module ReSemantics.
Import PyStr PyRe.

(** The strings of the language of a [regex]. *)
Inductive matches : regex -> text -> Prop :=
| m_eps : matches Eps []
| m_class (p : ascii -> bool) (c : ascii) :
    p c = true -> matches (Class p) [c]
| m_cat (r1 r2 : regex) (s1 s2 : text) :
    matches r1 s1 -> matches r2 s2 -> matches (Cat r1 r2) (s1 ++ s2)
| m_or_l (r1 r2 : regex) (s : text) :
    matches r1 s -> matches (Or r1 r2) s
| m_or_r (r1 r2 : regex) (s : text) :
    matches r2 s -> matches (Or r1 r2) s
| m_star_nil (r : regex) : matches (Star r) []
| m_star_app (r : regex) (s1 s2 : text) :
    matches r s1 -> matches (Star r) s2 -> matches (Star r) (s1 ++ s2).

(** The character classes of the two validation patterns. *)
Definition phone_char (c : ascii) : bool :=
  digit c || space c || one_of "-()" c.
Definition email_local_char (c : ascii) : bool :=
  alpha c || digit c || one_of "._%+-" c.
Definition email_domain_char (c : ascii) : bool :=
  alpha c || digit c || one_of ".-" c.

End ReSemantics.

(** ** Sample rows used by the examples below *)

Module Fixtures.
Import Store.
Open Scope string_scope.
Open Scope Z_scope.

(** Two plumbers without coordinates, rated 5 and 1. *)
Definition asha : Worker :=
  mkWorker 1 "Asha" "plumbing" "9000000001" "" None None "active" 5 0 0.
Definition bala : Worker :=
  mkWorker 2 "Bala" "plumbing" "9000000002" "" None None "active" 1 0 0.

(** A lead without coordinates, and one at the sentinel (0, 0). *)
Definition hotel : Lead :=
  mkLead 1 "Hotel Sea View" "plumbing" "" None None "" "" "nominatim"
         "new" 0 None.
Definition cafe : Lead :=
  mkLead 2 "Cafe Zero" "plumbing" "" (Some 0%R) (Some 0%R) "" ""
         "nominatim" "converted" 0 None.

(** A lead already dispatched. *)
Definition shop : Lead :=
  mkLead 3 "Shop Corner" "plumbing" "" None None "" "" "nominatim"
         "contacted" 0 (Some 1).

Definition db_with_contacted : DB :=
  mkDB [hotel; shop] [asha] [] [] 3 1 0.

Definition db_two_plumbers : DB :=
  mkDB [hotel; cafe] [asha; bala] [] [] 2 2 0.

Definition db_empty : DB := mkDB [] [] [] [] 0 0 0.

(** A worker whose skills were stored in mixed case. *)
Definition chitra : Worker :=
  mkWorker 3 "Chitra" "Plumbing, Electrical" "9000000003" "" None None
           "active" 0 0 0.
Definition deepak : Worker :=
  mkWorker 4 "Deepak" "plumbing,electrical" "9000000004" "" None None
           "active" 0 0 0.

(** A CSV row whose phone fails validation. *)
Definition csv_bad_phone : WorkerManager.CsvRow :=
  WorkerManager.mkCsvRow "Ravi" None "Plumbing" "12ab" "" None None.

End Fixtures.

(** ** Notions used to state the properties *)

Module Notions.
Import Store JobMatcher.
Open Scope string_scope.

(** The filter as the specification words it: the skills contain the
    service as a substring, the case of the letters A-Z being
    ignored. *)
Fixpoint prefix_ci (needle hay : PyStr.text) : bool :=
  match needle, hay with
  | [], _ => true
  | _ :: _, [] => false
  | c :: needle', d :: hay' =>
      Ascii.eqb (Sqlite.like_fold c) (Sqlite.like_fold d)
      && prefix_ci needle' hay'
  end.

Fixpoint substring_ci (needle hay : PyStr.text) : bool :=
  prefix_ci needle hay
  || match hay with
     | [] => false
     | _ :: hay' => substring_ci needle hay'
     end.

Definition contains_ci (hay needle : string) : bool :=
  substring_ci (list_ascii_of_string needle) (list_ascii_of_string hay).

Definition eligible_by_substring (service : string) (w : Worker) : bool :=
  String.eqb (w_status w) "active" && contains_ci (w_skills w) service.

(** No [LIKE] wildcard occurs in [s]. *)
Definition plain (s : PyStr.text) : Prop :=
  forall c, In c s ->
            Sqlite.is_percent c = false /\ Sqlite.is_underscore c = false.

Definition wildcard_free (s : string) : Prop :=
  plain (list_ascii_of_string s).

(** A coordinate is unknown when it is absent ([NULL]) or zero. *)
Definition unknown_coordinate (x : option R) : Prop :=
  x = None \/ x = Some 0%R.

(** The database a successful [create_job] leaves. *)
Definition job_created (now : timestamp) (db : DB) (lead_id worker_id : Z)
           (service : string) (price : R) : Z * DB :=
  let job_id := Sqlite.next_rowid (seq_jobs db) (map j_id (jobs db)) in
  (job_id,
   mkDB (map (set_contacted now lead_id) (leads db)) (workers db)
        (jobs db ++ [mkJob job_id lead_id worker_id service price
                           "dispatched" now])
        (api_cache db) (seq_leads db) (seq_workers db) job_id).

(** Every row of lead [i] is at status 'contacted'. *)
Definition contacted_in (db : DB) (i : Z) : Prop :=
  forall l, In l (leads db) -> l_id l = i -> l_status l = "contacted".

(** The databases reached by running [match_all_leads] any number of
    times, with any arguments and any faults. *)
Inductive after_matches (db : DB) : DB -> Prop :=
| after_none : after_matches db db
| after_match (db' : DB) (fs : nat -> faults) (now : timestamp)
              (service : string) (n : Z) :
    after_matches db db' ->
    after_matches db (snd (match_all_leads fs now db' service n)).

End Notions.
Export Notions.

Ltac decide_R :=
  repeat match goal with
  | |- context [Rlt_dec ?a ?b] => destruct (Rlt_dec a b); try lra
  | |- context [Req_dec_T ?a ?b] => destruct (Req_dec_T a b); try lra
  | |- context [Rle_dec ?a ?b] => destruct (Rle_dec a b); try lra
  end.

(** ** Batch operations: [collect_leads] and [import_from_csv] *)

Module Batches.
Import Store LeadCollector WorkerManager.
Open Scope Z_scope.

(** The [for item in results] loop of [collect_leads], with its two
    counters. *)
Fixpoint collect_loop (now : timestamp) (service : string)
         (results : list Item) (added_count duplicate_count : Z) (db : DB)
  : Z * Z * DB :=
  match results with
  | [] => (added_count, duplicate_count, db)
  | item :: rest =>
      match collect_item now service db item with
      | (LeadCollector.RowAdded, db') =>
          collect_loop now service rest (added_count + 1) duplicate_count db'
      | (LeadCollector.RowDuplicate, db') =>
          collect_loop now service rest added_count (duplicate_count + 1) db'
      | (LeadCollector.RowSkipped, db') =>
          collect_loop now service rest added_count duplicate_count db'
      end
  end.

(** [collect_leads]: the number of leads added and the database once
    the inserts are committed. *)
Definition collect_leads (md5_hexdigest : string -> string)
           (HAVE_REQUESTS : bool) (now : timestamp) (db : DB)
           (city service : string) (resp : response) : Z * DB :=
  let lk := search_nominatim md5_hexdigest HAVE_REQUESTS now db
                             city service resp in
  match lk_results lk with
  | [] => (0, lk_db lk)
  | results =>
      let '(added_count, _, db') :=
        collect_loop now service results 0 0 (lk_db lk) in
      (added_count, db')
  end.

(** The [for row_num, row in enumerate(reader, start=2)] loop of
    [import_from_csv]. *)
Fixpoint import_loop (now : timestamp) (row_num : Z) (rows : list CsvRow)
         (imported_count error_count : Z) (db : DB) : Z * Z * DB :=
  match rows with
  | [] => (imported_count, error_count, db)
  | row :: rest =>
      match import_row row_num now db row with
      | (_, RowImported, db') =>
          import_loop now (row_num + 1) rest (imported_count + 1)
                      error_count db'
      | (_, RowError, db') =>
          import_loop now (row_num + 1) rest imported_count
                      (error_count + 1) db'
      end
  end.

(** [import_from_csv]: the number of workers imported and the database
    once the inserts are committed.  [file] is [None] when the path does
    not exist, and else the rows [csv.DictReader] yields, the first of
    them numbered 2.  What each row prints is the first component of
    [import_row]; it is not collected here, nor are the summary lines
    printed after the loop. *)
Definition import_from_csv (now : timestamp) (db : DB)
           (file : option (list CsvRow)) : Z * DB :=
  match file with
  | None => (0, db)
  | Some rows =>
      let '(imported_count, _, db') := import_loop now 2 rows 0 0 db in
      (imported_count, db')
  end.

End Batches.

(** ** Invariants of the store *)

Module Invariants.
Import Store JobMatcher.
Open Scope string_scope.

(** [a <= b] on floats. *)
Definition fle (a b : pyfloat) : Prop :=
  match a, b with
  | Finite x, Finite y => (x <= y)%R
  | _, PosInf => True
  | PosInf, Finite _ => False
  end.

(** [a] is not placed after [b] by
    [ORDER BY rating DESC, jobs_completed DESC]. *)
Definition not_after (a b : Worker) : Prop := sorts_before b a = false.

(** Job ids are unique and every job refers to a stored lead and a
    stored worker. *)
Definition jobs_consistent (db : DB) : Prop :=
  NoDup (map j_id (jobs db)) /\
  forall j, In j (jobs db) ->
            lead_exists db (j_lead_id j) = true /\
            worker_exists db (j_worker_id j) = true.

(** [UNIQUE(phone)] and [UNIQUE(query_hash)] hold. *)
Definition phones_unique (db : DB) : Prop :=
  NoDup (map w_phone (workers db)).
Definition hashes_unique (db : DB) : Prop :=
  NoDup (map c_query_hash (api_cache db)).

(** A contact value as the write paths store it: empty, or of valid
    format. *)
Definition phone_stored_ok (phone : string) : Prop :=
  phone = "" \/ SecurityValidator.validate_phone phone = true.
Definition email_stored_ok (email : string) : Prop :=
  email = "" \/ SecurityValidator.validate_email email = true.

(** A coordinate pair within [-90, 90] x [-180, 180]. *)
Definition coords_in_range (lat lon : option R) : Prop :=
  exists x y, lat = Some x /\ lon = Some y /\
              (-90 <= x <= 90)%R /\ (-180 <= y <= 180)%R.

(** A worker row as [insert_worker] callers write it. *)
Definition worker_row_ok (w : Worker) : Prop :=
  w_status w = "active" /\ w_rating w = 0%R /\ w_jobs_completed w = 0%Z /\
  w_name w <> "" /\ w_skills w <> "" /\
  PyStr.lower (w_skills w) = w_skills w /\
  phone_stored_ok (w_phone w) /\ email_stored_ok (w_email w) /\
  coords_in_range (w_lat w) (w_lon w).

(** A lead row as [collect_leads] writes it. *)
Definition lead_row_ok (l : Lead) : Prop :=
  l_status l = "new" /\ l_source l = "nominatim" /\
  phone_stored_ok (l_phone l) /\ email_stored_ok (l_email l) /\
  coords_in_range (l_lat l) (l_lon l).

End Invariants.
Export Invariants.

(** ** More sample rows *)

Module MoreFixtures.
Import Store.
Open Scope string_scope.
Open Scope Z_scope.

(** A database whose workers all carry the default rating. *)
Definition db_unrated : DB :=
  mkDB [Fixtures.hotel] [Fixtures.chitra; Fixtures.deepak] [] [] 1 4 0.

(** A store whose only worker has no phone. *)
Definition db_ravi : DB :=
  mkDB [] [mkWorker 1 "Ravi" "plumbing" "" "" (Some 0%R) (Some 0%R)
                    "active" 0 0 0]
       [] [] 0 1 0.

(** A lookup result with a usable coordinate pair and a bad phone. *)
Definition item_taj : Item :=
  mkItem (Some "Taj Hotel, Mumbai") (Some 19%R) (Some 72%R)
         (Some "12ab") (Some "desk@taj.example").

End MoreFixtures.

(** * Properties *)

Open Scope string_scope.

Section GeoFacts.
Import Geo.
Open Scope R_scope.

Lemma truthy_true_iff (x : R) : truthy x = true <-> x <> 0.
Proof.
  unfold truthy. destruct (Req_dec_T x 0); split; intros; congruence.
Qed.

Lemma truthy_false_iff (x : R) : truthy x = false <-> x = 0.
Proof.
  unfold truthy. destruct (Req_dec_T x 0); split; intros; congruence.
Qed.

Lemma haversine_a_sym (lat1 lon1 lat2 lon2 : R) :
  haversine_a lat1 lon1 lat2 lon2 = haversine_a lat2 lon2 lat1 lon1.
Proof.
  unfold haversine_a, radians.
  replace ((lat1 - lat2) * (PI / 180) / 2)
    with (- ((lat2 - lat1) * (PI / 180) / 2)) by lra.
  replace ((lon1 - lon2) * (PI / 180) / 2)
    with (- ((lon2 - lon1) * (PI / 180) / 2)) by lra.
  rewrite !sin_neg. ring.
Qed.

Lemma haversine_a_same (lat lon : R) : haversine_a lat lon lat lon = 0.
Proof.
  unfold haversine_a, radians.
  replace ((lat - lat) * (PI / 180) / 2) with 0 by lra.
  replace ((lon - lon) * (PI / 180) / 2) with 0 by lra.
  rewrite sin_0. ring.
Qed.

Lemma atan2_0_1 : atan2 0 1 = 0.
Proof.
  unfold atan2. destruct (Rlt_dec 0 1) as [_ | H]; [| lra].
  replace (0 / 1) with 0 by lra. apply atan_0.
Qed.

Lemma haversine_guard_sym (lat1 lon1 lat2 lon2 : R) :
  truthy lat1 && truthy lon1 && truthy lat2 && truthy lon2
  = truthy lat2 && truthy lon2 && truthy lat1 && truthy lon1.
Proof.
  destruct (truthy lat1), (truthy lon1), (truthy lat2), (truthy lon2);
    reflexivity.
Qed.

(** In exact arithmetic [a] lies between 0 and 1.  (The computed [a]
    can exceed 1 by a rounding error, for nearly antipodal points; this
    lemma says nothing of the computed value.) *)
Lemma haversine_a_range (lat1 lon1 lat2 lon2 : R) :
  0 <= haversine_a lat1 lon1 lat2 lon2 <= 1.
Proof.
  unfold haversine_a.
  set (x := radians (lat2 - lat1) / 2).
  set (p := (radians lat1 + radians lat2) / 2).
  set (y := radians (lon2 - lon1) / 2).
  replace (radians lat1) with (p - x) by (unfold p, x, radians; field).
  replace (radians lat2) with (p + x) by (unfold p, x, radians; field).
  rewrite cos_minus, cos_plus.
  pose proof (sin2_cos2 x) as Hx. pose proof (sin2_cos2 p) as Hp.
  pose proof (sin2_cos2 y) as Hy. unfold Rsqr in Hx, Hp, Hy.
  set (sx := sin x) in *. set (cx := cos x) in *.
  set (sp := sin p) in *. set (cp := cos p) in *.
  set (sy := sin y) in *. set (cy := cos y) in *.
  assert (Ht0 : 0 <= sy * sy) by nra.
  assert (Ht1 : sy * sy <= 1) by nra.
  assert (E : sx ^ 2
              + (cp * cx + sp * sx) * (cp * cx - sp * sx) * sy ^ 2
              = (1 - sy * sy) * (sx * sx) + (sy * sy) * (cp * cp)).
  { assert (Hcx : cx * cx = 1 - sx * sx) by lra.
    assert (Hsp : sp * sp = 1 - cp * cp) by lra.
    transitivity (sx * sx
                  + (cp * cp * (cx * cx) - sp * sp * (sx * sx)) * (sy * sy));
      [ring |].
    rewrite Hcx, Hsp. ring. }
  rewrite E.
  assert (0 <= sx * sx <= 1) by nra.
  assert (0 <= cp * cp <= 1) by nra.
  split; nra.
Qed.

End GeoFacts.

(** C5 (as stated, refuted).  The point (0, 5) on the equator is a
    well-formed coordinate pair, yet its distance to itself is [+inf]:
    a zero latitude or longitude makes the guard of
    [haversine_distance] fire. *)
Lemma haversine_self_distance_not_zero :
  (-90 <= 0 <= 90)%R /\ (-180 <= 5 <= 180)%R /\
  Geo.haversine_distance 0 5 0 5 <> Finite 0.
Proof.
  split; [lra |]. split; [lra |].
  unfold Geo.haversine_distance.
  assert (H0 : truthy 0 = false) by (apply truthy_false_iff; reflexivity).
  rewrite H0. simpl. discriminate.
Qed.

(** C5 (amended).  [haversine_distance] is symmetric for all arguments,
    and the distance of a point to itself is 0 whenever its latitude and
    its longitude are both nonzero. *)
Theorem haversine_symmetric_and_self_zero :
  (forall lat1 lon1 lat2 lon2 : R,
      Geo.haversine_distance lat1 lon1 lat2 lon2
      = Geo.haversine_distance lat2 lon2 lat1 lon1) /\
  (forall lat lon : R,
      lat <> 0%R -> lon <> 0%R ->
      Geo.haversine_distance lat lon lat lon = Finite 0).
Proof.
  split.
  - intros lat1 lon1 lat2 lon2. unfold Geo.haversine_distance.
    rewrite (haversine_guard_sym lat1 lon1 lat2 lon2).
    rewrite (haversine_a_sym lat1 lon1 lat2 lon2). reflexivity.
  - intros lat lon Hlat Hlon. unfold Geo.haversine_distance.
    apply truthy_true_iff in Hlat. apply truthy_true_iff in Hlon.
    rewrite Hlat, Hlon. simpl.
    rewrite haversine_a_same.
    replace (1 - 0)%R with 1%R by lra.
    rewrite sqrt_0, sqrt_1, atan2_0_1. f_equal. lra.
Qed.

Lemma haversine_symmetric_and_self_zero_witness :
  (19 <> 0)%R /\ (72 <> 0)%R /\
  Geo.haversine_distance 19 72 19 72 = Finite 0 /\
  Geo.haversine_distance 19 72 28 77 = Geo.haversine_distance 28 77 19 72.
Proof.
  split; [lra |]. split; [lra |]. split.
  - apply (proj2 haversine_symmetric_and_self_zero); lra.
  - apply (proj1 haversine_symmetric_and_self_zero).
Defined.



(** ** The scoring loop of [find_best_worker] *)


Section MatcherFacts.
Import Store Console JobMatcher.
Open Scope string_scope.

Variables lead_lat lead_lon : option R.

(** The ['distance'] entry of [best_worker] is the distance computed
    for that very worker, and [best_worker] is one of the workers
    scanned. *)
Lemma scoring_loop_from (workers : list Worker) (st : loop_state) :
  forall w d,
    fst (fold_left (loop_body lead_lat lead_lon) workers st) = Some (w, d) ->
    fst st = Some (w, d) \/
    (In w workers /\ d = worker_distance lead_lat lead_lon w).
Proof.
  revert st. induction workers as [| x rest IH]; intros st w d H.
  - left. exact H.
  - cbn [fold_left] in H. apply IH in H. destruct H as [H | [Hin Hd]].
    + unfold loop_body in H.
      destruct (flt _ _); cbn [fst] in H.
      * inversion H; subst. right. split; [left; reflexivity | reflexivity].
      * left. exact H.
    + right. split; [right; exact Hin | exact Hd].
Qed.

Lemma scoring_loop_result (workers : list Worker) :
  forall w d,
    fst (scoring_loop lead_lat lead_lon workers) = Some (w, d) ->
    In w workers /\ d = worker_distance lead_lat lead_lon w.
Proof.
  intros w d H. apply scoring_loop_from in H.
  destruct H as [H | H]; [discriminate H | exact H].
Qed.

Lemma worker_distance_lead_unknown (w : Worker) :
  truthy_opt lead_lat = false \/ truthy_opt lead_lon = false ->
  worker_distance lead_lat lead_lon w = Finite 999.
Proof.
  intros [H | H]; unfold worker_distance; rewrite H;
    rewrite ?andb_false_r; reflexivity.
Qed.

Lemma worker_distance_worker_unknown (w : Worker) :
  truthy_opt (w_lat w) = false \/ truthy_opt (w_lon w) = false ->
  worker_distance lead_lat lead_lon w = Finite 999.
Proof.
  intros [H | H]; unfold worker_distance; rewrite H;
    rewrite ?andb_false_r; reflexivity.
Qed.

Lemma truthy_opt_float_of (x : option R) :
  truthy_opt x = true -> truthy (float_of x) = true.
Proof.
  destruct x; [intros H; exact H | discriminate].
Qed.

(** The distance of an iteration is never [inf]. *)
Lemma worker_distance_finite (w : Worker) :
  exists x, worker_distance lead_lat lead_lon w = Finite x.
Proof.
  unfold worker_distance.
  destruct (truthy_opt (w_lat w)) eqn:E1; [| eexists; reflexivity].
  destruct (truthy_opt (w_lon w)) eqn:E2; [| eexists; reflexivity].
  destruct (truthy_opt lead_lat) eqn:E3; [| eexists; reflexivity].
  destruct (truthy_opt lead_lon) eqn:E4; [| eexists; reflexivity].
  cbn [andb]. unfold Geo.haversine_distance.
  rewrite (truthy_opt_float_of _ E1), (truthy_opt_float_of _ E2),
    (truthy_opt_float_of _ E3), (truthy_opt_float_of _ E4).
  cbn [andb negb]. eexists. reflexivity.
Qed.

Lemma scoring_loop_keeps_best (workers : list Worker) (st : loop_state) :
  fst st <> None ->
  fst (fold_left (loop_body lead_lat lead_lon) workers st) <> None.
Proof.
  revert st. induction workers as [| x rest IH]; intros st H; [exact H |].
  cbn [fold_left]. apply IH. unfold loop_body.
  destruct (flt _ _); [cbn [fst]; discriminate | exact H].
Qed.

(** The first worker scanned is always accepted, so a non-empty scan
    yields a worker. *)
Lemma scoring_loop_finds (w : Worker) (rest : list Worker) :
  exists w' d,
    fst (scoring_loop lead_lat lead_lon (w :: rest)) = Some (w', d).
Proof.
  assert (H : fst (scoring_loop lead_lat lead_lon (w :: rest)) <> None).
  { unfold scoring_loop. cbn [fold_left]. apply scoring_loop_keeps_best.
    unfold loop_body. cbn [snd].
    destruct (worker_distance_finite w) as [x ->].
    cbn [fsub flt fst]. discriminate. }
  destruct (fst (scoring_loop lead_lat lead_lon (w :: rest)))
    as [[w' d] |]; [| contradiction].
  exists w', d. reflexivity.
Qed.

End MatcherFacts.

Section OrderFacts.
Import Store JobMatcher.

Lemma insert_ordered_In (w x : Worker) (sorted : list Worker) :
  In x (insert_ordered w sorted) <-> x = w \/ In x sorted.
Proof.
  induction sorted as [| y rest IH]; cbn [insert_ordered].
  - cbn [In]. intuition congruence.
  - destruct (sorts_before y w); cbn [In]; [rewrite IH |];
      intuition congruence.
Qed.

Lemma order_by_rating_jobs_In (x : Worker) (rows : list Worker) :
  In x (order_by_rating_jobs rows) <-> In x rows.
Proof.
  unfold order_by_rating_jobs.
  induction rows as [| y rest IH]; cbn [fold_right]; [tauto |].
  rewrite insert_ordered_In, IH. cbn [In]. intuition congruence.
Qed.

(** The workers scanned are the eligible rows of the table. *)
Lemma select_workers_In (db : DB) (service_lower : string) (w : Worker) :
  In w (select_workers db service_lower) <->
  In w (workers db) /\ eligible service_lower w = true.
Proof.
  unfold select_workers. rewrite order_by_rating_jobs_In.
  apply filter_In.
Qed.

End OrderFacts.


Lemma unknown_coordinate_falsy (x : option R) :
  unknown_coordinate x -> truthy_opt x = false.
Proof.
  intros [H | H]; subst; [reflexivity |].
  cbn [truthy_opt]. apply truthy_false_iff. reflexivity.
Qed.

Lemma find_best_worker_some (db : Store.DB) (lead_id : Z) (service : string)
      (w : Store.Worker) (d : pyfloat) :
  snd (JobMatcher.find_best_worker db lead_id service) = Some (w, d) ->
  exists lead,
    JobMatcher.select_lead db lead_id = Some lead /\
    In w (JobMatcher.select_workers db (PyStr.lower service)) /\
    d = JobMatcher.worker_distance (Store.l_lat lead) (Store.l_lon lead) w.
Proof.
  unfold JobMatcher.find_best_worker.
  destruct (JobMatcher.select_lead db lead_id) as [lead |]; [| discriminate].
  destruct (JobMatcher.select_workers db (PyStr.lower service)) as [| x rest] eqn:E;
    [discriminate |].
  cbn [snd]. intros H. apply scoring_loop_result in H.
  exists lead. split; [reflexivity | exact H].
Qed.

(** For a stored lead with at least one eligible worker,
    [find_best_worker] returns one of the eligible workers, every
    distance of the loop being computed in exact arithmetic. *)
Lemma find_best_worker_returns_eligible (db : Store.DB) (lead_id : Z)
      (service : string) (lead : Store.Lead) (w0 : Store.Worker) :
  JobMatcher.select_lead db lead_id = Some lead ->
  In w0 (Store.workers db) ->
  JobMatcher.eligible (PyStr.lower service) w0 = true ->
  exists w d,
    snd (JobMatcher.find_best_worker db lead_id service) = Some (w, d) /\
    In w (Store.workers db) /\
    JobMatcher.eligible (PyStr.lower service) w = true.
Proof.
  intros Hl Hin He.
  assert (H0 : In w0 (JobMatcher.select_workers db (PyStr.lower service))).
  { apply select_workers_In. split; assumption. }
  unfold JobMatcher.find_best_worker. rewrite Hl.
  destruct (JobMatcher.select_workers db (PyStr.lower service))
    as [| x rest] eqn:E; [destruct H0 |].
  cbn [snd].
  destruct (scoring_loop_finds (Store.l_lat lead) (Store.l_lon lead) x rest)
    as (w & d & H).
  exists w, d. split; [exact H |].
  apply scoring_loop_result in H. destruct H as [H _].
  rewrite <- E in H. apply select_workers_In in H. exact H.
Qed.

(** C4.  When the lead's latitude and longitude are (0,0) or absent, the
    distance used to score any worker is the penalty 999, and so is the
    distance returned with the selected worker; the same distance is
    used for a worker whose own coordinates are (0,0) or absent. *)
Theorem unknown_coordinates_give_penalty_distance :
  forall (db : Store.DB) (lead_id : Z) (service : string) (lead : Store.Lead),
    JobMatcher.select_lead db lead_id = Some lead ->
    (forall w : Store.Worker,
        unknown_coordinate (Store.l_lat lead) ->
        unknown_coordinate (Store.l_lon lead) ->
        JobMatcher.worker_distance (Store.l_lat lead) (Store.l_lon lead) w
        = Finite 999 /\
        JobMatcher.worker_score (Store.l_lat lead) (Store.l_lon lead) w
        = Finite (999 - Store.w_rating w * 2)) /\
    (forall (w : Store.Worker) (d : pyfloat),
        unknown_coordinate (Store.l_lat lead) ->
        unknown_coordinate (Store.l_lon lead) ->
        snd (JobMatcher.find_best_worker db lead_id service) = Some (w, d) ->
        d = Finite 999) /\
    (forall w : Store.Worker,
        unknown_coordinate (Store.w_lat w) ->
        unknown_coordinate (Store.w_lon w) ->
        JobMatcher.worker_distance (Store.l_lat lead) (Store.l_lon lead) w
        = Finite 999).
Proof.
  intros db lead_id service lead Hlead.
  split; [| split].
  - intros w Hlat Hlon.
    assert (Hd : JobMatcher.worker_distance (Store.l_lat lead)
                   (Store.l_lon lead) w = Finite 999).
    { apply worker_distance_lead_unknown. left.
      apply unknown_coordinate_falsy. assumption. }
    split; [exact Hd |].
    unfold JobMatcher.worker_score. rewrite Hd. reflexivity.
  - intros w d Hlat Hlon H. apply find_best_worker_some in H.
    destruct H as (lead' & Hsel & _ & Hd). rewrite Hlead in Hsel.
    inversion Hsel; subst lead'. rewrite Hd.
    apply worker_distance_lead_unknown. left.
    apply unknown_coordinate_falsy. assumption.
  - intros w Hlat Hlon. apply worker_distance_worker_unknown. left.
    apply unknown_coordinate_falsy. assumption.
Qed.

Lemma unknown_coordinates_give_penalty_distance_witness :
  JobMatcher.worker_distance (Some 0%R) (Some 0%R) Fixtures.asha = Finite 999.
Proof.
  assert (Hsel : JobMatcher.select_lead Fixtures.db_two_plumbers 2
                 = Some Fixtures.cafe) by reflexivity.
  assert (Hu : unknown_coordinate (Some 0%R)) by (right; reflexivity).
  exact (proj1 (proj1 (unknown_coordinates_give_penalty_distance
                         Fixtures.db_two_plumbers 2 "plumbing" Fixtures.cafe
                         Hsel) Fixtures.asha Hu Hu)).
Defined.

Lemma select_two_plumbers :
  JobMatcher.select_workers Fixtures.db_two_plumbers (PyStr.lower "plumbing")
  = [Fixtures.asha; Fixtures.bala].
Proof.
  change (PyStr.lower "plumbing") with "plumbing".
  unfold JobMatcher.select_workers.
  assert (E : filter (JobMatcher.eligible "plumbing")
                     (Store.workers Fixtures.db_two_plumbers)
              = [Fixtures.asha; Fixtures.bala]) by reflexivity.
  rewrite E. unfold JobMatcher.order_by_rating_jobs.
  cbn [fold_right JobMatcher.insert_ordered].
  unfold JobMatcher.sorts_before.
  cbn [Store.w_rating Store.w_jobs_completed Fixtures.asha Fixtures.bala].
  decide_R. reflexivity.
Qed.

(** C1 (the code at a failing input).  Lead 1 has no coordinates; Asha
    (rating 5) and Bala (rating 1) are both eligible for "plumbing" and
    both at the penalty distance.  Asha has the minimal score, 989, yet
    Bala, with score 997, is returned: the loop keeps the distance of the
    best worker, not its score, as the bound the next score is compared
    with. *)
Theorem find_best_worker_returns_higher_score :
  JobMatcher.select_workers Fixtures.db_two_plumbers (PyStr.lower "plumbing")
  = [Fixtures.asha; Fixtures.bala] /\
  JobMatcher.worker_score None None Fixtures.asha = Finite 989 /\
  JobMatcher.worker_score None None Fixtures.bala = Finite 997 /\
  snd (JobMatcher.find_best_worker Fixtures.db_two_plumbers 1 "plumbing")
  = Some (Fixtures.bala, Finite 999).
Proof.
  split; [exact select_two_plumbers |].
  split; [| split].
  - unfold JobMatcher.worker_score, JobMatcher.worker_distance.
    cbn. f_equal. lra.
  - unfold JobMatcher.worker_score, JobMatcher.worker_distance.
    cbn. f_equal. lra.
  - unfold JobMatcher.find_best_worker.
    change (JobMatcher.select_lead Fixtures.db_two_plumbers 1)
      with (Some Fixtures.hotel).
    cbv iota beta. rewrite select_two_plumbers.
    unfold JobMatcher.scoring_loop, JobMatcher.loop_body.
    cbn [fold_left Store.l_lat Store.l_lon Fixtures.hotel snd fst].
    unfold JobMatcher.worker_distance.
    cbn [Store.w_lat Store.w_lon Store.w_rating Fixtures.asha Fixtures.bala
         truthy_opt andb fsub flt snd fst].
    decide_R. reflexivity.
Qed.

(** C6 (as stated, refuted).  Lead 7 is unknown; lead 1 is known and no
    worker offers "roofing".  Both calls return the same value, [None]. *)
Lemma not_found_returns_same_value_as_no_match :
  JobMatcher.select_lead Fixtures.db_two_plumbers 7 = None /\
  JobMatcher.select_lead Fixtures.db_two_plumbers 1 = Some Fixtures.hotel /\
  JobMatcher.select_workers Fixtures.db_two_plumbers (PyStr.lower "roofing")
  = [] /\
  snd (JobMatcher.find_best_worker Fixtures.db_two_plumbers 7 "roofing")
  = snd (JobMatcher.find_best_worker Fixtures.db_two_plumbers 1 "roofing").
Proof.
  repeat split; reflexivity.
Qed.

(** C6 (amended).  [find_best_worker] returns [None] both for an unknown
    lead id and for a known lead without an eligible worker; the two
    outcomes differ in the message printed (an error "Lead ID ... not
    found" against a warning "No workers found with skill: ..."), not in
    the value returned. *)
Theorem find_best_worker_none_outcomes :
  forall (db : Store.DB) (lead_id : Z) (service : string),
    (JobMatcher.select_lead db lead_id = None ->
     JobMatcher.find_best_worker db lead_id service
     = ([Console.print_error (Console.LeadNotFound lead_id)], None)) /\
    (forall lead : Store.Lead,
        JobMatcher.select_lead db lead_id = Some lead ->
        JobMatcher.select_workers db (PyStr.lower service) = [] ->
        JobMatcher.find_best_worker db lead_id service
        = ([Console.print_warning (Console.NoWorkersWithSkill service)],
           None)).
Proof.
  intros db lead_id service. split.
  - intros H. unfold JobMatcher.find_best_worker. rewrite H. reflexivity.
  - intros lead Hl Hw. unfold JobMatcher.find_best_worker.
    rewrite Hl, Hw. reflexivity.
Qed.

Lemma find_best_worker_none_outcomes_witness :
  JobMatcher.find_best_worker Fixtures.db_two_plumbers 7 "roofing"
  = ([Console.print_error (Console.LeadNotFound 7)], None) /\
  JobMatcher.find_best_worker Fixtures.db_two_plumbers 1 "roofing"
  = ([Console.print_warning (Console.NoWorkersWithSkill "roofing")], None).
Proof.
  split.
  - apply (proj1 (find_best_worker_none_outcomes
                    Fixtures.db_two_plumbers 7 "roofing")).
    reflexivity.
  - apply (proj2 (find_best_worker_none_outcomes
                    Fixtures.db_two_plumbers 1 "roofing") Fixtures.hotel);
      reflexivity.
Defined.

(** ** [create_job] *)

Section CreateJobFacts.
Import Store JobMatcher.
Open Scope Z_scope.

Lemma fold_max_lower (ids : list Z) (b : Z) :
  b <= fold_right Z.max b ids.
Proof.
  induction ids as [| x rest IH]; cbn [fold_right]; lia.
Qed.

Lemma fold_max_upper (ids : list Z) (b x : Z) :
  In x ids -> x <= fold_right Z.max b ids.
Proof.
  induction ids as [| y rest IH]; cbn [fold_right In]; [tauto |].
  intros [-> | H]; [lia |]. specialize (IH H). lia.
Qed.

Lemma next_rowid_positive (seq : Z) (ids : list Z) :
  1 <= Sqlite.next_rowid seq ids.
Proof.
  unfold Sqlite.next_rowid.
  pose proof (fold_max_lower ids (Z.max 0 seq)). lia.
Qed.

Lemma next_rowid_fresh (seq : Z) (ids : list Z) :
  ~ In (Sqlite.next_rowid seq ids) ids.
Proof.
  unfold Sqlite.next_rowid. intros H.
  apply (fold_max_upper ids (Z.max 0 seq)) in H. lia.
Qed.


(** [create_job] has two outcomes: nothing, or both writes. *)
Lemma create_job_cases (f : faults) (now : timestamp) (db : DB)
      (lead_id worker_id : Z) (service : string) (price : R) :
  (create_job f now db lead_id worker_id service price = (0, db) /\
   (f AtConnect = true \/ f AtInsertJob = true \/ f AtUpdateLead = true \/
    f AtCommit = true \/
    lead_exists db lead_id && worker_exists db worker_id = false)) \/
  (create_job f now db lead_id worker_id service price
   = job_created now db lead_id worker_id service price /\
   f AtConnect = false /\ f AtInsertJob = false /\
   f AtUpdateLead = false /\ f AtCommit = false /\
   lead_exists db lead_id = true /\ worker_exists db worker_id = true).
Proof.
  unfold create_job, create_job_tx, bind, insert_job, update_lead,
    commit_job, commit, ret, get_connection, close, job_created.
  cbn [working committed].
  destruct (f AtConnect) eqn:Ec; [left; auto |].
  destruct (f AtInsertJob) eqn:Ei; [left; auto |].
  destruct (lead_exists db lead_id) eqn:El;
    [| left; cbn [andb negb]; auto 6].
  destruct (worker_exists db worker_id) eqn:Ew;
    [| left; cbn [andb negb]; auto 6].
  cbn [andb negb working committed].
  destruct (f AtUpdateLead) eqn:Eu; [left; auto 6 |].
  cbn [working committed].
  destruct (f AtCommit) eqn:Em; [left; auto 6 |].
  cbn [working committed]. right. auto 10.
Qed.

Lemma set_contacted_id (now : timestamp) (lead_id : Z) (l : Lead) :
  l_id (set_contacted now lead_id l) = l_id l.
Proof.
  unfold set_contacted. destruct (l_id l =? lead_id); reflexivity.
Qed.

Lemma set_contacted_hit (now : timestamp) (lead_id : Z) (l : Lead) :
  l_id l = lead_id ->
  l_status (set_contacted now lead_id l) = "contacted" /\
  l_updated_at (set_contacted now lead_id l) = Some now.
Proof.
  intros H. unfold set_contacted. rewrite H, Z.eqb_refl. split; reflexivity.
Qed.

Lemma set_contacted_miss (now : timestamp) (lead_id : Z) (l : Lead) :
  l_id l <> lead_id -> set_contacted now lead_id l = l.
Proof.
  intros H. unfold set_contacted.
  destruct (Z.eqb_spec (l_id l) lead_id); [contradiction | reflexivity].
Qed.

Lemma set_contacted_status (now : timestamp) (lead_id : Z) (l : Lead) :
  l_status (set_contacted now lead_id l) = l_status l \/
  l_status (set_contacted now lead_id l) = "contacted".
Proof.
  unfold set_contacted. destruct (l_id l =? lead_id); [right | left];
    reflexivity.
Qed.

Lemma lead_exists_In (db : DB) (lead_id : Z) :
  lead_exists db lead_id = true <->
  exists l, In l (leads db) /\ l_id l = lead_id.
Proof.
  unfold lead_exists. rewrite existsb_exists.
  split; intros (l & Hin & H); exists l; split; try assumption.
  - apply Z.eqb_eq. exact H.
  - apply Z.eqb_eq. exact H.
Qed.

End CreateJobFacts.

(** C2.  [create_job] is one transactional unit.  Whatever statement
    raises, and whatever the database holds, it ends in one of two ways:
    it returns 0 and the database is as before; or it returns the fresh
    id of a job row at status 'dispatched' that is now stored, the lead
    exists, every row of that lead is at status 'contacted' with the new
    timestamp, and all other leads are as before. *)
Theorem create_job_all_or_nothing :
  forall (f : JobMatcher.faults) (now : Store.timestamp) (db : Store.DB)
         (lead_id worker_id : Z) (service : string) (price : R),
    let r := JobMatcher.create_job f now db lead_id worker_id service price in
    (fst r = 0%Z /\ snd r = db) \/
    (fst r <> 0%Z /\
     ~ In (fst r) (map Store.j_id (Store.jobs db)) /\
     Store.jobs (snd r)
     = (Store.jobs db
        ++ [Store.mkJob (fst r) lead_id worker_id service price
                        "dispatched" now])%list /\
     (exists l, In l (Store.leads (snd r)) /\ Store.l_id l = lead_id) /\
     (forall l, In l (Store.leads (snd r)) -> Store.l_id l = lead_id ->
                Store.l_status l = "contacted" /\
                Store.l_updated_at l = Some now) /\
     (forall l, In l (Store.leads db) -> Store.l_id l <> lead_id ->
                In l (Store.leads (snd r)))).
Proof.
  intros f now db lead_id worker_id service price r. subst r.
  destruct (create_job_cases f now db lead_id worker_id service price)
    as [[E _] | (E & _ & _ & _ & _ & Hl & _)]; rewrite E.
  - left. split; reflexivity.
  - right. unfold job_created. cbn [fst snd Store.jobs Store.leads].
    split; [| split; [| split; [| split; [| split]]]].
    + pose proof (next_rowid_positive (Store.seq_jobs db)
                    (map Store.j_id (Store.jobs db))). lia.
    + apply next_rowid_fresh.
    + reflexivity.
    + apply lead_exists_In in Hl. destruct Hl as (l & Hin & Hid).
      exists (JobMatcher.set_contacted now lead_id l). split.
      * apply in_map. exact Hin.
      * rewrite set_contacted_id. exact Hid.
    + intros l Hin Hid. apply in_map_iff in Hin.
      destruct Hin as (l0 & <- & Hin0).
      rewrite set_contacted_id in Hid. apply set_contacted_hit. exact Hid.
    + intros l Hin Hid. apply in_map_iff. exists l. split; [| exact Hin].
      apply set_contacted_miss. exact Hid.
Qed.

Lemma create_job_all_or_nothing_witness :
  let r := JobMatcher.create_job
             (fun s => match s with
                       | JobMatcher.AtUpdateLead => true
                       | _ => false
                       end)
             5%Z Fixtures.db_two_plumbers 1%Z 1%Z "plumbing" 0%R in
  fst r = 0%Z /\ snd r = Fixtures.db_two_plumbers.
Proof.
  intros r.
  destruct (create_job_all_or_nothing
              (fun s => match s with
                        | JobMatcher.AtUpdateLead => true
                        | _ => false
                        end)
              5%Z Fixtures.db_two_plumbers 1%Z 1%Z "plumbing" 0%R)
    as [H | [H _]].
  - exact H.
  - exfalso. apply H. reflexivity.
Defined.

(** C10.  [create_job] looks at no status: for every existing lead and
    worker, when no statement raises, it returns a job id and leaves the
    lead at status 'contacted', whatever its status was. *)
Theorem create_job_ignores_prior_status :
  forall (now : Store.timestamp) (db : Store.DB) (lead_id worker_id : Z)
         (service : string) (price : R) (lead : Store.Lead)
         (prior : string),
    In lead (Store.leads db) ->
    Store.l_id lead = lead_id ->
    Store.l_status lead = prior ->
    JobMatcher.worker_exists db worker_id = true ->
    let r := JobMatcher.create_job JobMatcher.no_faults now db
                                   lead_id worker_id service price in
    fst r <> 0%Z /\
    In (JobMatcher.set_contacted now lead_id lead) (Store.leads (snd r)) /\
    Store.l_status (JobMatcher.set_contacted now lead_id lead) = "contacted" /\
    (forall l, In l (Store.leads (snd r)) -> Store.l_id l = lead_id ->
               Store.l_status l = "contacted").
Proof.
  intros now db lead_id worker_id service price lead prior Hin Hid _ Hw r.
  subst r.
  assert (Hl : JobMatcher.lead_exists db lead_id = true).
  { apply lead_exists_In. exists lead. split; assumption. }
  destruct (create_job_cases JobMatcher.no_faults now db lead_id worker_id
                             service price)
    as [[_ H] | (E & _)].
  - exfalso. unfold JobMatcher.no_faults in H. rewrite Hl, Hw in H.
    cbn [andb] in H. intuition discriminate.
  - rewrite E. unfold job_created. cbn [fst snd Store.leads].
    split; [| split; [| split]].
    + pose proof (next_rowid_positive (Store.seq_jobs db)
                    (map Store.j_id (Store.jobs db))). lia.
    + apply in_map. exact Hin.
    + apply set_contacted_hit. exact Hid.
    + intros l Hl' Hid'. apply in_map_iff in Hl'.
      destruct Hl' as (l0 & <- & _). rewrite set_contacted_id in Hid'.
      apply set_contacted_hit. exact Hid'.
Qed.

Lemma create_job_ignores_prior_status_witness :
  Store.l_status Fixtures.cafe = "converted" /\
  fst (JobMatcher.create_job JobMatcher.no_faults 5%Z Fixtures.db_two_plumbers
                             2%Z 1%Z "plumbing" 0) <> 0%Z /\
  Store.l_status (JobMatcher.set_contacted 5%Z 2%Z Fixtures.cafe)
  = "contacted".
Proof.
  split; [reflexivity |].
  assert (Hin : In Fixtures.cafe (Store.leads Fixtures.db_two_plumbers))
    by (right; left; reflexivity).
  pose proof (create_job_ignores_prior_status 5%Z
                Fixtures.db_two_plumbers 2%Z 1%Z "plumbing" 0%R Fixtures.cafe "converted" Hin
                eq_refl eq_refl eq_refl) as H.
  cbv zeta in H. split; [exact (proj1 H) | exact (proj1 (proj2 (proj2 H)))].
Defined.

(** ** [match_all_leads] *)

Section MatchFacts.
Import Store JobMatcher.


Lemma limit_incl {A : Type} (n : Z) (rows : list A) (x : A) :
  In x (Sqlite.limit n rows) -> In x rows.
Proof.
  unfold Sqlite.limit. destruct (n <? 0)%Z; [tauto |].
  revert rows. induction (Z.to_nat n) as [| k IH]; intros rows H.
  - destruct H.
  - destruct rows as [| y rest]; cbn [firstn] in H; [destruct H |].
    destruct H as [-> | H]; [left; reflexivity | right; apply IH; exact H].
Qed.

Lemma select_new_leads_spec (db : DB) (service : string) (n : Z) (l : Lead) :
  In l (select_new_leads db service n) ->
  In l (leads db) /\ l_status l = "new" /\
  Sqlite.like (l_category l) ("%" ++ service ++ "%") = true.
Proof.
  unfold select_new_leads. intros H. apply limit_incl in H.
  apply filter_In in H. destruct H as [Hin H].
  apply andb_true_iff in H. destruct H as [Hs Hc].
  apply String.eqb_eq in Hs. auto.
Qed.

Lemma create_job_keeps_contacted (f : faults) (now : timestamp) (db : DB)
      (lead_id worker_id : Z) (service : string) (price : R) (i : Z) :
  contacted_in db i ->
  contacted_in (snd (create_job f now db lead_id worker_id service price)) i.
Proof.
  intros H.
  destruct (create_job_cases f now db lead_id worker_id service price)
    as [[E _] | [E _]]; rewrite E; [exact H |].
  unfold job_created, contacted_in. cbn [snd leads].
  intros l Hin Hid. apply in_map_iff in Hin.
  destruct Hin as (l0 & <- & Hin0). rewrite set_contacted_id in Hid.
  destruct (set_contacted_status now lead_id l0) as [E' | E']; rewrite E'.
  - apply H; assumption.
  - reflexivity.
Qed.

Lemma match_loop_keeps_contacted (fs : nat -> faults) (now : timestamp)
      (service : string) (selected : list Lead) (i : Z) :
  forall (k : nat) (count : Z) (db : DB),
    contacted_in db i ->
    contacted_in (snd (match_loop fs now service selected k count db)) i.
Proof.
  induction selected as [| lead rest IH]; intros k count db H.
  - exact H.
  - cbn [match_loop].
    destruct (snd (find_best_worker db (l_id lead) service))
      as [[worker d] |]; [| apply IH; exact H].
    pose proof (create_job_keeps_contacted (fs k) now db (l_id lead)
                  (w_id worker) service 0 i H) as H'.
    destruct (create_job (fs k) now db (l_id lead) (w_id worker) service 0)
      as [job_id db'].
    cbn [snd] in H'.
    destruct (job_id =? 0)%Z; apply IH; exact H'.
Qed.

Lemma match_all_leads_keeps_contacted (fs : nat -> faults)
      (now : timestamp) (db : DB) (service : string) (n : Z) (i : Z) :
  contacted_in db i ->
  contacted_in (snd (match_all_leads fs now db service n)) i.
Proof.
  intros H. unfold match_all_leads.
  destruct (select_new_leads db service n) as [| l rest]; [exact H |].
  apply match_loop_keeps_contacted. exact H.
Qed.


Lemma after_matches_keeps_contacted (db db' : DB) (i : Z) :
  after_matches db db' -> contacted_in db i -> contacted_in db' i.
Proof.
  intros Hreach H. induction Hreach as [| db' fs now service n _ IH].
  - exact H.
  - apply match_all_leads_keeps_contacted. exact IH.
Qed.

End MatchFacts.

(** C8.  Every lead [match_all_leads] selects is at status 'new'; and a
    lead at status 'contacted' stays at 'contacted' through any sequence
    of [match_all_leads] invocations and is selected by none of them,
    for any service and any limit. *)
Theorem contacted_lead_never_selected :
  (forall (db : Store.DB) (service : string) (max_matches : Z)
          (l : Store.Lead),
      In l (JobMatcher.select_new_leads db service max_matches) ->
      Store.l_status l = "new") /\
  (forall (db db' : Store.DB) (i : Z),
      contacted_in db i ->
      after_matches db db' ->
      contacted_in db' i /\
      forall (service : string) (max_matches : Z) (l : Store.Lead),
        In l (JobMatcher.select_new_leads db' service max_matches) ->
        Store.l_id l <> i).
Proof.
  split.
  - intros db service n l H. apply select_new_leads_spec in H. tauto.
  - intros db db' i Hc Hreach.
    pose proof (after_matches_keeps_contacted db db' i Hreach Hc) as Hc'.
    split; [exact Hc' |].
    intros service n l Hin Hid. apply select_new_leads_spec in Hin.
    destruct Hin as (Hin & Hnew & _).
    specialize (Hc' l Hin Hid). rewrite Hnew in Hc'. discriminate Hc'.
Qed.

Lemma contacted_lead_never_selected_witness :
  Store.l_status Fixtures.hotel = "new" /\
  contacted_in
    (snd (JobMatcher.match_all_leads (fun _ => JobMatcher.no_faults) 9%Z
            Fixtures.db_with_contacted "plumbing" 10%Z)) 3%Z.
Proof.
  split.
  - apply (proj1 contacted_lead_never_selected
             Fixtures.db_with_contacted "plumbing" 10%Z Fixtures.hotel).
    left. reflexivity.
  - assert (Hc : contacted_in Fixtures.db_with_contacted 3%Z).
    { intros l Hin Hid. destruct Hin as [<- | [<- | []]].
      - discriminate Hid.
      - reflexivity. }
    apply (proj2 contacted_lead_never_selected
             Fixtures.db_with_contacted _ 3%Z Hc).
    apply after_match. apply after_none.
Defined.

(** ** The lookup cache *)

Section CacheFacts.
Import Store Console LeadCollector.
Open Scope Z_scope.

Variable md5_hexdigest : string -> string.

Lemma find_none_app {A : Type} (p : A -> bool) (xs ys : list A) :
  (forall x, In x xs -> p x = false) ->
  find p (xs ++ ys) = find p ys.
Proof.
  induction xs as [| x rest IH]; intros H; [reflexivity |].
  cbn [app find]. rewrite (H x (or_introl eq_refl)).
  apply IH. intros y Hy. apply H. right. exact Hy.
Qed.

(** Right after a response was stored at time [t], a read at time [now]
    finds it exactly when [now] is before [t] plus 24 hours. *)
Lemma cached_after_store (db : DB) (key : string) (results : list Item)
      (t now : timestamp) :
  _get_cached_results (_cache_results db key results t) key now
  = if now <? t + hours 24 then Some results else None.
Proof.
  unfold _get_cached_results, _cache_results. cbn [api_cache].
  rewrite find_none_app.
  - cbn [find c_query_hash c_expires_at c_response_data].
    rewrite String.eqb_refl. cbn [andb].
    unfold Config.CACHE_DURATION_HOURS.
    destruct (now <? t + hours 24); reflexivity.
  - intros c Hc. apply filter_In in Hc. destruct Hc as [_ Hc].
    destruct (String.eqb (c_query_hash c) key); [discriminate Hc |].
    reflexivity.
Qed.

(** A live, non-empty cached response is returned without a request. *)
Lemma live_nonempty_entry_served (db : DB) (city query : string)
      (now : timestamp) (resp : response) (x : Item) (rest : list Item) :
  PyStr.nonempty (SecurityValidator.sanitize_string city 100) = true ->
  PyStr.nonempty (SecurityValidator.sanitize_string query 100) = true ->
  _get_cached_results db
    (_get_cache_key md5_hexdigest
       (SecurityValidator.sanitize_string city 100)
       (SecurityValidator.sanitize_string query 100)) now
  = Some (x :: rest) ->
  search_nominatim md5_hexdigest true now db city query resp
  = mkLookup (x :: rest) db 0 [print_info UsingCachedResults].
Proof.
  intros Hc Hq H. unfold search_nominatim. cbn [negb].
  rewrite Hc, Hq. cbn [negb orb]. rewrite H. reflexivity.
Qed.

(** Without a live entry a request is sent. *)
Lemma no_live_entry_requests (db : DB) (city query : string)
      (now : timestamp) (resp : response) :
  PyStr.nonempty (SecurityValidator.sanitize_string city 100) = true ->
  PyStr.nonempty (SecurityValidator.sanitize_string query 100) = true ->
  _get_cached_results db
    (_get_cache_key md5_hexdigest
       (SecurityValidator.sanitize_string city 100)
       (SecurityValidator.sanitize_string query 100)) now
  = None ->
  lk_requests (search_nominatim md5_hexdigest true now db city query resp)
  = 1%nat.
Proof.
  intros Hc Hq H. unfold search_nominatim. cbn [negb].
  rewrite Hc, Hq. cbn [negb orb]. rewrite H. cbn [cached_truthy].
  destruct resp; reflexivity.
Qed.

End CacheFacts.

(** C3 (the code at a failing input).  At time [t] the lookup of
    ("Mumbai", "hotel") is answered with an empty result list, which is
    stored with a 24 hour lifetime.  One hour later the entry is live and
    is read back, yet the same lookup sends a second request to the
    provider: an empty cached list counts as no cached result. *)
Theorem empty_cached_response_is_requested_again :
  forall (md5_hexdigest : string -> string) (t : Store.timestamp)
         (resp : LeadCollector.response),
    let first :=
      LeadCollector.search_nominatim md5_hexdigest true t Fixtures.db_empty
        "Mumbai" "hotel" (LeadCollector.Success []) in
    let later := (t + LeadCollector.hours 1)%Z in
    let second :=
      LeadCollector.search_nominatim md5_hexdigest true later
        (LeadCollector.lk_db first) "Mumbai" "hotel" resp in
    LeadCollector.lk_requests first = 1%nat /\
    LeadCollector._get_cached_results (LeadCollector.lk_db first)
      (LeadCollector._get_cache_key md5_hexdigest "Mumbai" "hotel") later
    = Some [] /\
    LeadCollector.lk_requests second = 1%nat.
Proof.
  intros md5 t resp first later second.
  assert (Hfirst : first
                   = LeadCollector.mkLookup []
                       (LeadCollector._cache_results Fixtures.db_empty
                          (LeadCollector._get_cache_key md5 "Mumbai" "hotel")
                          [] t)
                       1 [Console.print_info Console.Searching]).
  { reflexivity. }
  assert (Hlive : LeadCollector._get_cached_results
                    (LeadCollector.lk_db first)
                    (LeadCollector._get_cache_key md5 "Mumbai" "hotel") later
                  = Some []).
  { rewrite Hfirst. cbn [LeadCollector.lk_db].
    rewrite cached_after_store.
    replace (later <? t + LeadCollector.hours 24)%Z with true; [reflexivity |].
    symmetry. apply Z.ltb_lt. subst later. unfold LeadCollector.hours. lia. }
  split; [rewrite Hfirst; reflexivity |].
  split; [exact Hlive |].
  subst second. unfold LeadCollector.search_nominatim. cbn [negb].
  change (SecurityValidator.sanitize_string "Mumbai" 100) with "Mumbai".
  change (SecurityValidator.sanitize_string "hotel" 100) with "hotel".
  cbn [PyStr.nonempty negb orb]. rewrite Hlive.
  cbn [LeadCollector.cached_truthy]. destruct resp; reflexivity.
Qed.

(** ** Phone and email validation on the write paths *)

Section ValidationFacts.
Import Store Console SecurityValidator.

Lemma cleared_when_invalid (valid : string -> bool) (s : string) :
  PyStr.nonempty s = true -> valid s = false ->
  (if PyStr.nonempty s && negb (valid s) then "" else s) = "".
Proof.
  intros Hn Hv. rewrite Hn, Hv. reflexivity.
Qed.

Lemma kept_when_empty (valid : string -> bool) :
  (if PyStr.nonempty "" && negb (valid "") then "" else "") = "".
Proof.
  reflexivity.
Qed.

Lemma sanitize_empty (n : nat) : sanitize_string "" n = "".
Proof.
  reflexivity.
Qed.

End ValidationFacts.

(** C7 (as stated, refuted).  [add_worker] with the phone "12ab", which
    fails validation, writes nothing and returns [False]; with a valid
    phone and otherwise the same arguments the worker is stored. *)
Lemma add_worker_rejects_invalid_phone :
  SecurityValidator.validate_phone "12ab" = false /\
  WorkerManager.add_worker 0%Z Fixtures.db_empty
    "Ravi" "Plumbing" "12ab" "" 0 0
  = ([Console.print_error Console.InvalidPhoneFormat], false,
     Fixtures.db_empty) /\
  snd (fst (WorkerManager.add_worker 0%Z Fixtures.db_empty
              "Ravi" "Plumbing" "9876543210" "" 0 0)) = true.
Proof.
  split; [reflexivity |]. split; [reflexivity |].
  unfold WorkerManager.add_worker.
  change (SecurityValidator.sanitize_string "Ravi" Config.MAX_NAME_LENGTH)
    with "Ravi".
  change (SecurityValidator.sanitize_string (PyStr.lower "Plumbing")
            Config.MAX_SKILLS_LENGTH) with "plumbing".
  change (SecurityValidator.sanitize_string "9876543210"
            Config.MAX_PHONE_LENGTH) with "9876543210".
  change (SecurityValidator.sanitize_string "" Config.MAX_EMAIL_LENGTH)
    with "".
  change (SecurityValidator.validate_phone "9876543210") with true.
  cbn [PyStr.nonempty negb orb andb].
  unfold SecurityValidator.validate_coordinates. decide_R.
  cbn [andb negb]. reflexivity.
Qed.

(** C7 (amended).  On the batch write paths a phone or email that fails
    validation is cleared to the empty string and the row is then stored,
    or skipped, exactly as a row without that value: silently in
    [collect_leads]; in [import_from_csv] with the warning "Row n:
    Invalid phone format, clearing" (or "... email ...") printed for a
    row that has its name and skills.  [add_worker] instead rejects the
    write: given a name and skills, a phone that fails validation makes
    it print the error "Invalid phone format", and else an email that
    fails validation the error "Invalid email format"; it returns
    [False] and leaves the store as it was. *)
Theorem invalid_contact_cleared_in_batches_rejected_by_add_worker :
  forall (now : Store.timestamp) (db : Store.DB),
    (forall (service : string) (item : Store.Item) (phone : string),
        Store.it_phone item = Some phone ->
        PyStr.nonempty (SecurityValidator.sanitize_string
                          phone Config.MAX_PHONE_LENGTH) = true ->
        SecurityValidator.validate_phone
          (SecurityValidator.sanitize_string phone Config.MAX_PHONE_LENGTH)
        = false ->
        LeadCollector.collect_item now service db item
        = LeadCollector.collect_item now service db
            (Store.mkItem (Store.it_display_name item) (Store.it_lat item)
                          (Store.it_lon item) None (Store.it_email item))) /\
    (forall (service : string) (item : Store.Item) (email : string),
        Store.it_email item = Some email ->
        PyStr.nonempty (SecurityValidator.sanitize_string
                          email Config.MAX_EMAIL_LENGTH) = true ->
        SecurityValidator.validate_email
          (SecurityValidator.sanitize_string email Config.MAX_EMAIL_LENGTH)
        = false ->
        LeadCollector.collect_item now service db item
        = LeadCollector.collect_item now service db
            (Store.mkItem (Store.it_display_name item) (Store.it_lat item)
                          (Store.it_lon item) (Store.it_phone item) None)) /\
    (forall (row_num : Z) (row : WorkerManager.CsvRow),
        PyStr.nonempty (SecurityValidator.sanitize_string
                          (WorkerManager.csv_phone row)
                          Config.MAX_PHONE_LENGTH) = true ->
        SecurityValidator.validate_phone
          (SecurityValidator.sanitize_string (WorkerManager.csv_phone row)
                                             Config.MAX_PHONE_LENGTH)
        = false ->
        let r := WorkerManager.import_row row_num now db row in
        let r' := WorkerManager.import_row row_num now db
                    (WorkerManager.mkCsvRow
                       (WorkerManager.csv_name row)
                       (WorkerManager.csv_full_name row)
                       (WorkerManager.csv_skills row)
                       "" (WorkerManager.csv_email row)
                       (WorkerManager.csv_lat row)
                       (WorkerManager.csv_lon row)) in
        snd (fst r) = snd (fst r') /\ snd r = snd r' /\
        (PyStr.nonempty (SecurityValidator.sanitize_string
                           (WorkerManager.row_name row)
                           Config.MAX_NAME_LENGTH) = true ->
         PyStr.nonempty (SecurityValidator.sanitize_string
                           (PyStr.lower (WorkerManager.csv_skills row))
                           Config.MAX_SKILLS_LENGTH) = true ->
         fst (fst r)
         = (Console.print_warning
              (Console.RowInvalidPhoneClearing row_num) :: fst (fst r'))%list))
    /\
    (forall (row_num : Z) (row : WorkerManager.CsvRow),
        PyStr.nonempty (SecurityValidator.sanitize_string
                          (WorkerManager.csv_email row)
                          Config.MAX_EMAIL_LENGTH) = true ->
        SecurityValidator.validate_email
          (SecurityValidator.sanitize_string (WorkerManager.csv_email row)
                                             Config.MAX_EMAIL_LENGTH)
        = false ->
        let r := WorkerManager.import_row row_num now db row in
        let r' := WorkerManager.import_row row_num now db
                    (WorkerManager.mkCsvRow
                       (WorkerManager.csv_name row)
                       (WorkerManager.csv_full_name row)
                       (WorkerManager.csv_skills row)
                       (WorkerManager.csv_phone row) ""
                       (WorkerManager.csv_lat row)
                       (WorkerManager.csv_lon row)) in
        snd (fst r) = snd (fst r') /\ snd r = snd r' /\
        (PyStr.nonempty (SecurityValidator.sanitize_string
                           (WorkerManager.row_name row)
                           Config.MAX_NAME_LENGTH) = true ->
         PyStr.nonempty (SecurityValidator.sanitize_string
                           (PyStr.lower (WorkerManager.csv_skills row))
                           Config.MAX_SKILLS_LENGTH) = true ->
         exists before after : list Console.printed,
           (before = [] \/
            before = [Console.print_warning
                        (Console.RowInvalidPhoneClearing row_num)]) /\
           fst (fst r)
           = (before
              ++ Console.print_warning
                   (Console.RowInvalidEmailClearing row_num) :: after)%list /\
           fst (fst r') = (before ++ after)%list)) /\
    (forall (name skills phone email : string) (lat lon : R),
        PyStr.nonempty (SecurityValidator.sanitize_string
                          name Config.MAX_NAME_LENGTH) = true ->
        PyStr.nonempty (SecurityValidator.sanitize_string
                          (PyStr.lower skills) Config.MAX_SKILLS_LENGTH)
        = true ->
        (PyStr.nonempty (SecurityValidator.sanitize_string
                           phone Config.MAX_PHONE_LENGTH) = true ->
         SecurityValidator.validate_phone
           (SecurityValidator.sanitize_string phone Config.MAX_PHONE_LENGTH)
         = false ->
         WorkerManager.add_worker now db name skills phone email lat lon
         = ([Console.print_error Console.InvalidPhoneFormat], false, db)) /\
        (PyStr.nonempty (SecurityValidator.sanitize_string
                           phone Config.MAX_PHONE_LENGTH)
         && negb (SecurityValidator.validate_phone
                    (SecurityValidator.sanitize_string
                       phone Config.MAX_PHONE_LENGTH)) = false ->
         PyStr.nonempty (SecurityValidator.sanitize_string
                           email Config.MAX_EMAIL_LENGTH) = true ->
         SecurityValidator.validate_email
           (SecurityValidator.sanitize_string email Config.MAX_EMAIL_LENGTH)
         = false ->
         WorkerManager.add_worker now db name skills phone email lat lon
         = ([Console.print_error Console.InvalidEmailFormat], false, db))).
Proof.
  intros now db. split; [| split; [| split; [| split]]].
  - intros service item phone Hp Hn Hv.
    unfold LeadCollector.collect_item.
    cbn [Store.it_display_name Store.it_lat Store.it_lon Store.it_phone
         Store.it_email].
    rewrite Hp. cbn [LeadCollector.default].
    rewrite (cleared_when_invalid SecurityValidator.validate_phone _ Hn Hv).
    rewrite sanitize_empty. reflexivity.
  - intros service item email He Hn Hv.
    unfold LeadCollector.collect_item.
    cbn [Store.it_display_name Store.it_lat Store.it_lon Store.it_phone
         Store.it_email].
    rewrite He. cbn [LeadCollector.default].
    rewrite (cleared_when_invalid SecurityValidator.validate_email _ Hn Hv).
    rewrite sanitize_empty. reflexivity.
  - intros row_num row Hn Hv r r'. subst r r'.
    unfold WorkerManager.import_row, WorkerManager.row_name.
    cbn [WorkerManager.csv_name WorkerManager.csv_full_name
         WorkerManager.csv_skills WorkerManager.csv_phone
         WorkerManager.csv_email WorkerManager.csv_lat
         WorkerManager.csv_lon].
    rewrite (cleared_when_invalid SecurityValidator.validate_phone _ Hn Hv).
    rewrite sanitize_empty, Hn, Hv.
    cbn [PyStr.nonempty andb negb WorkerManager.clearing_warning app].
    destruct (negb (PyStr.nonempty _) || negb (PyStr.nonempty _)) eqn:Ereq.
    + cbn [fst snd]. split; [reflexivity |]. split; [reflexivity |].
      intros H1 H2. rewrite H1, H2 in Ereq. discriminate Ereq.
    + destruct (match WorkerManager.csv_lat row, WorkerManager.csv_lon row
                with
                | Some x, Some y => _
                | _, _ => _
                end) as [lat lon].
      destruct (WorkerManager.insert_worker now db _ _ "" _ lat lon)
        as [[id db'] |]; cbn [fst snd];
        (split; [reflexivity |]; split; [reflexivity |];
         intros _ _; reflexivity).
  - intros row_num row Hn Hv r r'. subst r r'.
    unfold WorkerManager.import_row, WorkerManager.row_name.
    cbn [WorkerManager.csv_name WorkerManager.csv_full_name
         WorkerManager.csv_skills WorkerManager.csv_phone
         WorkerManager.csv_email WorkerManager.csv_lat
         WorkerManager.csv_lon].
    rewrite (cleared_when_invalid SecurityValidator.validate_email _ Hn Hv).
    rewrite sanitize_empty, Hn, Hv.
    cbn [PyStr.nonempty andb negb WorkerManager.clearing_warning].
    destruct (negb (PyStr.nonempty _) || negb (PyStr.nonempty _)) eqn:Ereq.
    + cbn [fst snd]. split; [reflexivity |]. split; [reflexivity |].
      intros H1 H2. rewrite H1, H2 in Ereq. discriminate Ereq.
    + destruct (match WorkerManager.csv_lat row, WorkerManager.csv_lon row
                with
                | Some x, Some y => _
                | _, _ => _
                end) as [lat lon].
      set (phone_invalid :=
             PyStr.nonempty
               (SecurityValidator.sanitize_string
                  (WorkerManager.csv_phone row) Config.MAX_PHONE_LENGTH)
             && negb (SecurityValidator.validate_phone
                        (SecurityValidator.sanitize_string
                           (WorkerManager.csv_phone row)
                           Config.MAX_PHONE_LENGTH))).
      destruct phone_invalid;
        destruct (WorkerManager.insert_worker now db _ _ _ "" lat lon)
        as [[id db'] |]; cbn [fst snd app];
        (split; [reflexivity |]; split; [reflexivity |]; intros _ _;
         first
           [ exists []; eexists; split; [left; reflexivity |];
             split; reflexivity
           | exists [Console.print_warning
                       (Console.RowInvalidPhoneClearing row_num)];
             eexists; split; [right; reflexivity |]; split; reflexivity ]).
  - intros name skills phone email lat lon Hname Hskills. split.
    + intros Hn Hv. unfold WorkerManager.add_worker.
      rewrite Hname, Hskills. cbn [negb orb].
      rewrite Hn, Hv. reflexivity.
    + intros Hp Hn Hv. unfold WorkerManager.add_worker.
      rewrite Hname, Hskills. cbn [negb orb].
      rewrite Hp, Hn, Hv. reflexivity.
Qed.

Lemma invalid_contact_cleared_in_batches_rejected_by_add_worker_witness :
  WorkerManager.import_row 2%Z 0%Z Fixtures.db_empty Fixtures.csv_bad_phone
  = ([Console.print_warning (Console.RowInvalidPhoneClearing 2)],
     WorkerManager.RowImported,
     Store.mkDB [] [Store.mkWorker 1 "Ravi" "plumbing" "" "" (Some 0%R)
                                   (Some 0%R) "active" 0 0 0%Z]
                [] [] 0 1 0) /\
  WorkerManager.add_worker 0%Z Fixtures.db_empty
    "Ravi" "Plumbing" "12ab" "" 0 0
  = ([Console.print_error Console.InvalidPhoneFormat], false,
     Fixtures.db_empty).
Proof.
  pose proof (invalid_contact_cleared_in_batches_rejected_by_add_worker
                0%Z Fixtures.db_empty) as (_ & _ & Hrow & _ & Hadd).
  split.
  - destruct (Hrow 2%Z Fixtures.csv_bad_phone eq_refl eq_refl)
      as (Ho & Hdb & Hout).
    specialize (Hout eq_refl eq_refl).
    destruct (WorkerManager.import_row 2%Z 0%Z Fixtures.db_empty
                Fixtures.csv_bad_phone) as [[out o] d].
    cbn [fst snd] in Ho, Hdb, Hout. rewrite Ho, Hdb, Hout. reflexivity.
  - apply (proj1 (Hadd "Ravi" "Plumbing" "12ab" "" 0%R 0%R
                       eq_refl eq_refl));
      reflexivity.
Defined.

(** ** The skill filter: [LIKE] against substring search *)

Section LikeFacts.
Import PyStr Sqlite.
Local Open Scope list_scope.

Lemma like_text_percent (p s : text) :
  like_text ("%"%char :: p) s
  = like_text p s
    || match s with
       | [] => false
       | _ :: s' => like_text ("%"%char :: p) s'
       end.
Proof.
  destruct s; reflexivity.
Qed.

Lemma like_text_plain (c : ascii) (p s : text) :
  is_percent c = false -> is_underscore c = false ->
  like_text (c :: p) s
  = match s with
    | [] => false
    | d :: s' => Ascii.eqb (like_fold c) (like_fold d) && like_text p s'
    end.
Proof.
  intros Hp Hu. cbn [like_text]. rewrite Hp, Hu. reflexivity.
Qed.

Lemma like_text_any (s : text) : like_text ["%"%char] s = true.
Proof.
  induction s as [| d s' IH]; [reflexivity |].
  rewrite like_text_percent. rewrite IH. apply orb_true_r.
Qed.

Lemma like_text_prefix (needle : text) :
  plain needle ->
  forall hay, like_text (needle ++ ["%"%char]) hay = prefix_ci needle hay.
Proof.
  induction needle as [| c rest IH]; intros Hplain hay.
  - apply like_text_any.
  - destruct (Hplain c (or_introl eq_refl)) as [Hp Hu].
    cbn [app]. rewrite (like_text_plain c _ hay Hp Hu).
    destruct hay as [| d hay']; [reflexivity |].
    cbn [prefix_ci]. rewrite IH; [reflexivity |].
    intros x Hx. apply Hplain. right. exact Hx.
Qed.

Lemma like_text_substring (needle : text) :
  plain needle ->
  forall hay,
    like_text ("%"%char :: needle ++ ["%"%char]) hay
    = substring_ci needle hay.
Proof.
  intros Hplain hay. induction hay as [| d hay' IH].
  - rewrite like_text_percent, like_text_prefix by exact Hplain.
    reflexivity.
  - rewrite like_text_percent, like_text_prefix by exact Hplain.
    rewrite IH. reflexivity.
Qed.

Lemma lower_char_wildcard (c : ascii) :
  is_percent (lower_char c) = is_percent c /\
  is_underscore (lower_char c) = is_underscore c.
Proof.
  destruct c as [[] [] [] [] [] [] [] []]; split; reflexivity.
Qed.

Lemma list_ascii_of_string_app (a b : string) :
  list_ascii_of_string (a ++ b)%string
  = list_ascii_of_string a ++ list_ascii_of_string b.
Proof.
  induction a as [| c a' IH]; [reflexivity |].
  cbn [String.append list_ascii_of_string app]. rewrite IH. reflexivity.
Qed.

Lemma lower_plain (service : string) :
  wildcard_free service -> plain (list_ascii_of_string (lower service)).
Proof.
  intros H c Hc. unfold lower in Hc.
  rewrite list_ascii_of_string_of_list_ascii in Hc.
  unfold lower_text in Hc. apply in_map_iff in Hc.
  destruct Hc as (c0 & <- & Hc0).
  destruct (lower_char_wildcard c0) as [-> ->]. apply H. exact Hc0.
Qed.

Lemma like_contains (hay needle : string) :
  plain (list_ascii_of_string needle) ->
  like hay ("%" ++ needle ++ "%")%string = contains_ci hay needle.
Proof.
  intros H. unfold like, contains_ci.
  change ("%" ++ needle ++ "%")%string
    with (String "%" (needle ++ "%")%string).
  cbn [list_ascii_of_string]. rewrite list_ascii_of_string_app.
  cbn [list_ascii_of_string]. apply like_text_substring. exact H.
Qed.

End LikeFacts.

(** C9 (as stated, refuted).  For the service "p_umbing" the active
    worker Asha, whose skills are "plumbing", is eligible, although her
    skills do not contain "p_umbing": [_] is a wildcard of [LIKE]. *)
Lemma wildcard_service_matches_without_substring :
  JobMatcher.eligible (PyStr.lower "p_umbing") Fixtures.asha = true /\
  In Fixtures.asha
     (JobMatcher.select_workers Fixtures.db_two_plumbers
        (PyStr.lower "p_umbing")) /\
  contains_ci (Store.w_skills Fixtures.asha) "p_umbing" = false /\
  eligible_by_substring "p_umbing" Fixtures.asha = false.
Proof.
  split; [reflexivity |]. split.
  - unfold JobMatcher.select_workers.
    change (filter (JobMatcher.eligible (PyStr.lower "p_umbing"))
                   (Store.workers Fixtures.db_two_plumbers))
      with [Fixtures.asha; Fixtures.bala].
    unfold JobMatcher.order_by_rating_jobs.
    cbn [fold_right JobMatcher.insert_ordered].
    unfold JobMatcher.sorts_before.
    cbn [Store.w_rating Store.w_jobs_completed Fixtures.asha Fixtures.bala].
    decide_R. left. reflexivity.
  - split; reflexivity.
Qed.

(** C9 (amended).  For a service string without the characters [%] and
    [_], a worker passes the filter of [find_best_worker] exactly when
    its status is 'active' and its skills contain the lower-cased service
    as a substring, the case of the letters A-Z being ignored.  So a
    worker with skills "Plumbing, Electrical" is eligible for "plumbing"
    and for "ELECTRICAL", and one with "plumbing,electrical" for
    "plumbing". *)
Theorem eligible_iff_active_and_substring :
  (forall (service : string) (w : Store.Worker),
      wildcard_free service ->
      JobMatcher.eligible (PyStr.lower service) w
      = eligible_by_substring (PyStr.lower service) w) /\
  JobMatcher.eligible (PyStr.lower "plumbing") Fixtures.chitra = true /\
  JobMatcher.eligible (PyStr.lower "ELECTRICAL") Fixtures.chitra = true /\
  JobMatcher.eligible (PyStr.lower "plumbing") Fixtures.deepak = true.
Proof.
  split; [| repeat split; reflexivity].
  intros service w H. unfold JobMatcher.eligible, eligible_by_substring.
  rewrite like_contains; [reflexivity |].
  apply lower_plain. exact H.
Qed.

Lemma eligible_iff_active_and_substring_witness :
  JobMatcher.eligible (PyStr.lower "Electrical") Fixtures.chitra
  = eligible_by_substring (PyStr.lower "Electrical") Fixtures.chitra.
Proof.
  apply (proj1 eligible_iff_active_and_substring).
  intros c Hc. cbn in Hc.
  repeat (destruct Hc as [<- | Hc]; [split; reflexivity |]).
  destruct Hc.
Defined.

(** * Further properties of the code *)

(** ** The regular-expression matcher *)

Section RegexFacts.
Import PyStr PyRe ReSemantics.
Local Open Scope list_scope.

Lemma matches_nil_nullable (r : regex) :
  matches r [] -> nullable r = true.
Proof.
  intros H. remember [] as s eqn:Es.
  induction H as [| p c Hp | r1 r2 s1 s2 H1 IH1 H2 IH2 | r1 r2 s H IH
                  | r1 r2 s H IH | r | r s1 s2 H1 IH1 H2 IH2];
    cbn [nullable]; try reflexivity.
  - discriminate Es.
  - apply app_eq_nil in Es. destruct Es as [-> ->].
    rewrite IH1, IH2 by reflexivity. reflexivity.
  - rewrite IH by exact Es. reflexivity.
  - rewrite IH by exact Es. apply orb_true_r.
Qed.

Lemma nullable_matches_nil (r : regex) :
  nullable r = true -> matches r [].
Proof.
  induction r as [| | p | r1 IH1 r2 IH2 | r1 IH1 r2 IH2 | r IH];
    cbn [nullable]; intros H; try discriminate H.
  - constructor.
  - apply andb_true_iff in H. destruct H as [H1 H2].
    change (@nil ascii) with (@nil ascii ++ []).
    constructor; [apply IH1 | apply IH2]; assumption.
  - apply orb_true_iff in H. destruct H as [H | H].
    + apply m_or_l. apply IH1. exact H.
    + apply m_or_r. apply IH2. exact H.
  - constructor.
Qed.

Lemma matches_void (s : text) : ~ matches Void s.
Proof.
  intros H. inversion H.
Qed.

Lemma matches_mkCat (r1 r2 : regex) (s : text) :
  matches (mkCat r1 r2) s <-> matches (Cat r1 r2) s.
Proof.
  split.
  - intros H.
    destruct r1, r2; cbn [mkCat] in H;
      first [ exfalso; exact (matches_void _ H)
            | exact H
            | change s with ([] ++ s); constructor; [constructor | exact H] ].
  - intros H. inversion H as [| | a b s1 s2 H1 H2 | | | |]; subst.
    destruct r1, r2; cbn [mkCat];
      first [ exfalso; exact (matches_void _ H1)
            | exfalso; exact (matches_void _ H2)
            | constructor; assumption
            | inversion H1; subst; exact H2 ].
Qed.

Lemma matches_mkOr (r1 r2 : regex) (s : text) :
  matches (mkOr r1 r2) s <-> matches (Or r1 r2) s.
Proof.
  split.
  - intros H.
    destruct r1, r2; cbn [mkOr] in H;
      first [ exact H | apply m_or_r; exact H | apply m_or_l; exact H ].
  - intros H.
    inversion H as [| | | a b s0 H1 | a b s0 H2 | |]; subst;
      destruct r1, r2; cbn [mkOr];
      first [ assumption
            | apply m_or_l; assumption
            | apply m_or_r; assumption
            | exfalso; eapply matches_void; eassumption ].
Qed.

Lemma matches_star_cons (r : regex) (c : ascii) (s : text) :
  matches (Star r) (c :: s) ->
  exists s1 s2,
    s = s1 ++ s2 /\ matches r (c :: s1) /\ matches (Star r) s2.
Proof.
  intros H. remember (Star r) as q eqn:Eq. remember (c :: s) as t eqn:Et.
  revert s Et.
  induction H as [| p0 c0 Hp | q1 q2 t1 t2 H1 IH1 H2 IH2 | q1 q2 t0 H0 IH0
                  | q1 q2 t0 H0 IH0 | q0 | q0 t1 t2 H1 IH1 H2 IH2];
    intros u Et; try discriminate Eq; try discriminate Et.
  inversion Eq; subst q0.
  destruct t1 as [| d t1'].
  - cbn [app] in Et. apply IH2; [reflexivity | exact Et].
  - cbn [app] in Et. inversion Et; subst d u.
    exists t1', t2. auto.
Qed.

Lemma matches_deriv (r : regex) (c : ascii) :
  forall s, matches (deriv c r) s <-> matches r (c :: s).
Proof.
  induction r as [| | p | r1 IH1 r2 IH2 | r1 IH1 r2 IH2 | r IH];
    intros s; cbn [deriv].
  - split; intros H; inversion H.
  - split; intros H; inversion H.
  - destruct (p c) eqn:Ep; split; intros H.
    + inversion H; subst. constructor. exact Ep.
    + inversion H; subst. constructor.
    + inversion H.
    + inversion H; subst. congruence.
  - assert (Hcat : matches (mkCat (deriv c r1) r2) s ->
                   matches (Cat r1 r2) (c :: s)).
    { intros H. apply matches_mkCat in H.
      inversion H as [| | a b s1 s2 H1 H2 | | | |]; subst.
      apply IH1 in H1. change (c :: s1 ++ s2) with ((c :: s1) ++ s2).
      constructor; assumption. }
    destruct (nullable r1) eqn:En; split; intros H.
    + apply matches_mkOr in H.
      inversion H as [| | | a b s0 H1 | a b s0 H2 | |]; subst.
      * apply Hcat. exact H1.
      * apply IH2 in H2. change (c :: s) with ([] ++ c :: s).
        constructor; [apply nullable_matches_nil; exact En | exact H2].
    + apply matches_mkOr.
      inversion H as [| | a b s1 s2 H1 H2 | | | |]; subst.
      match goal with E : _ ++ _ = _ :: _ |- _ => rename E into Es end.
      destruct s1 as [| d s1'].
      * cbn [app] in Es. subst s2. apply m_or_r. apply IH2. exact H2.
      * cbn [app] in Es. inversion Es; subst d s.
        apply m_or_l. apply matches_mkCat. constructor; [| exact H2].
        apply IH1. exact H1.
    + apply Hcat. exact H.
    + apply matches_mkCat.
      inversion H as [| | a b s1 s2 H1 H2 | | | |]; subst.
      match goal with E : _ ++ _ = _ :: _ |- _ => rename E into Es end.
      destruct s1 as [| d s1'].
      * apply matches_nil_nullable in H1. congruence.
      * cbn [app] in Es. inversion Es; subst d s.
        constructor; [| exact H2]. apply IH1. exact H1.
  - split; intros H.
    + apply matches_mkOr in H.
      inversion H as [| | | a b s0 H1 | a b s0 H2 | |]; subst.
      * apply m_or_l. apply IH1. exact H1.
      * apply m_or_r. apply IH2. exact H2.
    + apply matches_mkOr.
      inversion H as [| | | a b s0 H1 | a b s0 H2 | |]; subst.
      * apply m_or_l. apply IH1. exact H1.
      * apply m_or_r. apply IH2. exact H2.
  - split; intros H.
    + apply matches_mkCat in H.
      inversion H as [| | a b s1 s2 H1 H2 | | | |]; subst.
      apply IH in H1. change (c :: s1 ++ s2) with ((c :: s1) ++ s2).
      constructor; assumption.
    + apply matches_mkCat. apply matches_star_cons in H.
      destruct H as (s1 & s2 & -> & H1 & H2).
      constructor; [| exact H2]. apply IH. exact H1.
Qed.

End RegexFacts.

(** The matcher decides the language of the pattern: [fullmatch r s] is
    true exactly when [s] is a string of the language of [r]. *)
Lemma fullmatch_decides_language :
  forall (r : PyRe.regex) (s : PyStr.text),
    PyRe.fullmatch r s = true <-> ReSemantics.matches r s.
Proof.
  intros r s. revert r. induction s as [| c s IH]; intros r;
    cbn [PyRe.fullmatch].
  - split; [apply nullable_matches_nil | apply matches_nil_nullable].
  - rewrite IH. apply matches_deriv.
Qed.

Section RepetitionFacts.
Import PyStr PyRe ReSemantics.
Local Open Scope list_scope.

Variable p : ascii -> bool.

Lemma matches_cat_iff (r1 r2 : regex) (s : text) :
  matches (Cat r1 r2) s <->
  exists s1 s2, s = s1 ++ s2 /\ matches r1 s1 /\ matches r2 s2.
Proof.
  split.
  - intros H. inversion H; subst. eauto.
  - intros (s1 & s2 & -> & H1 & H2). constructor; assumption.
Qed.

Lemma matches_class_iff (s : text) :
  matches (Class p) s <-> exists c, s = [c] /\ p c = true.
Proof.
  split.
  - intros H. inversion H; subst. eauto.
  - intros (c & -> & H). constructor. exact H.
Qed.

Lemma matches_class_star (s : text) :
  matches (Star (Class p)) s <-> forallb p s = true.
Proof.
  induction s as [| c s IH].
  - split; intros _; [reflexivity | constructor].
  - split; intros H.
    + apply matches_star_cons in H. destruct H as (s1 & s2 & -> & H1 & H2).
      inversion H1; subst. cbn [app forallb].
      apply andb_true_iff. split; [assumption |]. apply IH. exact H2.
    + cbn [forallb] in H. apply andb_true_iff in H. destruct H as [Hc Hs].
      change (c :: s) with ([c] ++ s).
      constructor; [constructor; exact Hc | apply IH; exact Hs].
Qed.

Lemma matches_times (n : nat) (s : text) :
  matches (times n (Class p)) s <-> List.length s = n /\ forallb p s = true.
Proof.
  revert s. induction n as [| n IH]; intros s; cbn [times].
  - split.
    + intros H. inversion H; subst. split; reflexivity.
    + intros [H _]. apply length_zero_iff_nil in H. subst. constructor.
  - rewrite matches_cat_iff. split.
    + intros (s1 & s2 & -> & H1 & H2). inversion H1; subst.
      apply IH in H2. destruct H2 as [Hl Hf]. cbn [app List.length forallb].
      split; [lia |]. apply andb_true_iff. split; assumption.
    + intros [Hl Hf]. destruct s as [| c s]; [discriminate Hl |].
      cbn [List.length forallb] in Hl, Hf. apply andb_true_iff in Hf.
      destruct Hf as [Hc Hs]. exists [c], s.
      split; [reflexivity |]. split; [constructor; exact Hc |].
      apply IH. split; [lia | exact Hs].
Qed.

Lemma matches_upto (n : nat) (s : text) :
  matches (upto n (Class p)) s <-> List.length s <= n /\ forallb p s = true.
Proof.
  revert s. induction n as [| n IH]; intros s; cbn [upto].
  - split.
    + intros H. inversion H; subst. split; [apply le_n | reflexivity].
    + intros [H _]. destruct s; [constructor | cbn [List.length] in H; lia].
  - unfold opt. split.
    + intros H.
      inversion H as [| | | a b s0 H1 | a b s0 H2 | |]; subst.
      * inversion H1; subst. split; [cbn [List.length]; lia | reflexivity].
      * apply matches_cat_iff in H2.
        destruct H2 as (s1 & s2 & -> & H1 & H2). inversion H1; subst.
        apply IH in H2. destruct H2 as [Hl Hf]. cbn [app List.length forallb].
        split; [lia |]. apply andb_true_iff. split; assumption.
    + intros [Hl Hf]. destruct s as [| c s].
      * apply m_or_l. constructor.
      * cbn [List.length forallb] in Hl, Hf. apply andb_true_iff in Hf.
        destruct Hf as [Hc Hs]. apply m_or_r.
        change (c :: s) with ([c] ++ s).
        constructor; [constructor; exact Hc |].
        apply IH. split; [lia | exact Hs].
Qed.

Lemma forallb_split (s1 s2 : text) :
  forallb p (s1 ++ s2) = true <->
  forallb p s1 = true /\ forallb p s2 = true.
Proof.
  rewrite forallb_app. apply andb_true_iff.
Qed.

Lemma matches_between (lo hi : nat) (s : text) :
  lo <= hi ->
  (matches (between lo hi (Class p)) s <->
   lo <= List.length s <= hi /\ forallb p s = true).
Proof.
  intros Hle. unfold between. rewrite matches_cat_iff. split.
  - intros (s1 & s2 & -> & H1 & H2).
    apply matches_times in H1. apply matches_upto in H2.
    destruct H1 as [L1 F1], H2 as [L2 F2].
    rewrite length_app. split; [lia |]. apply forallb_split. auto.
  - intros [[Hlo Hhi] Hf].
    exists (firstn lo s), (skipn lo s).
    rewrite <- (firstn_skipn lo s) in Hf. apply forallb_split in Hf.
    destruct Hf as [F1 F2].
    split; [symmetry; apply firstn_skipn |]. split.
    + apply matches_times. split; [| exact F1].
      apply firstn_length_le. exact Hlo.
    + apply matches_upto. split; [| exact F2].
      rewrite length_skipn. lia.
Qed.

Lemma matches_plus (s : text) :
  matches (plus (Class p)) s <-> s <> [] /\ forallb p s = true.
Proof.
  unfold plus. rewrite matches_cat_iff. split.
  - intros (s1 & s2 & -> & H1 & H2). inversion H1; subst.
    apply matches_class_star in H2. cbn [app forallb].
    split; [discriminate |]. apply andb_true_iff. split; assumption.
  - intros [Hne Hf]. destruct s as [| c s]; [contradiction |].
    cbn [forallb] in Hf. apply andb_true_iff in Hf. destruct Hf as [Hc Hs].
    exists [c], s. split; [reflexivity |].
    split; [constructor; exact Hc | apply matches_class_star; exact Hs].
Qed.

Lemma matches_at_least (n : nat) (s : text) :
  matches (at_least n (Class p)) s <->
  n <= List.length s /\ forallb p s = true.
Proof.
  unfold at_least. rewrite matches_cat_iff. split.
  - intros (s1 & s2 & -> & H1 & H2).
    apply matches_times in H1. apply matches_class_star in H2.
    destruct H1 as [L1 F1]. rewrite length_app.
    split; [lia |]. apply forallb_split. auto.
  - intros [Hl Hf].
    exists (firstn n s), (skipn n s).
    rewrite <- (firstn_skipn n s) in Hf. apply forallb_split in Hf.
    destruct Hf as [F1 F2].
    split; [symmetry; apply firstn_skipn |]. split.
    + apply matches_times. split; [| exact F1].
      apply firstn_length_le. exact Hl.
    + apply matches_class_star. exact F2.
Qed.

End RepetitionFacts.

(** ** [validate_phone] and [validate_email] *)

Section ValidatorShape.
Import PyStr PyRe ReSemantics Config SecurityValidator.
Local Open Scope list_scope.

Lemma lstrip_head (s : text) (c : ascii) (t : text) :
  lstrip s = c :: t -> isspace c = false.
Proof.
  induction s as [| d s IH]; cbn [lstrip]; [discriminate |].
  destruct (isspace d) eqn:E; [exact IH |].
  intros H. inversion H; subst. exact E.
Qed.

(** A stripped string does not end in white space. *)
Lemma strip_text_last (s : text) (c : ascii) (t : text) :
  rev (strip_text s) = c :: t -> isspace c = false.
Proof.
  unfold strip_text, rstrip. rewrite rev_involutive. apply lstrip_head.
Qed.

Lemma strip_chars (s : string) :
  list_ascii_of_string (strip s) = strip_text (list_ascii_of_string s).
Proof.
  unfold strip. apply list_ascii_of_string_of_list_ascii.
Qed.

Lemma lower_chars (s : string) :
  list_ascii_of_string (lower s) = lower_text (list_ascii_of_string s).
Proof.
  unfold lower. apply list_ascii_of_string_of_list_ascii.
Qed.

Lemma lower_char_newline (c : ascii) :
  lower_char c = "010"%char -> c = "010"%char.
Proof.
  destruct c as [[] [] [] [] [] [] [] []]; cbv; intros H;
    first [reflexivity | discriminate H].
Qed.

(** When the string does not end in a newline, [$] is the end. *)
Lemma match_anchored_no_newline (r : regex) (s : string) :
  (forall c t, rev (list_ascii_of_string s) = c :: t -> c <> "010"%char) ->
  match_anchored r s = fullmatch r (list_ascii_of_string s).
Proof.
  intros H. unfold match_anchored.
  destruct (rev (list_ascii_of_string s)) as [| c t] eqn:E.
  - apply orb_false_r.
  - destruct (Ascii.eqb_spec c "010"%char) as [-> | _].
    + exfalso. exact (H _ _ eq_refl eq_refl).
    + cbn [andb]. apply orb_false_r.
Qed.

Lemma match_anchored_strip (r : regex) (s : string) :
  match_anchored r (strip s)
  = fullmatch r (strip_text (list_ascii_of_string s)).
Proof.
  rewrite match_anchored_no_newline; [rewrite strip_chars; reflexivity |].
  intros c t E. rewrite strip_chars in E. apply strip_text_last in E.
  intros ->. discriminate E.
Qed.

Lemma match_anchored_lower_strip (r : regex) (s : string) :
  match_anchored r (lower (strip s))
  = fullmatch r (lower_text (strip_text (list_ascii_of_string s))).
Proof.
  rewrite match_anchored_no_newline;
    [rewrite lower_chars, strip_chars; reflexivity |].
  intros c t E. rewrite lower_chars, strip_chars in E.
  unfold lower_text in E. rewrite <- map_rev in E.
  destruct (rev (strip_text (list_ascii_of_string s))) as [| d u] eqn:Er;
    [discriminate E |].
  cbn [map] in E. inversion E; subst c t.
  apply strip_text_last in Er. intros Hc.
  apply lower_char_newline in Hc. subst d. discriminate Er.
Qed.

Lemma matches_chr (a : ascii) (s : text) :
  matches (chr a) s <-> s = [a].
Proof.
  unfold chr. rewrite matches_class_iff. split.
  - intros (c & -> & H). apply Ascii.eqb_eq in H. subst. reflexivity.
  - intros ->. exists a. split; [reflexivity | apply Ascii.eqb_refl].
Qed.

Lemma nonempty_iff (s : string) : nonempty s = true <-> s <> EmptyString.
Proof.
  destruct s; cbn [nonempty]; split; intros H; congruence.
Qed.

(** The strings of [PHONE_PATTERN]. *)
Lemma phone_pattern_language (t : text) :
  matches PHONE_PATTERN t <->
  exists body,
    (t = body \/ t = "+"%char :: body) /\
    6 <= List.length body <= 20 /\ forallb phone_char body = true.
Proof.
  unfold PHONE_PATTERN.
  change (Class (fun c => digit c || space c || one_of "-()" c))
    with (Class phone_char).
  rewrite matches_cat_iff. split.
  - intros (s1 & s2 & -> & H1 & H2).
    apply matches_between in H2; [| lia].
    exists s2. split; [| exact H2].
    unfold opt in H1.
    inversion H1 as [| | | a b s0 H | a b s0 H | |]; subst.
    + inversion H; subst. left. reflexivity.
    + apply matches_chr in H. subst. right. reflexivity.
  - intros (body & [-> | ->] & H).
    + exists [], body. split; [reflexivity |].
      split; [apply m_or_l; constructor |].
      apply matches_between; [lia | exact H].
    + exists ["+"%char], body. split; [reflexivity |].
      split; [apply m_or_r; apply matches_chr; reflexivity |].
      apply matches_between; [lia | exact H].
Qed.

(** The strings of [EMAIL_PATTERN]. *)
Lemma email_pattern_language (t : text) :
  matches EMAIL_PATTERN t <->
  exists local_part domain tld,
    t = local_part ++ "@"%char :: domain ++ "."%char :: tld /\
    local_part <> [] /\ forallb email_local_char local_part = true /\
    domain <> [] /\ forallb email_domain_char domain = true /\
    2 <= List.length tld /\ forallb alpha tld = true.
Proof.
  unfold EMAIL_PATTERN.
  change (Class (fun c => alpha c || digit c || one_of "._%+-" c))
    with (Class email_local_char).
  change (Class (fun c => alpha c || digit c || one_of ".-" c))
    with (Class email_domain_char).
  split.
  - intros H.
    apply matches_cat_iff in H. destruct H as (l & r1 & -> & Hl & H).
    apply matches_cat_iff in H. destruct H as (a & r2 & -> & Ha & H).
    apply matches_cat_iff in H. destruct H as (d & r3 & -> & Hd & H).
    apply matches_cat_iff in H. destruct H as (o & tld & -> & Ho & Ht).
    apply matches_plus in Hl. apply matches_plus in Hd.
    apply matches_chr in Ha. apply matches_chr in Ho. subst a o.
    apply matches_at_least in Ht.
    exists l, d, tld. cbn [app]. intuition.
  - intros (l & d & tld & -> & Hl1 & Hl2 & Hd1 & Hd2 & Ht1 & Ht2).
    constructor; [apply matches_plus; auto |].
    change ("@"%char :: d ++ "."%char :: tld)
      with (["@"%char] ++ d ++ ["."%char] ++ tld).
    constructor; [apply matches_chr; reflexivity |].
    constructor; [apply matches_plus; auto |].
    constructor; [apply matches_chr; reflexivity |].
    apply matches_at_least. auto.
Qed.

End ValidatorShape.

(** X1.  [validate_phone] accepts exactly the non-empty strings that,
    once stripped of surrounding white space, are an optional [+]
    followed by 6 to 20 characters, each a digit, a white-space
    character, [-], [(] or [)]. *)
Theorem validate_phone_accepts_exactly :
  forall phone : string,
    SecurityValidator.validate_phone phone = true <->
    phone <> EmptyString /\
    exists body : PyStr.text,
      (list_ascii_of_string (PyStr.strip phone) = body \/
       list_ascii_of_string (PyStr.strip phone) = ("+"%char :: body)%list) /\
      (6 <= List.length body <= 20)%nat /\
      forallb ReSemantics.phone_char body = true.
Proof.
  intros phone. unfold SecurityValidator.validate_phone.
  rewrite match_anchored_strip, <- strip_chars.
  destruct (PyStr.nonempty phone) eqn:En; cbn [negb].
  - rewrite fullmatch_decides_language, phone_pattern_language.
    apply nonempty_iff in En. tauto.
  - split; [discriminate |]. intros [H _]. apply nonempty_iff in H.
    congruence.
Qed.

(** X2.  [validate_email] accepts exactly the non-empty strings that,
    once stripped and lower-cased, read local@domain.tld: a non-empty
    local part of letters, digits and [._%+-], a non-empty domain of
    letters, digits, [.] and [-], and after the last dot at least two
    letters. *)
Theorem validate_email_accepts_exactly :
  forall email : string,
    SecurityValidator.validate_email email = true <->
    email <> EmptyString /\
    exists local_part domain tld : PyStr.text,
      list_ascii_of_string (PyStr.lower (PyStr.strip email))
      = (local_part ++ "@"%char :: domain ++ "."%char :: tld)%list /\
      local_part <> [] /\
      forallb ReSemantics.email_local_char local_part = true /\
      domain <> [] /\
      forallb ReSemantics.email_domain_char domain = true /\
      (2 <= List.length tld)%nat /\ forallb PyRe.alpha tld = true.
Proof.
  intros email. unfold SecurityValidator.validate_email.
  rewrite match_anchored_lower_strip, <- strip_chars, <- lower_chars.
  destruct (PyStr.nonempty email) eqn:En; cbn [negb].
  - rewrite fullmatch_decides_language, email_pattern_language.
    apply nonempty_iff in En. tauto.
  - split; [discriminate |]. intros [H _]. apply nonempty_iff in H.
    congruence.
Qed.

(** ** [sanitize_string] *)

Section SanitizeFacts.
Import PyStr SecurityValidator.
Local Open Scope list_scope.

Lemma lstrip_suffix (s : text) : exists pre, s = pre ++ lstrip s.
Proof.
  induction s as [| c s [pre IH]]; cbn [lstrip].
  - exists []. reflexivity.
  - destruct (isspace c).
    + exists (c :: pre). cbn [app]. rewrite <- IH. reflexivity.
    + exists []. reflexivity.
Qed.

Lemma rstrip_prefix (s : text) : exists post, s = rstrip s ++ post.
Proof.
  unfold rstrip. destruct (lstrip_suffix (rev s)) as [pre H].
  exists (rev pre). rewrite <- rev_app_distr, <- H, rev_involutive.
  reflexivity.
Qed.

Lemma lstrip_fixed (s : text) :
  (forall c t, s = c :: t -> isspace c = false) -> lstrip s = s.
Proof.
  destruct s as [| c s]; [reflexivity |]. intros H. cbn [lstrip].
  rewrite (H c s eq_refl). reflexivity.
Qed.

Lemma strip_text_head (s : text) (c : ascii) (t : text) :
  strip_text s = c :: t -> isspace c = false.
Proof.
  unfold strip_text. intros H.
  destruct (rstrip_prefix (lstrip s)) as [post E].
  rewrite H in E. cbn [app] in E. apply lstrip_head in E. exact E.
Qed.

Lemma strip_text_fixed (s : text) :
  (forall c t, s = c :: t -> isspace c = false) ->
  (forall c t, rev s = c :: t -> isspace c = false) ->
  strip_text s = s.
Proof.
  intros Hh Hl. unfold strip_text, rstrip.
  rewrite (lstrip_fixed s Hh), (lstrip_fixed (rev s) Hl).
  apply rev_involutive.
Qed.

Lemma strip_text_parts (s : text) :
  exists pre post, s = pre ++ strip_text s ++ post.
Proof.
  unfold strip_text.
  destruct (lstrip_suffix s) as [pre E1].
  destruct (rstrip_prefix (lstrip s)) as [post E2].
  exists pre, post. rewrite <- E2. exact E1.
Qed.

Lemma strip_text_length (s : text) :
  List.length (strip_text s) <= List.length s.
Proof.
  destruct (strip_text_parts s) as (pre & post & E).
  rewrite E at 2. rewrite !length_app. lia.
Qed.

Lemma strip_text_forallb (p : ascii -> bool) (s : text) :
  forallb p s = true -> forallb p (strip_text s) = true.
Proof.
  destruct (strip_text_parts s) as (pre & post & E).
  intros H. rewrite E in H. rewrite !forallb_app in H.
  apply andb_true_iff in H. destruct H as [_ H].
  apply andb_true_iff in H. destruct H as [H _]. exact H.
Qed.

Lemma forallb_filter_same (p : ascii -> bool) (s : text) :
  forallb p (filter p s) = true.
Proof.
  induction s as [| c s IH]; [reflexivity |]. cbn [filter].
  destruct (p c) eqn:E; [cbn [forallb]; rewrite E, IH; reflexivity | exact IH].
Qed.

Lemma filter_fixed (p : ascii -> bool) (s : text) :
  forallb p s = true -> filter p s = s.
Proof.
  induction s as [| c s IH]; [reflexivity |]. cbn [forallb filter].
  intros H. apply andb_true_iff in H. destruct H as [Hc Hs].
  rewrite Hc, IH by exact Hs. reflexivity.
Qed.

Lemma forallb_firstn (p : ascii -> bool) (n : nat) (s : text) :
  forallb p s = true -> forallb p (firstn n s) = true.
Proof.
  intros H. rewrite <- (firstn_skipn n s) in H. rewrite forallb_app in H.
  apply andb_true_iff in H. tauto.
Qed.

(** The characters [sanitize_string] returns. *)
Lemma sanitize_string_chars (s : string) (max_length : nat) :
  list_ascii_of_string (sanitize_string s max_length)
  = strip_text
      (firstn max_length
         (filter (fun c => negb (is_control c)) (list_ascii_of_string s))).
Proof.
  unfold sanitize_string.
  destruct s as [| c s]; [destruct max_length; reflexivity |].
  cbn [nonempty negb]. apply list_ascii_of_string_of_list_ascii.
Qed.

End SanitizeFacts.

(** X3.  Whatever the input, the string [sanitize_string] returns has at
    most [max_length] characters, none of them a control character
    (U+0000..U+001F, U+007F..U+009F), and neither starts nor ends with
    white space. *)
Theorem sanitize_string_output_is_clean :
  forall (s : string) (max_length : nat),
    let out := list_ascii_of_string
                 (SecurityValidator.sanitize_string s max_length) in
    (List.length out <= max_length)%nat /\
    forallb (fun c => negb (SecurityValidator.is_control c)) out = true /\
    (forall c t, out = (c :: t)%list -> PyStr.isspace c = false) /\
    (forall c t, rev out = (c :: t)%list -> PyStr.isspace c = false).
Proof.
  intros s n out. subst out. rewrite sanitize_string_chars.
  split; [| split; [| split]].
  - eapply Nat.le_trans; [apply strip_text_length |].
    apply firstn_le_length.
  - apply strip_text_forallb. apply forallb_firstn.
    apply forallb_filter_same.
  - apply strip_text_head.
  - apply strip_text_last.
Qed.

(** X4.  [sanitize_string] is idempotent: sanitizing an already
    sanitized string with the same bound returns it unchanged. *)
Theorem sanitize_string_idempotent :
  forall (s : string) (max_length : nat),
    SecurityValidator.sanitize_string
      (SecurityValidator.sanitize_string s max_length) max_length
    = SecurityValidator.sanitize_string s max_length.
Proof.
  intros s n.
  destruct (sanitize_string_output_is_clean s n) as (Hlen & Hctl & Hh & Hl).
  set (out := SecurityValidator.sanitize_string s n) in *.
  rewrite <- (string_of_list_ascii_of_string
                (SecurityValidator.sanitize_string out n)).
  rewrite sanitize_string_chars.
  rewrite (filter_fixed _ _ Hctl).
  rewrite firstn_all2 by exact Hlen.
  rewrite (strip_text_fixed _ Hh Hl).
  apply string_of_list_ascii_of_string.
Qed.

(** ** [haversine_distance]: range *)

Section GeoRange.
Import Geo.
Open Scope R_scope.

Lemma atan_nonneg (x : R) : 0 <= x -> 0 <= atan x.
Proof.
  intros [H | <-].
  - left. rewrite <- atan_0. apply atan_increasing. exact H.
  - rewrite atan_0. apply Rle_refl.
Qed.

Lemma atan2_first_quadrant (y x : R) :
  0 <= y -> 0 <= x -> 0 <= atan2 y x <= PI / 2.
Proof.
  intros Hy Hx. pose proof PI_RGT_0 as Hpi. unfold atan2.
  destruct (Rlt_dec 0 x) as [Hpos | Hnpos].
  - split.
    + apply atan_nonneg. apply Rmult_le_pos; [exact Hy |].
      left. apply Rinv_0_lt_compat. exact Hpos.
    + pose proof (atan_bound (y / x)) as [_ H]. lra.
  - destruct (Rlt_dec x 0) as [Hneg | _]; [lra |].
    destruct (Rlt_dec 0 y) as [_ | _]; [lra |].
    destruct (Rlt_dec y 0) as [Hyn | _]; lra.
Qed.

End GeoRange.

(** X5.  [haversine_distance] returns [inf] exactly when one of its four
    arguments is zero, and a finite distance it returns lies between 0
    and half the circumference of the Earth, 6371 * pi kilometres. *)
Theorem haversine_distance_range :
  forall lat1 lon1 lat2 lon2 : R,
    (Geo.haversine_distance lat1 lon1 lat2 lon2 = PosInf <->
     (lat1 = 0 \/ lon1 = 0 \/ lat2 = 0 \/ lon2 = 0)%R) /\
    (forall d : R,
        Geo.haversine_distance lat1 lon1 lat2 lon2 = Finite d ->
        (lat1 <> 0 /\ lon1 <> 0 /\ lat2 <> 0 /\ lon2 <> 0)%R /\
        (0 <= d <= 6371 * PI)%R).
Proof.
  intros lat1 lon1 lat2 lon2. unfold Geo.haversine_distance.
  destruct (truthy lat1) eqn:E1;
    [| apply truthy_false_iff in E1; cbn [andb negb];
       split; [tauto | discriminate]].
  destruct (truthy lon1) eqn:E2;
    [| apply truthy_false_iff in E2; cbn [andb negb];
       split; [tauto | discriminate]].
  destruct (truthy lat2) eqn:E3;
    [| apply truthy_false_iff in E3; cbn [andb negb];
       split; [tauto | discriminate]].
  destruct (truthy lon2) eqn:E4;
    [| apply truthy_false_iff in E4; cbn [andb negb];
       split; [tauto | discriminate]].
  apply truthy_true_iff in E1, E2, E3, E4. cbn [andb negb]. split.
  - split; [discriminate | tauto].
  - intros d Hd. split; [tauto |].
    injection Hd as <-.
    pose proof (atan2_first_quadrant
                  (sqrt (Geo.haversine_a lat1 lon1 lat2 lon2))
                  (sqrt (1 - Geo.haversine_a lat1 lon1 lat2 lon2))
                  (sqrt_pos _) (sqrt_pos _)) as Hc.
    pose proof PI_RGT_0. nra.
Qed.

(** ** [find_best_worker]: what it returns *)

Lemma find_best_worker_on_unrated :
  snd (JobMatcher.find_best_worker MoreFixtures.db_unrated 1 "plumbing")
  = Some (Fixtures.chitra, Finite 999).
Proof.
  unfold JobMatcher.find_best_worker.
  change (JobMatcher.select_lead MoreFixtures.db_unrated 1)
    with (Some Fixtures.hotel).
  cbv iota beta.
  change (PyStr.lower "plumbing") with "plumbing".
  unfold JobMatcher.select_workers.
  change (filter (JobMatcher.eligible "plumbing")
                 (Store.workers MoreFixtures.db_unrated))
    with [Fixtures.chitra; Fixtures.deepak].
  unfold JobMatcher.order_by_rating_jobs.
  cbn [fold_right JobMatcher.insert_ordered].
  unfold JobMatcher.sorts_before.
  cbn [Store.w_rating Store.w_jobs_completed Fixtures.chitra Fixtures.deepak].
  decide_R. cbn [Z.ltb Z.compare].
  unfold JobMatcher.scoring_loop, JobMatcher.loop_body.
  cbn [fold_left Store.l_lat Store.l_lon Fixtures.hotel snd fst].
  unfold JobMatcher.worker_distance.
  cbn [Store.w_lat Store.w_lon Store.w_rating Fixtures.chitra Fixtures.deepak
       truthy_opt andb fsub flt snd fst].
  decide_R. reflexivity.
Qed.

(** X6.  When [find_best_worker] returns a worker, the lead is stored,
    and the worker is a row of the workers table, is 'active', passes
    the [LIKE] filter, and comes with the finite distance computed for
    it.  When the lead is not stored, or no worker is eligible, it
    returns [None]. *)
Theorem find_best_worker_result :
  forall (db : Store.DB) (lead_id : Z) (service : string),
    (forall w d,
        snd (JobMatcher.find_best_worker db lead_id service) = Some (w, d) ->
        In w (Store.workers db) /\
        Store.w_status w = "active" /\
        Sqlite.like (Store.w_skills w) ("%" ++ PyStr.lower service ++ "%")
        = true /\
        exists (lead : Store.Lead) (x : R),
          JobMatcher.select_lead db lead_id = Some lead /\
          d = Finite x /\
          JobMatcher.worker_distance (Store.l_lat lead) (Store.l_lon lead) w
          = Finite x) /\
    (JobMatcher.select_lead db lead_id = None ->
     snd (JobMatcher.find_best_worker db lead_id service) = None) /\
    ((forall w0, In w0 (Store.workers db) ->
                 JobMatcher.eligible (PyStr.lower service) w0 = false) ->
     snd (JobMatcher.find_best_worker db lead_id service) = None).
Proof.
  intros db lead_id service. split; [| split].
  - intros w d H. apply find_best_worker_some in H.
    destruct H as (lead & Hl & Hin & Hd).
    apply select_workers_In in Hin. destruct Hin as [Hin He].
    unfold JobMatcher.eligible in He. apply andb_true_iff in He.
    destruct He as [Hs Hk]. apply String.eqb_eq in Hs.
    split; [exact Hin |]. split; [exact Hs |]. split; [exact Hk |].
    destruct (worker_distance_finite (Store.l_lat lead) (Store.l_lon lead) w)
      as [x Hx].
    exists lead, x. rewrite Hd. auto.
  - intros Hl. unfold JobMatcher.find_best_worker. rewrite Hl. reflexivity.
  - intros Hnone.
    destruct (snd (JobMatcher.find_best_worker db lead_id service))
      as [[w d] |] eqn:E; [| reflexivity].
    apply find_best_worker_some in E. destruct E as (lead & _ & Hin & _).
    apply select_workers_In in Hin. destruct Hin as [Hin He].
    rewrite (Hnone w Hin) in He. discriminate He.
Qed.

Lemma find_best_worker_result_witness :
  In Fixtures.chitra (Store.workers MoreFixtures.db_unrated) /\
  Store.w_status Fixtures.chitra = "active".
Proof.
  destruct (proj1 (find_best_worker_result MoreFixtures.db_unrated 1
                     "plumbing")
                  Fixtures.chitra (Finite 999) find_best_worker_on_unrated)
    as (Hin & Hs & _).
  split; assumption.
Defined.

Section NearestFacts.
Import Store JobMatcher.

Variables lead_lat lead_lon : option R.

Lemma fle_trans (a b c : pyfloat) : fle a b -> fle b c -> fle a c.
Proof.
  destruct a, b, c; cbn [fle]; try tauto. intros; lra.
Qed.

Lemma fle_refl_finite (x : R) : fle (Finite x) (Finite x).
Proof.
  cbn [fle]. lra.
Qed.

Lemma loop_body_unrated (st : loop_state) (w : Worker) :
  w_rating w = 0%R ->
  let st' := loop_body lead_lat lead_lon st w in
  fle (snd st') (snd st) /\
  fle (snd st') (worker_distance lead_lat lead_lon w) /\
  ((forall w0 d, fst st = Some (w0, d) -> d = snd st) ->
   forall w0 d, fst st' = Some (w0, d) -> d = snd st').
Proof.
  intros Hr st'. subst st'. unfold loop_body. rewrite Hr.
  destruct (worker_distance_finite lead_lat lead_lon w) as [x ->].
  destruct st as [best bd]. cbn [snd fst fsub].
  destruct bd as [b |]; cbn [flt].
  - destruct (Rlt_dec (x - 0 * 2) b) as [Hlt | Hge]; cbn [snd fst].
    + split; [cbn [fle]; lra |]. split; [apply fle_refl_finite |].
      intros _ w0 d H. inversion H. reflexivity.
    + split; [apply fle_refl_finite |]. split; [cbn [fle]; lra |].
      intros H. exact H.
  - cbn [snd fst]. split; [exact I |]. split; [apply fle_refl_finite |].
    intros _ w0 d H. inversion H. reflexivity.
Qed.

Lemma scoring_loop_unrated (workers : list Worker) :
  (forall w, In w workers -> w_rating w = 0%R) ->
  forall st : loop_state,
    let st' := fold_left (loop_body lead_lat lead_lon) workers st in
    fle (snd st') (snd st) /\
    (forall w, In w workers ->
               fle (snd st') (worker_distance lead_lat lead_lon w)) /\
    ((forall w0 d, fst st = Some (w0, d) -> d = snd st) ->
     forall w0 d, fst st' = Some (w0, d) -> d = snd st').
Proof.
  induction workers as [| x rest IH]; intros Hr st st'; subst st'.
  - cbn [fold_left]. split; [| split].
    + destruct (snd st); cbn [fle]; [lra | exact I].
    + intros w [].
    + intros H. exact H.
  - cbn [fold_left].
    destruct (loop_body_unrated st x (Hr x (or_introl eq_refl)))
      as (H1 & H2 & H3).
    destruct (IH (fun w Hw => Hr w (or_intror Hw))
                 (loop_body lead_lat lead_lon st x)) as (I1 & I2 & I3).
    split; [eapply fle_trans; eassumption |]. split.
    + intros w [<- | Hw]; [eapply fle_trans; eassumption | apply I2; exact Hw].
    + intros H. apply I3. apply H3. exact H.
Qed.

End NearestFacts.

(** X7.  When every eligible worker has rating 0 (the rating every row
    written by [add_worker] and [import_from_csv] has), the worker
    [find_best_worker] returns is a nearest one: no eligible worker has
    a smaller distance to the lead. *)
Theorem find_best_worker_nearest_when_unrated :
  forall (db : Store.DB) (lead_id : Z) (service : string)
         (lead : Store.Lead) (w : Store.Worker) (d : pyfloat),
    (forall w', In w' (Store.workers db) ->
                JobMatcher.eligible (PyStr.lower service) w' = true ->
                Store.w_rating w' = 0%R) ->
    JobMatcher.select_lead db lead_id = Some lead ->
    snd (JobMatcher.find_best_worker db lead_id service) = Some (w, d) ->
    forall w', In w' (Store.workers db) ->
               JobMatcher.eligible (PyStr.lower service) w' = true ->
               fle d (JobMatcher.worker_distance
                        (Store.l_lat lead) (Store.l_lon lead) w').
Proof.
  intros db lead_id service lead w d Hr Hl H w' Hin He.
  unfold JobMatcher.find_best_worker in H. rewrite Hl in H.
  assert (Hw' : In w' (JobMatcher.select_workers db (PyStr.lower service))).
  { apply select_workers_In. split; assumption. }
  assert (Hr' : forall x,
             In x (JobMatcher.select_workers db (PyStr.lower service)) ->
             Store.w_rating x = 0%R).
  { intros x Hx. apply select_workers_In in Hx. destruct Hx as [Hx1 Hx2].
    apply Hr; assumption. }
  destruct (JobMatcher.select_workers db (PyStr.lower service))
    as [| x rest] eqn:E; [destruct Hw' |].
  cbn [snd] in H. unfold JobMatcher.scoring_loop in H.
  destruct (scoring_loop_unrated (Store.l_lat lead) (Store.l_lon lead)
              (x :: rest) Hr' (None, PosInf)) as (_ & H2 & H3).
  rewrite (H3 (fun w0 d0 A => ltac:(discriminate A)) w d H).
  apply H2. exact Hw'.
Qed.

Lemma find_best_worker_nearest_when_unrated_witness :
  fle (Finite 999)
      (JobMatcher.worker_distance None None Fixtures.deepak).
Proof.
  apply (find_best_worker_nearest_when_unrated MoreFixtures.db_unrated 1
           "plumbing" Fixtures.hotel Fixtures.chitra (Finite 999)).
  - intros w' [<- | [<- | []]] _; reflexivity.
  - reflexivity.
  - exact find_best_worker_on_unrated.
  - right. left. reflexivity.
  - reflexivity.
Defined.

(** ** The order in which workers are scanned *)

Section OrderSorted.
Import Store JobMatcher.

Lemma sorts_before_asym (a b : Worker) :
  sorts_before a b = true -> sorts_before b a = false.
Proof.
  unfold sorts_before. intros H.
  destruct (Rlt_dec (w_rating b) (w_rating a));
    destruct (Rlt_dec (w_rating a) (w_rating b));
    destruct (Req_dec_T (w_rating b) (w_rating a));
    destruct (Req_dec_T (w_rating a) (w_rating b));
    try lra; try discriminate H; try reflexivity.
  apply Z.ltb_lt in H. apply Z.ltb_ge. lia.
Qed.

Lemma insert_ordered_hd (w x : Worker) (sorted : list Worker) :
  not_after x w -> HdRel not_after x sorted ->
  HdRel not_after x (insert_ordered w sorted).
Proof.
  intros Hw Hs. destruct sorted as [| y rest]; cbn [insert_ordered].
  - constructor. exact Hw.
  - destruct (sorts_before y w); constructor.
    + inversion Hs; assumption.
    + exact Hw.
Qed.

Lemma insert_ordered_sorted (w : Worker) (sorted : list Worker) :
  Sorted not_after sorted -> Sorted not_after (insert_ordered w sorted).
Proof.
  induction sorted as [| x rest IH]; intros H; cbn [insert_ordered].
  - repeat constructor.
  - destruct (sorts_before x w) eqn:E.
    + inversion H as [| a l Hs Hh]; subst. constructor.
      * apply IH. exact Hs.
      * apply insert_ordered_hd; [| exact Hh].
        unfold not_after. apply sorts_before_asym. exact E.
    + constructor; [exact H |]. constructor. exact E.
Qed.

Lemma insert_ordered_perm (w : Worker) (sorted : list Worker) :
  Permutation (w :: sorted) (insert_ordered w sorted).
Proof.
  induction sorted as [| x rest IH]; cbn [insert_ordered].
  - apply Permutation_refl.
  - destruct (sorts_before x w); [| apply Permutation_refl].
    eapply Permutation_trans; [apply perm_swap |].
    apply perm_skip. exact IH.
Qed.

Lemma order_by_rating_jobs_sorted (rows : list Worker) :
  Sorted not_after (order_by_rating_jobs rows).
Proof.
  unfold order_by_rating_jobs.
  induction rows as [| x rest IH]; cbn [fold_right]; [constructor |].
  apply insert_ordered_sorted. exact IH.
Qed.

Lemma order_by_rating_jobs_perm (rows : list Worker) :
  Permutation rows (order_by_rating_jobs rows).
Proof.
  unfold order_by_rating_jobs.
  induction rows as [| x rest IH]; cbn [fold_right]; [constructor |].
  eapply Permutation_trans; [apply perm_skip; exact IH |].
  apply insert_ordered_perm.
Qed.

Lemma not_after_rating (a b : Worker) :
  not_after a b -> (w_rating b <= w_rating a)%R.
Proof.
  unfold not_after, sorts_before.
  destruct (Rlt_dec (w_rating a) (w_rating b)); [discriminate |].
  intros _. lra.
Qed.

End OrderSorted.

(** X8.  The workers [find_best_worker] scans are the eligible rows of
    the table, each as often as it is stored, in an order in which the
    rating never increases from one worker to the next and, at equal
    rating, the completed-job count never increases. *)
Theorem select_workers_sorted_permutation :
  forall (db : Store.DB) (service_lower : string),
    Permutation (filter (JobMatcher.eligible service_lower)
                        (Store.workers db))
                (JobMatcher.select_workers db service_lower) /\
    Sorted not_after (JobMatcher.select_workers db service_lower) /\
    Sorted (fun a b =>
              (Store.w_rating b <= Store.w_rating a)%R /\
              (Store.w_rating a = Store.w_rating b ->
               (Store.w_jobs_completed b <= Store.w_jobs_completed a)%Z))
           (JobMatcher.select_workers db service_lower).
Proof.
  intros db service_lower. unfold JobMatcher.select_workers.
  split; [apply order_by_rating_jobs_perm |].
  split; [apply order_by_rating_jobs_sorted |].
  eapply Sorted_ind with
    (P := fun l => Sorted _ l); [constructor | | apply
    (order_by_rating_jobs_sorted
       (filter (JobMatcher.eligible service_lower) (Store.workers db)))].
  intros a l _ IH Hh. constructor; [exact IH |].
  destruct Hh as [| b l' Hab]; constructor.
  split; [apply not_after_rating; exact Hab |].
  intros E. unfold not_after, JobMatcher.sorts_before in Hab.
  destruct (Rlt_dec (Store.w_rating a) (Store.w_rating b)); [discriminate |].
  destruct (Req_dec_T (Store.w_rating a) (Store.w_rating b));
    [| contradiction].
  apply Z.ltb_ge in Hab. exact Hab.
Qed.

(** ** Jobs: counting and consistency *)

Section JobFacts.
Import Store JobMatcher.
Open Scope Z_scope.

Lemma NoDup_snoc {A : Type} (l : list A) (x : A) :
  NoDup l -> ~ In x l -> NoDup (l ++ [x]).
Proof.
  intros Hl Hx.
  apply (Permutation_NoDup (Permutation_cons_append l x)).
  constructor; assumption.
Qed.

Lemma map_set_contacted_ids (now : timestamp) (lead_id : Z)
      (rows : list Lead) :
  map l_id (map (set_contacted now lead_id) rows) = map l_id rows.
Proof.
  rewrite map_map. apply map_ext. intros l. apply set_contacted_id.
Qed.

Lemma existsb_of_map {A B : Type} (f : B -> bool) (g : A -> B)
      (l : list A) :
  existsb f (map g l) = existsb (fun x => f (g x)) l.
Proof.
  induction l as [| x l IH]; [reflexivity |].
  cbn [map existsb]. rewrite IH. reflexivity.
Qed.

(** [lead_exists] only looks at the ids. *)
Lemma lead_exists_ids (db db' : DB) (i : Z) :
  map l_id (leads db') = map l_id (leads db) ->
  lead_exists db' i = lead_exists db i.
Proof.
  intros H. unfold lead_exists.
  rewrite <- (existsb_of_map (fun x => x =? i) l_id (leads db')).
  rewrite <- (existsb_of_map (fun x => x =? i) l_id (leads db)).
  rewrite H. reflexivity.
Qed.

Lemma worker_exists_same (db db' : DB) (i : Z) :
  workers db' = workers db -> worker_exists db' i = worker_exists db i.
Proof.
  intros H. unfold worker_exists. rewrite H. reflexivity.
Qed.

(** What [create_job] changes, in both of its outcomes. *)
Lemma create_job_frame (f : faults) (now : timestamp) (db : DB)
      (lead_id worker_id : Z) (service : string) (price : R) :
  let r := create_job f now db lead_id worker_id service price in
  workers (snd r) = workers db /\
  api_cache (snd r) = api_cache db /\
  map l_id (leads (snd r)) = map l_id (leads db) /\
  ((fst r = 0 /\ snd r = db) \/
   (fst r <> 0 /\
    lead_exists db lead_id = true /\ worker_exists db worker_id = true /\
    ~ In (fst r) (map j_id (jobs db)) /\
    jobs (snd r)
    = (jobs db ++ [mkJob (fst r) lead_id worker_id service price
                         "dispatched" now])%list /\
    leads (snd r) = map (set_contacted now lead_id) (leads db))).
Proof.
  intros r. subst r.
  destruct (create_job_cases f now db lead_id worker_id service price)
    as [[E _] | (E & _ & _ & _ & _ & Hl & Hw)]; rewrite E.
  - cbn [fst snd]. repeat split; try reflexivity. left. auto.
  - unfold job_created. cbn [fst snd workers api_cache leads jobs].
    split; [reflexivity |]. split; [reflexivity |].
    split; [apply map_set_contacted_ids |]. right.
    split.
    { pose proof (next_rowid_positive (seq_jobs db) (map j_id (jobs db))).
      lia. }
    split; [exact Hl |]. split; [exact Hw |].
    split; [apply next_rowid_fresh |]. split; reflexivity.
Qed.

Lemma create_job_consistent (f : faults) (now : timestamp) (db : DB)
      (lead_id worker_id : Z) (service : string) (price : R) :
  jobs_consistent db ->
  jobs_consistent (snd (create_job f now db lead_id worker_id service price)).
Proof.
  intros [Hnd Hfk].
  destruct (create_job_frame f now db lead_id worker_id service price)
    as (Hw & _ & Hids & [[_ E] | (_ & Hl & Hwk & Hfresh & Hj & _)]).
  - rewrite E. split; assumption.
  - set (db' := snd (create_job f now db lead_id worker_id service price))
      in *.
    split.
    + rewrite Hj, map_app. cbn [map j_id]. apply NoDup_snoc; assumption.
    + intros j Hin. rewrite (lead_exists_ids db db' _ Hids).
      rewrite (worker_exists_same db db' _ Hw).
      rewrite Hj in Hin. apply in_app_or in Hin.
      destruct Hin as [Hin | [<- | []]]; [apply Hfk; exact Hin |].
      cbn [j_lead_id j_worker_id]. split; assumption.
Qed.

Lemma match_loop_frame (fs : nat -> faults) (now : timestamp)
      (service : string) (selected : list Lead) :
  forall (k : nat) (count : Z) (db : DB),
    let r := match_loop fs now service selected k count db in
    count <= fst r <= count + Z.of_nat (List.length selected) /\
    Z.of_nat (List.length (jobs (snd r)))
    = Z.of_nat (List.length (jobs db)) + (fst r - count) /\
    workers (snd r) = workers db /\
    api_cache (snd r) = api_cache db /\
    map l_id (leads (snd r)) = map l_id (leads db) /\
    (jobs_consistent db -> jobs_consistent (snd r)).
Proof.
  induction selected as [| lead rest IH]; intros k count db r; subst r.
  - cbn [match_loop fst snd List.length].
    split; [lia |]. split; [lia |].
    split; [reflexivity |]. split; [reflexivity |].
    split; [reflexivity |]. intros H; exact H.
  - cbn [match_loop].
    destruct (snd (find_best_worker db (l_id lead) service))
      as [[worker d] |].
    + pose proof (create_job_frame (fs k) now db (l_id lead) (w_id worker)
                    service 0) as Hf.
      pose proof (create_job_consistent (fs k) now db (l_id lead)
                    (w_id worker) service 0) as Hc.
      destruct (create_job (fs k) now db (l_id lead) (w_id worker) service 0)
        as [job_id db'].
      cbn [fst snd] in Hf, Hc. destruct Hf as (Hw & Ha & Hi & Hcase).
      destruct (Z.eqb_spec job_id 0) as [E0 | N0].
      * destruct Hcase as [[_ ->] | [Hn _]]; [| contradiction].
        specialize (IH (S k) count db). cbn zeta in IH.
        destruct IH as (I1 & I2 & I3 & I4 & I5 & I6).
        cbn [List.length].
        split; [lia |]. split; [exact I2 |].
        split; [exact I3 |]. split; [exact I4 |].
        split; [exact I5 | exact I6].
      * destruct Hcase as [[E0 _] | (_ & _ & _ & _ & Hj & _)];
          [contradiction |].
        specialize (IH (S k) (count + 1) db'). cbn zeta in IH.
        destruct IH as (I1 & I2 & I3 & I4 & I5 & I6).
        rewrite Hj, length_app in I2. cbn [List.length] in I2 |- *.
        split; [lia |]. split; [lia |].
        split; [congruence |]. split; [congruence |].
        split; [congruence |]. intros H. apply I6, Hc, H.
    + specialize (IH (S k) count db). cbn zeta in IH.
      destruct IH as (I1 & I2 & I3 & I4 & I5 & I6).
      cbn [List.length].
      split; [lia |]. split; [exact I2 |].
      split; [exact I3 |]. split; [exact I4 |].
      split; [exact I5 | exact I6].
Qed.

Lemma limit_length {A : Type} (n : Z) (rows : list A) :
  0 <= n -> Z.of_nat (List.length (Sqlite.limit n rows)) <= n.
Proof.
  intros H. unfold Sqlite.limit.
  destruct (Z.ltb_spec n 0) as [Hn | _]; [lia |].
  pose proof (firstn_le_length (Z.to_nat n) rows). lia.
Qed.

End JobFacts.

(** X9.  [create_job] and [match_all_leads] keep the job ledger
    consistent: if job ids are unique and every job refers to a stored
    lead and a stored worker, the same holds afterwards, whatever
    statement raises. *)
Theorem job_ledger_stays_consistent :
  forall (db : Store.DB),
    jobs_consistent db ->
    (forall (f : JobMatcher.faults) (now : Store.timestamp)
            (lead_id worker_id : Z) (service : string) (price : R),
        jobs_consistent
          (snd (JobMatcher.create_job f now db lead_id worker_id
                                      service price))) /\
    (forall (fs : nat -> JobMatcher.faults) (now : Store.timestamp)
            (service : string) (max_matches : Z),
        jobs_consistent
          (snd (JobMatcher.match_all_leads fs now db service max_matches))).
Proof.
  intros db H. split.
  - intros. apply create_job_consistent. exact H.
  - intros fs now service n. unfold JobMatcher.match_all_leads.
    destruct (JobMatcher.select_new_leads db service n) as [| l rest];
      [exact H |].
    apply (match_loop_frame fs now service (l :: rest) 0 0 db). exact H.
Qed.

Lemma job_ledger_stays_consistent_witness :
  jobs_consistent
    (snd (JobMatcher.match_all_leads (fun _ => JobMatcher.no_faults) 9%Z
            Fixtures.db_two_plumbers "plumbing" 10%Z)).
Proof.
  apply (job_ledger_stays_consistent Fixtures.db_two_plumbers).
  split; [constructor | intros j []].
Defined.

(** X10.  The number [match_all_leads] returns is the number of job rows
    it added; it is at least 0, at most the number of leads selected
    and, for a non-negative [max_matches], at most [max_matches].  The
    workers, the lookup cache and the lead ids are left as they were. *)
Theorem match_all_leads_counts_jobs :
  forall (fs : nat -> JobMatcher.faults) (now : Store.timestamp)
         (db : Store.DB) (service : string) (max_matches : Z),
    let r := JobMatcher.match_all_leads fs now db service max_matches in
    (Z.of_nat (List.length (Store.jobs (snd r)))
     = Z.of_nat (List.length (Store.jobs db)) + fst r)%Z /\
    (0 <= fst r)%Z /\
    (fst r <= Z.of_nat (List.length
                          (JobMatcher.select_new_leads db service
                                                       max_matches)))%Z /\
    ((0 <= max_matches)%Z -> (fst r <= max_matches)%Z) /\
    Store.workers (snd r) = Store.workers db /\
    Store.api_cache (snd r) = Store.api_cache db /\
    map Store.l_id (Store.leads (snd r)) = map Store.l_id (Store.leads db).
Proof.
  intros fs now db service n r. subst r.
  pose proof (limit_length n
                (filter (fun l => String.eqb (Store.l_status l) "new"
                                  && Sqlite.like (Store.l_category l)
                                       ("%" ++ service ++ "%"))
                        (Store.leads db))) as Hlim.
  fold (JobMatcher.select_new_leads db service n) in Hlim.
  unfold JobMatcher.match_all_leads.
  destruct (JobMatcher.select_new_leads db service n) as [| l rest] eqn:E.
  - cbn [fst snd List.length].
    split; [lia |]. split; [lia |]. split; [lia |].
    split; [intros; lia |]. split; [reflexivity |].
    split; reflexivity.
  - destruct (match_loop_frame fs now service (l :: rest) 0 0 db)
      as (H1 & H2 & H3 & H4 & H5 & _).
    split; [lia |]. split; [lia |]. split; [lia |].
    split; [intros; lia |]. split; [exact H3 |].
    split; [exact H4 | exact H5].
Qed.

(** ** [match_all_leads]: outcomes *)

Section MatchOutcomes.
Import Store JobMatcher.
Open Scope Z_scope.

Lemma find_best_worker_no_workers (db : DB) (lead_id : Z) (service : string) :
  select_workers db (PyStr.lower service) = [] ->
  snd (find_best_worker db lead_id service) = None.
Proof.
  intros H. unfold find_best_worker.
  destruct (select_lead db lead_id); [rewrite H |]; reflexivity.
Qed.

Lemma no_eligible_select_workers (db : DB) (service_lower : string) :
  (forall w, In w (workers db) -> eligible service_lower w = false) ->
  select_workers db service_lower = [].
Proof.
  intros H.
  destruct (select_workers db service_lower) as [| x rest] eqn:E;
    [reflexivity |].
  assert (Hx : In x (select_workers db service_lower))
    by (rewrite E; left; reflexivity).
  apply select_workers_In in Hx. destruct Hx as [Hin He].
  rewrite (H x Hin) in He. discriminate He.
Qed.

Lemma match_loop_no_workers (fs : nat -> faults) (now : timestamp)
      (service : string) (selected : list Lead) :
  forall (k : nat) (count : Z) (db : DB),
    select_workers db (PyStr.lower service) = [] ->
    match_loop fs now service selected k count db = (count, db).
Proof.
  induction selected as [| lead rest IH]; intros k count db H;
    [reflexivity |].
  cbn [match_loop]. rewrite (find_best_worker_no_workers _ _ _ H).
  apply IH. exact H.
Qed.

Lemma lead_exists_select (db : DB) (lead_id : Z) :
  lead_exists db lead_id = true ->
  exists lead, select_lead db lead_id = Some lead.
Proof.
  unfold lead_exists, select_lead. intros H.
  apply existsb_exists in H. destruct H as (l & Hin & Hl).
  destruct (find (fun l0 => l_id l0 =? lead_id) (leads db)) as [x |] eqn:E.
  - exists x. reflexivity.
  - exfalso. pose proof (find_none _ _ E l Hin) as Hn. cbn beta in Hn.
    congruence.
Qed.

Lemma worker_exists_In (db : DB) (w : Worker) :
  In w (workers db) -> worker_exists db (w_id w) = true.
Proof.
  intros H. unfold worker_exists. apply existsb_exists.
  exists w. split; [exact H | apply Z.eqb_refl].
Qed.

Lemma job_created_contacted (now : timestamp) (db : DB)
      (lead_id worker_id : Z) (service : string) (price : R) :
  contacted_in (snd (job_created now db lead_id worker_id service price))
               lead_id.
Proof.
  unfold contacted_in, job_created. cbn [snd leads].
  intros l Hin Hid. apply in_map_iff in Hin.
  destruct Hin as (l0 & <- & _). rewrite set_contacted_id in Hid.
  apply set_contacted_hit. exact Hid.
Qed.

(** Without faults, and with an eligible worker, every selected lead
    gets its job. *)
Lemma match_loop_all_matched (now : timestamp) (service : string)
      (selected : list Lead) :
  forall (k : nat) (count : Z) (db : DB),
    (exists w0, In w0 (workers db) /\
                eligible (PyStr.lower service) w0 = true) ->
    (forall l, In l selected -> lead_exists db (l_id l) = true) ->
    let r := match_loop (fun _ => no_faults) now service selected k count db in
    fst r = count + Z.of_nat (List.length selected) /\
    (forall l, In l selected -> contacted_in (snd r) (l_id l)).
Proof.
  induction selected as [| lead rest IH]; intros k count db Hw Hl r; subst r.
  - cbn [match_loop fst snd List.length]. split; [lia | intros l []].
  - cbn [match_loop].
    destruct Hw as (w0 & Hin0 & He0).
    destruct (lead_exists_select db (l_id lead)
                (Hl lead (or_introl eq_refl))) as [row Hrow].
    destruct (find_best_worker_returns_eligible db (l_id lead) service row w0
                Hrow Hin0 He0) as (w & d & Hfb & Hwin & _).
    rewrite Hfb.
    destruct (create_job_cases no_faults now db (l_id lead) (w_id w)
                               service 0)
      as [[_ Hbad] | (E & _)].
    { exfalso. unfold no_faults in Hbad.
      rewrite (Hl lead (or_introl eq_refl)), (worker_exists_In db w Hwin)
        in Hbad.
      cbn [andb] in Hbad. intuition discriminate. }
    rewrite E.
    pose proof (job_created_contacted now db (l_id lead) (w_id w) service 0)
      as Hc.
    unfold job_created in *. cbn [snd] in Hc.
    set (job_id := Sqlite.next_rowid (seq_jobs db) (map j_id (jobs db))) in *.
    set (db' := mkDB (map (set_contacted now (l_id lead)) (leads db))
                     (workers db) _ (api_cache db) (seq_leads db)
                     (seq_workers db) job_id) in *.
    assert (Hpos : (job_id =? 0) = false).
    { apply Z.eqb_neq.
      pose proof (next_rowid_positive (seq_jobs db) (map j_id (jobs db))).
      subst job_id. lia. }
    rewrite Hpos.
    assert (Hw' : exists w1, In w1 (workers db') /\
                             eligible (PyStr.lower service) w1 = true)
      by (exists w0; split; assumption).
    assert (Hl' : forall l, In l rest -> lead_exists db' (l_id l) = true).
    { intros l Hin. rewrite (lead_exists_ids db db').
      - apply Hl. right. exact Hin.
      - apply map_set_contacted_ids. }
    specialize (IH (S k) (count + 1) db' Hw' Hl'). cbn zeta in IH.
    destruct IH as [I1 I2]. cbn [List.length].
    split; [lia |].
    intros l [<- | Hin]; [| apply I2; exact Hin].
    apply match_loop_keeps_contacted. exact Hc.
Qed.

Lemma select_new_leads_exist (db : DB) (service : string) (n : Z) (l : Lead) :
  In l (select_new_leads db service n) -> lead_exists db (l_id l) = true.
Proof.
  intros H. apply select_new_leads_spec in H. destruct H as [Hin _].
  apply lead_exists_In. exists l. split; [exact Hin | reflexivity].
Qed.

(** A row that is not at 'contacted' after the loop was there before. *)
Lemma match_loop_untouched (fs : nat -> faults) (now : timestamp)
      (service : string) (selected : list Lead) :
  forall (k : nat) (count : Z) (db : DB) (l : Lead),
    In l (leads (snd (match_loop fs now service selected k count db))) ->
    l_status l = "contacted" \/ In l (leads db).
Proof.
  induction selected as [| lead rest IH]; intros k count db l H.
  - right. exact H.
  - cbn [match_loop] in H.
    destruct (snd (find_best_worker db (l_id lead) service))
      as [[worker d] |]; [| apply IH in H; exact H].
    pose proof (create_job_frame (fs k) now db (l_id lead) (w_id worker)
                  service 0) as Hf.
    destruct (create_job (fs k) now db (l_id lead) (w_id worker) service 0)
      as [job_id db'].
    cbn [fst snd] in Hf. destruct Hf as (_ & _ & _ & Hcase).
    assert (H' : In l (leads (snd (match_loop fs now service rest (S k)
                                     (if job_id =? 0 then count
                                      else count + 1) db')))).
    { destruct (job_id =? 0); exact H. }
    apply IH in H'. destruct H' as [H' | H']; [left; exact H' |].
    destruct Hcase as [[_ ->] | (_ & _ & _ & _ & _ & Hleads)];
      [right; exact H' |].
    rewrite Hleads in H'. apply in_map_iff in H'.
    destruct H' as (l0 & <- & Hin0).
    unfold set_contacted. destruct (l_id l0 =? l_id lead);
      [left; reflexivity | right; exact Hin0].
Qed.

Lemma limit_all {A : Type} (n : Z) (rows : list A) :
  n < 0 \/ Z.of_nat (List.length rows) <= n -> Sqlite.limit n rows = rows.
Proof.
  intros H. unfold Sqlite.limit.
  destruct (Z.ltb_spec n 0) as [_ | Hn]; [reflexivity |].
  apply firstn_all2. lia.
Qed.

Lemma match_all_leads_without_workers_aux (fs : nat -> faults)
      (now : timestamp) (db : DB) (service : string) (n : Z) :
  (forall w, In w (workers db) ->
             eligible (PyStr.lower service) w = false) ->
  match_all_leads fs now db service n = (0, db).
Proof.
  intros H. unfold match_all_leads.
  destruct (select_new_leads db service n) as [| l rest]; [reflexivity |].
  apply match_loop_no_workers. apply no_eligible_select_workers. exact H.
Qed.

Lemma match_all_leads_all_matched_aux (now : timestamp) (db : DB)
      (service : string) (n : Z) (w0 : Worker) :
  In w0 (workers db) ->
  eligible (PyStr.lower service) w0 = true ->
  fst (match_all_leads (fun _ => no_faults) now db service n)
  = Z.of_nat (List.length (select_new_leads db service n)) /\
  (forall l, In l (select_new_leads db service n) ->
             contacted_in
               (snd (match_all_leads (fun _ => no_faults) now db service n))
               (l_id l)).
Proof.
  intros Hin He. unfold match_all_leads.
  destruct (select_new_leads db service n) as [| l rest] eqn:E.
  - cbn [fst snd List.length]. split; [reflexivity | intros l []].
  - apply (match_loop_all_matched now service (l :: rest) 0 0 db).
    + exists w0. split; assumption.
    + intros x Hx. rewrite <- E in Hx.
      apply (select_new_leads_exist db service n x Hx).
Qed.

End MatchOutcomes.

(** X11.  When no worker is eligible for the service, [match_all_leads]
    returns 0 and leaves the database as it was: no lead changes status
    and no job is created. *)
Theorem match_all_leads_without_workers :
  forall (fs : nat -> JobMatcher.faults) (now : Store.timestamp)
         (db : Store.DB) (service : string) (max_matches : Z),
    (forall w, In w (Store.workers db) ->
               JobMatcher.eligible (PyStr.lower service) w = false) ->
    JobMatcher.match_all_leads fs now db service max_matches = (0%Z, db).
Proof.
  intros fs now db service n H.
  apply match_all_leads_without_workers_aux. exact H.
Qed.

Lemma match_all_leads_without_workers_witness :
  JobMatcher.match_all_leads (fun _ => JobMatcher.no_faults) 9%Z
    Fixtures.db_two_plumbers "roofing" 10%Z
  = (0%Z, Fixtures.db_two_plumbers).
Proof.
  apply match_all_leads_without_workers.
  intros w [<- | [<- | []]]; reflexivity.
Defined.

(** X12.  When no statement raises and at least one worker is eligible,
    [match_all_leads] creates a job for every lead it selected: the
    number it returns is the number of selected leads, and each of them
    is at status 'contacted' afterwards. *)
Theorem match_all_leads_matches_every_selected_lead :
  forall (now : Store.timestamp) (db : Store.DB) (service : string)
         (max_matches : Z) (w0 : Store.Worker),
    In w0 (Store.workers db) ->
    JobMatcher.eligible (PyStr.lower service) w0 = true ->
    let r := JobMatcher.match_all_leads (fun _ => JobMatcher.no_faults)
               now db service max_matches in
    fst r = Z.of_nat (List.length
                        (JobMatcher.select_new_leads db service
                                                     max_matches)) /\
    (forall l, In l (JobMatcher.select_new_leads db service max_matches) ->
               contacted_in (snd r) (Store.l_id l)).
Proof.
  intros now db service n w0 Hin He r. subst r.
  apply (match_all_leads_all_matched_aux now db service n w0 Hin He).
Qed.

Lemma match_all_leads_matches_every_selected_lead_witness :
  contacted_in
    (snd (JobMatcher.match_all_leads (fun _ => JobMatcher.no_faults) 9%Z
            Fixtures.db_two_plumbers "plumbing" 10%Z)) 1%Z.
Proof.
  apply (proj2 (match_all_leads_matches_every_selected_lead 9%Z
                  Fixtures.db_two_plumbers "plumbing" 10%Z Fixtures.asha
                  (or_introl eq_refl) eq_refl) Fixtures.hotel).
  left. reflexivity.
Defined.

(** X13.  Re-running the match creates no duplicate jobs: after a run of
    [match_all_leads] in which no statement raised and whose limit did
    not cut the selection short, a second run for the same service
    returns 0 and changes nothing. *)
Theorem match_all_leads_rerun_creates_nothing :
  forall (fs : nat -> JobMatcher.faults) (now now' : Store.timestamp)
         (db : Store.DB) (service : string) (max_matches max_matches' : Z),
    (max_matches < 0 \/
     Z.of_nat (List.length (JobMatcher.select_new_leads db service (-1)))
     <= max_matches)%Z ->
    let db' := snd (JobMatcher.match_all_leads
                      (fun _ => JobMatcher.no_faults) now db service
                      max_matches) in
    JobMatcher.match_all_leads fs now' db' service max_matches' = (0%Z, db').
Proof.
  intros fs now now' db service n n' Hcut db'.
  destruct (JobMatcher.select_workers db (PyStr.lower service))
    as [| w0 rest0] eqn:Ew.
  - assert (Hno : forall w, In w (Store.workers db) ->
                            JobMatcher.eligible (PyStr.lower service) w
                            = false).
    { intros w Hin.
      destruct (JobMatcher.eligible (PyStr.lower service) w) eqn:E;
        [| reflexivity].
      assert (Hs : In w (JobMatcher.select_workers db (PyStr.lower service)))
        by (apply select_workers_In; split; assumption).
      rewrite Ew in Hs. destruct Hs. }
    assert (Edb : db' = db).
    { subst db'. rewrite match_all_leads_without_workers_aux; auto. }
    rewrite Edb. apply match_all_leads_without_workers_aux. exact Hno.
  - assert (Hw0 : In w0 (Store.workers db) /\
                  JobMatcher.eligible (PyStr.lower service) w0 = true).
    { apply select_workers_In. rewrite Ew. left. reflexivity. }
    destruct Hw0 as [Hin0 He0].
    assert (Hsel : JobMatcher.select_new_leads db' service n' = []).
    { destruct (JobMatcher.select_new_leads db' service n') as [| l rest]
        eqn:E; [reflexivity |]. exfalso.
      assert (Hl : In l (JobMatcher.select_new_leads db' service n'))
        by (rewrite E; left; reflexivity).
      apply select_new_leads_spec in Hl. destruct Hl as (Hin & Hnew & Hcat).
      assert (Hold : In l (Store.leads db)).
      { subst db'. unfold JobMatcher.match_all_leads in Hin.
        destruct (JobMatcher.select_new_leads db service n) as [| x xs];
          [exact Hin |].
        apply match_loop_untouched in Hin. destruct Hin as [Hc | Hin];
          [| exact Hin].
        rewrite Hnew in Hc. discriminate Hc. }
      assert (Hsel0 : In l (JobMatcher.select_new_leads db service n)).
      { unfold JobMatcher.select_new_leads in *.
        rewrite limit_all.
        - apply filter_In. split; [exact Hold |].
          rewrite Hnew. cbn [String.eqb]. rewrite Hcat. reflexivity.
        - rewrite limit_all in Hcut by (left; lia). exact Hcut. }
      pose proof (proj2 (match_all_leads_all_matched_aux now db service n w0
                           Hin0 He0) l Hsel0) as Hc.
      fold db' in Hc. specialize (Hc l Hin eq_refl).
      rewrite Hnew in Hc. discriminate Hc. }
    unfold JobMatcher.match_all_leads at 1. rewrite Hsel. reflexivity.
Qed.

Lemma match_all_leads_rerun_creates_nothing_witness :
  let db' := snd (JobMatcher.match_all_leads
                    (fun _ => JobMatcher.no_faults) 9%Z
                    Fixtures.db_two_plumbers "plumbing" (-1)%Z) in
  JobMatcher.match_all_leads (fun _ => JobMatcher.no_faults) 10%Z db'
    "plumbing" 50%Z
  = (0%Z, db').
Proof.
  apply (match_all_leads_rerun_creates_nothing
           (fun _ => JobMatcher.no_faults) 9%Z 10%Z
           Fixtures.db_two_plumbers "plumbing" (-1)%Z 50%Z).
  left. lia.
Defined.

(** ** The lookup cache: further properties *)

Section CacheMore.
Import Store Console LeadCollector.
Open Scope Z_scope.

Variable md5_hexdigest : string -> string.

(** Dropping rows keeps the remaining hashes distinct. *)
Lemma kept_hashes_unique (keep : CachedQuery -> bool)
      (rows : list CachedQuery) :
  NoDup (map c_query_hash rows) ->
  NoDup (map c_query_hash (filter keep rows)).
Proof.
  induction rows as [| row rest IH]; intros Hrows; cbn [filter map];
    [constructor |].
  cbn [map] in Hrows. apply NoDup_cons_iff in Hrows.
  destruct Hrows as [Hfresh Hrest]. specialize (IH Hrest).
  destruct (keep row); [| exact IH].
  cbn [map]. apply NoDup_cons; [| exact IH].
  intros Hin. apply Hfresh. apply in_map_iff in Hin.
  destruct Hin as (other & Ehash & Hother).
  apply filter_In in Hother. destruct Hother as [Hother _].
  rewrite <- Ehash. apply in_map. exact Hother.
Qed.

Lemma cache_results_unique (db : DB) (key : string) (results : list Item)
      (now : timestamp) :
  hashes_unique db -> hashes_unique (_cache_results db key results now).
Proof.
  unfold hashes_unique, _cache_results. cbn [api_cache]. intros H.
  rewrite map_app. cbn [map c_query_hash]. apply NoDup_snoc.
  - apply kept_hashes_unique. exact H.
  - intros Hin. apply in_map_iff in Hin. destruct Hin as (c & Ec & Hc).
    apply filter_In in Hc. destruct Hc as [_ Hc].
    rewrite Ec, String.eqb_refl in Hc. discriminate Hc.
Qed.

(** The three shapes of a [search_nominatim] outcome. *)
Lemma search_nominatim_cases (have : bool) (now : timestamp) (db : DB)
      (city query : string) (resp : response) :
  let r := search_nominatim md5_hexdigest have now db city query resp in
  let key := _get_cache_key md5_hexdigest
               (SecurityValidator.sanitize_string city 100)
               (SecurityValidator.sanitize_string query 100) in
  (lk_requests r = 0%nat /\ lk_db r = db) \/
  (lk_requests r = 1%nat /\ lk_db r = db /\ lk_results r = [] /\
   (resp = Timeout \/ resp = RequestException)) \/
  (lk_requests r = 1%nat /\
   exists results,
     resp = Success results /\ lk_results r = results /\
     lk_db r = _cache_results db key results now).
Proof.
  intros r key. subst r key. unfold search_nominatim.
  destruct have; cbn [negb]; [| left; split; reflexivity].
  destruct (negb (PyStr.nonempty _) || negb (PyStr.nonempty _));
    [left; split; reflexivity |].
  destruct (cached_truthy _); [left; split; reflexivity |].
  destruct resp as [results | |]; cbn [lk_requests lk_db lk_results].
  - right. right. split; [reflexivity |]. exists results. auto.
  - right. left. auto.
  - right. left. auto.
Qed.

Lemma lower_char_idempotent (c : ascii) :
  PyStr.lower_char (PyStr.lower_char c) = PyStr.lower_char c.
Proof.
  destruct c as [[] [] [] [] [] [] [] []]; reflexivity.
Qed.





(** A request answered successfully stores the response. *)
Lemma successful_miss_stored (t : timestamp) (db : DB) (city query : string)
      (results : list Item) :
  lk_requests (search_nominatim md5_hexdigest true t db city query
                 (Success results)) = 1%nat ->
  PyStr.nonempty (SecurityValidator.sanitize_string city 100) = true /\
  PyStr.nonempty (SecurityValidator.sanitize_string query 100) = true /\
  lk_db (search_nominatim md5_hexdigest true t db city query
           (Success results))
  = _cache_results db
      (_get_cache_key md5_hexdigest
         (SecurityValidator.sanitize_string city 100)
         (SecurityValidator.sanitize_string query 100))
      results t.
Proof.
  unfold search_nominatim. cbn [negb].
  destruct (PyStr.nonempty (SecurityValidator.sanitize_string city 100));
    cbn [negb orb]; [| discriminate].
  destruct (PyStr.nonempty (SecurityValidator.sanitize_string query 100));
    cbn [negb orb]; [| discriminate].
  destruct (cached_truthy _); [discriminate |].
  intros _. auto.
Qed.

End CacheMore.

(** X14.  [search_nominatim] sends at most one request, never touches
    leads, workers or jobs, and writes to the cache only after a
    successful response: after a timeout or another request failure the
    database is as before and the result is the empty list. *)
Theorem search_nominatim_caches_only_success :
  forall (md5_hexdigest : string -> string) (have_requests : bool)
         (now : Store.timestamp) (db : Store.DB) (city query : string)
         (resp : LeadCollector.response),
    let r := LeadCollector.search_nominatim md5_hexdigest have_requests
               now db city query resp in
    (LeadCollector.lk_requests r <= 1)%nat /\
    Store.leads (LeadCollector.lk_db r) = Store.leads db /\
    Store.workers (LeadCollector.lk_db r) = Store.workers db /\
    Store.jobs (LeadCollector.lk_db r) = Store.jobs db /\
    ((forall results, resp <> LeadCollector.Success results) ->
     LeadCollector.lk_db r = db /\
     (LeadCollector.lk_requests r = 1%nat ->
      LeadCollector.lk_results r = [])) /\
    (LeadCollector.lk_db r <> db ->
     exists results,
       resp = LeadCollector.Success results /\
       LeadCollector.lk_results r = results /\
       LeadCollector.lk_requests r = 1%nat).
Proof.
  intros md5 have now db city query resp r.
  destruct (search_nominatim_cases md5 have now db city query resp)
    as [[Hq Hd] | [(Hq & Hd & Hr & _) | (Hq & results & Hs & Hr & Hd)]];
    fold r in Hq, Hd; try fold r in Hr.
  - rewrite Hq, Hd.
    split; [lia |]. split; [reflexivity |]. split; [reflexivity |].
    split; [reflexivity |]. split.
    + intros _. split; [reflexivity | discriminate].
    + intros H. contradiction.
  - rewrite Hq, Hd.
    split; [lia |]. split; [reflexivity |]. split; [reflexivity |].
    split; [reflexivity |]. split.
    + intros _. split; [reflexivity | intros _; exact Hr].
    + intros H. contradiction.
  - rewrite Hq, Hd. unfold LeadCollector._cache_results.
    cbn [Store.leads Store.workers Store.jobs].
    split; [lia |]. split; [reflexivity |]. split; [reflexivity |].
    split; [reflexivity |]. split.
    + intros H. exfalso. exact (H results Hs).
    + intros _. exists results. auto.
Qed.

Lemma search_nominatim_caches_only_success_witness :
  LeadCollector.lk_db
    (LeadCollector.search_nominatim (fun s => s) true 0%Z Fixtures.db_empty
       "Mumbai" "hotel" LeadCollector.Timeout)
  = Fixtures.db_empty.
Proof.
  apply (search_nominatim_caches_only_success (fun s => s) true 0%Z
           Fixtures.db_empty "Mumbai" "hotel" LeadCollector.Timeout).
  intros results H. discriminate H.
Defined.

(** X15.  A successful lookup with a non-empty result, made at time [t]
    because the cache held no live entry, is replayed from the cache at
    any time before [t] + 24 hours: same results, no request, database
    untouched.  From [t] + 24 hours on the same lookup sends a request
    again. *)
Theorem nonempty_lookup_cached_for_24_hours :
  forall (md5_hexdigest : string -> string) (t now : Store.timestamp)
         (db : Store.DB) (city query : string) (x : Store.Item)
         (rest : list Store.Item) (resp : LeadCollector.response),
    let first :=
      LeadCollector.search_nominatim md5_hexdigest true t db city query
        (LeadCollector.Success (x :: rest)) in
    let again :=
      LeadCollector.search_nominatim md5_hexdigest true now
        (LeadCollector.lk_db first) city query resp in
    LeadCollector.lk_requests first = 1%nat ->
    ((now < t + LeadCollector.hours 24)%Z ->
     again = LeadCollector.mkLookup (x :: rest) (LeadCollector.lk_db first)
               0 [Console.print_info Console.UsingCachedResults]) /\
    ((t + LeadCollector.hours 24 <= now)%Z ->
     LeadCollector.lk_requests again = 1%nat).
Proof.
  intros md5 t now db city query x rest resp first again Hmiss.
  destruct (successful_miss_stored md5 t db city query (x :: rest) Hmiss)
    as (Ec & Eq & Hdb).
  subst again. fold first in Hdb. rewrite Hdb. split; intros Hnow.
  - apply live_nonempty_entry_served; [exact Ec | exact Eq |].
    rewrite cached_after_store.
    apply Z.ltb_lt in Hnow. rewrite Hnow. reflexivity.
  - apply no_live_entry_requests; [exact Ec | exact Eq |].
    rewrite cached_after_store.
    apply Z.ltb_ge in Hnow. rewrite Hnow. reflexivity.
Qed.

Lemma nonempty_lookup_cached_for_24_hours_witness :
  let first :=
    LeadCollector.search_nominatim (fun s => s) true 0%Z Fixtures.db_empty
      "Mumbai" "hotel" (LeadCollector.Success [MoreFixtures.item_taj]) in
  LeadCollector.search_nominatim (fun s => s) true
    (LeadCollector.hours 1) (LeadCollector.lk_db first) "Mumbai" "hotel"
    LeadCollector.Timeout
  = LeadCollector.mkLookup [MoreFixtures.item_taj]
      (LeadCollector.lk_db first) 0
      [Console.print_info Console.UsingCachedResults].
Proof.
  intros first.
  apply (proj1 (nonempty_lookup_cached_for_24_hours (fun s => s) 0%Z
                  (LeadCollector.hours 1) Fixtures.db_empty "Mumbai" "hotel"
                  MoreFixtures.item_taj [] LeadCollector.Timeout
                  eq_refl)).
  reflexivity.
Defined.

(** X16.  [search_nominatim] keeps the cache keys unique: if no two
    cache rows share a [query_hash] before the call, none do after it. *)
Theorem search_nominatim_keeps_hashes_unique :
  forall (md5_hexdigest : string -> string) (have_requests : bool)
         (now : Store.timestamp) (db : Store.DB) (city query : string)
         (resp : LeadCollector.response),
    hashes_unique db ->
    hashes_unique
      (LeadCollector.lk_db
         (LeadCollector.search_nominatim md5_hexdigest have_requests
            now db city query resp)).
Proof.
  intros md5 have now db city query resp H.
  destruct (search_nominatim_cases md5 have now db city query resp)
    as [[_ Hd] | [(_ & Hd & _) | (_ & results & _ & _ & Hd)]];
    rewrite Hd; [exact H | exact H |].
  apply cache_results_unique. exact H.
Qed.

Lemma search_nominatim_keeps_hashes_unique_witness :
  hashes_unique
    (LeadCollector.lk_db
       (LeadCollector.search_nominatim (fun s => s) true 0%Z
          Fixtures.db_empty "Mumbai" "hotel"
          (LeadCollector.Success [MoreFixtures.item_taj]))).
Proof.
  apply search_nominatim_keeps_hashes_unique. constructor.
Defined.


(** ** Lead collection *)

Section CollectFacts.
Import Store LeadCollector SecurityValidator Batches.
Open Scope Z_scope.

Lemma cleared_or_valid (valid : string -> bool) (s : string) :
  let s' := if PyStr.nonempty s && negb (valid s) then "" else s in
  s' = "" \/ valid s' = true.
Proof.
  intros s'. subst s'. destruct s as [| c s]; [left; reflexivity |].
  cbn [PyStr.nonempty andb].
  destruct (valid (String c s)) eqn:E; cbn [negb];
    [right; exact E | left; reflexivity].
Qed.

Lemma validate_coordinates_range (lat lon : R) :
  validate_coordinates lat lon = true ->
  (-90 <= lat <= 90)%R /\ (-180 <= lon <= 180)%R.
Proof.
  unfold validate_coordinates.
  destruct (Rle_dec (-90) lat), (Rle_dec lat 90), (Rle_dec (-180) lon),
    (Rle_dec lon 180); cbn [andb]; intros H; try discriminate H.
  split; split; assumption.
Qed.

Lemma same_float_refl (x : R) : same_float (Some x) x = true.
Proof.
  unfold same_float. destruct (Req_dec_T x x); [reflexivity | contradiction].
Qed.

(** What one iteration of the collection loop does to the store. *)
Lemma collect_item_cases (now : timestamp) (service : string) (db : DB)
      (item : Item) :
  let r := collect_item now service db item in
  (fst r <> RowAdded /\ snd r = db) \/
  (fst r = RowAdded /\
   exists (row : Lead) (lat lon : R),
     snd r = mkDB (leads db ++ [row]) (workers db) (jobs db) (api_cache db)
                  (l_id row) (seq_workers db) (seq_jobs db) /\
     lead_row_ok row /\ l_category row = service /\
     it_lat item = Some lat /\ it_lon item = Some lon /\
     l_lat row = Some lat /\ l_lon row = Some lon /\
     l_name row
     = sanitize_string (default "Unknown" (it_display_name item))
                       Config.MAX_NAME_LENGTH /\
     lead_conflict db (l_name row) lat lon = false).
Proof.
  intros r. subst r. unfold collect_item.
  destruct (it_lat item) as [lat |];
    [| left; split; [discriminate | reflexivity]].
  destruct (it_lon item) as [lon |];
    [| left; split; [discriminate | reflexivity]].
  destruct (validate_coordinates lat lon) eqn:Ev; cbn [negb];
    [| left; split; [discriminate | reflexivity]].
  destruct (lead_conflict db _ lat lon) eqn:Ec;
    [left; split; [discriminate | reflexivity] |].
  right. split; [reflexivity |]. cbn [snd].
  match goal with
  | |- context [(leads db ++ [?r])%list] => exists r
  end.
  exists lat, lon. split; [reflexivity |].
  cbn [l_id l_category l_lat l_lon l_name].
  split.
  { unfold lead_row_ok.
    cbn [l_status l_source l_phone l_email l_lat l_lon].
    split; [reflexivity |]. split; [reflexivity |].
    split; [apply (cleared_or_valid validate_phone) |].
    split; [apply (cleared_or_valid validate_email) |].
    exists lat, lon. apply validate_coordinates_range in Ev. tauto. }
  repeat split; try reflexivity. exact Ec.
Qed.

Lemma collect_loop_frame (now : timestamp) (service : string)
      (results : list Item) :
  forall (added dups : Z) (db : DB),
    let r := collect_loop now service results added dups db in
    exists new_rows,
      leads (snd r) = (leads db ++ new_rows)%list /\
      Forall lead_row_ok new_rows /\
      Forall (fun l => l_category l = service) new_rows /\
      fst (fst r) = added + Z.of_nat (List.length new_rows) /\
      added <= fst (fst r) <= added + Z.of_nat (List.length results) /\
      workers (snd r) = workers db /\ jobs (snd r) = jobs db /\
      api_cache (snd r) = api_cache db.
Proof.
  induction results as [| item rest IH]; intros added dups db r; subst r.
  - cbn [collect_loop fst snd List.length]. exists [].
    rewrite app_nil_r. cbn [List.length].
    repeat split; try constructor; try lia.
  - cbn [collect_loop].
    pose proof (collect_item_cases now service db item) as Hc.
    destruct (collect_item now service db item) as [o db1].
    cbn [fst snd] in Hc.
    destruct Hc as [[Hne ->] | (-> & row & lat & lon & -> & Hok & Hcat & _)].
    + destruct o; [contradiction | |];
        [ destruct (IH added (dups + 1) db)
            as (new_rows & H1 & H2 & H3 & H4 & H5 & H6)
        | destruct (IH added dups db)
            as (new_rows & H1 & H2 & H3 & H4 & H5 & H6) ];
        (exists new_rows; cbn [List.length];
         split; [exact H1 |]; split; [exact H2 |]; split; [exact H3 |];
         split; [exact H4 |]; split; [lia | exact H6]).
    + destruct (IH (added + 1) dups
                   (mkDB (leads db ++ [row]) (workers db) (jobs db)
                         (api_cache db) (l_id row) (seq_workers db)
                         (seq_jobs db)))
        as (new_rows & H1 & H2 & H3 & H4 & H5 & H6).
      cbn [leads workers jobs api_cache] in H1, H6.
      exists (row :: new_rows). cbn [List.length].
      split; [rewrite H1, <- app_assoc; reflexivity |].
      split; [constructor; assumption |].
      split; [constructor; assumption |].
      split; [lia |]. split; [lia | exact H6].
Qed.

End CollectFacts.

(** X18.  Duplicate leads are suppressed: once [collect_leads] has
    stored a lookup result, handling the same result again, at any time
    and for any service, reports a duplicate and leaves the store as it
    is. *)
Theorem collect_item_twice_is_duplicate :
  forall (now now' : Store.timestamp) (service service' : string)
         (db db1 : Store.DB) (item : Store.Item),
    LeadCollector.collect_item now service db item
    = (LeadCollector.RowAdded, db1) ->
    LeadCollector.collect_item now' service' db1 item
    = (LeadCollector.RowDuplicate, db1).
Proof.
  intros now now' service service' db db1 item H.
  pose proof (collect_item_cases now service db item) as Hc.
  rewrite H in Hc. cbn [fst snd] in Hc.
  destruct Hc as [[Hne _] | (_ & row & lat & lon & -> & Hok & _ & Hlat & Hlon
                              & Hrlat & Hrlon & Hname & _)];
    [contradiction |].
  destruct Hok as (_ & _ & _ & _ & (x & y & _ & _ & Hx & Hy)).
  assert (Hv : SecurityValidator.validate_coordinates lat lon = true).
  { revert H. unfold LeadCollector.collect_item. rewrite Hlat, Hlon.
    destruct (SecurityValidator.validate_coordinates lat lon);
      [reflexivity | cbn [negb]; discriminate]. }
  unfold LeadCollector.collect_item. rewrite Hlat, Hlon, Hv. cbn [negb].
  rewrite <- Hname.
  assert (Hconf : LeadCollector.lead_conflict
                    (Store.mkDB (Store.leads db ++ [row]) (Store.workers db)
                                (Store.jobs db) (Store.api_cache db)
                                (Store.l_id row) (Store.seq_workers db)
                                (Store.seq_jobs db))
                    (Store.l_name row) lat lon = true).
  { unfold LeadCollector.lead_conflict. cbn [Store.leads].
    rewrite existsb_app. cbn [existsb].
    rewrite String.eqb_refl, Hrlat, Hrlon, !same_float_refl.
    cbn [andb orb]. apply orb_true_r. }
  rewrite Hconf. reflexivity.
Qed.

Lemma collect_taj :
  LeadCollector.collect_item 0%Z "hotel" Fixtures.db_empty
    MoreFixtures.item_taj
  = (LeadCollector.RowAdded,
     Store.mkDB
       [Store.mkLead 1 "Taj Hotel, Mumbai" "hotel" "Taj Hotel, Mumbai"
                     (Some 19%R) (Some 72%R) "" "desk@taj.example"
                     "nominatim" "new" 0%Z None]
       [] [] [] 1 0 0).
Proof.
  unfold LeadCollector.collect_item.
  cbn [Store.it_lat Store.it_lon MoreFixtures.item_taj].
  unfold SecurityValidator.validate_coordinates. decide_R.
  cbn [andb negb]. reflexivity.
Qed.

Lemma collect_item_twice_is_duplicate_witness :
  exists db1,
    LeadCollector.collect_item 0%Z "hotel" Fixtures.db_empty
      MoreFixtures.item_taj = (LeadCollector.RowAdded, db1) /\
    LeadCollector.collect_item 7%Z "hotels" db1 MoreFixtures.item_taj
    = (LeadCollector.RowDuplicate, db1).
Proof.
  eexists. split; [exact collect_taj |].
  apply (collect_item_twice_is_duplicate 0%Z 7%Z "hotel" "hotels"
           Fixtures.db_empty _ MoreFixtures.item_taj collect_taj).
Defined.

(** X19.  [collect_leads] only appends lead rows.  The number it returns
    is the number of rows appended, at most the number of lookup
    results; each new row has the requested service as category, status
    'new', source 'nominatim', coordinates within [-90, 90] x
    [-180, 180] and a phone and an email that are empty or of valid
    format.  Workers and jobs are untouched. *)
Theorem collect_leads_appends_clean_rows :
  forall (md5_hexdigest : string -> string) (have_requests : bool)
         (now : Store.timestamp) (db : Store.DB) (city service : string)
         (resp : LeadCollector.response),
    let r := Batches.collect_leads md5_hexdigest have_requests now db
                                   city service resp in
    exists new_rows : list Store.Lead,
      Store.leads (snd r) = (Store.leads db ++ new_rows)%list /\
      fst r = Z.of_nat (List.length new_rows) /\
      Forall lead_row_ok new_rows /\
      Forall (fun l => Store.l_category l = service) new_rows /\
      (List.length new_rows
       <= List.length
            (LeadCollector.lk_results
               (LeadCollector.search_nominatim md5_hexdigest have_requests
                  now db city service resp)))%nat /\
      Store.workers (snd r) = Store.workers db /\
      Store.jobs (snd r) = Store.jobs db.
Proof.
  intros md5 have now db city service resp r. subst r.
  unfold Batches.collect_leads.
  destruct (search_nominatim_caches_only_success md5 have now db city
              service resp) as (_ & Hl & Hw & Hj & _).
  set (lk := LeadCollector.search_nominatim md5 have now db city service
               resp) in *.
  destruct (LeadCollector.lk_results lk) as [| item rest] eqn:E.
  - exists []. cbn [fst snd List.length]. rewrite app_nil_r.
    repeat split; try assumption; try constructor.
  - pose proof (collect_loop_frame now service (item :: rest) 0 0
                  (LeadCollector.lk_db lk)) as H.
    cbn zeta in H.
    destruct (Batches.collect_loop now service (item :: rest) 0 0
                (LeadCollector.lk_db lk)) as [[added dups] db'].
    cbn [fst snd] in H |- *.
    destruct H as (new_rows & H1 & H2 & H3 & H4 & H5 & H6 & H7 & _).
    exists new_rows. rewrite H1, Hl, H6, H7, Hw, Hj.
    repeat split; try assumption; try lia.
Qed.

(** ** Worker management *)

Section WorkerFacts.
Import Store WorkerManager SecurityValidator Batches.
Open Scope Z_scope.

Lemma forallb_filter_keep (p q : ascii -> bool) (s : PyStr.text) :
  forallb p s = true -> forallb p (filter q s) = true.
Proof.
  induction s as [| c s IH]; [reflexivity |]. cbn [forallb filter].
  intros H. apply andb_true_iff in H. destruct H as [Hc Hs].
  destruct (q c); [cbn [forallb]; rewrite Hc |]; apply IH; exact Hs.
Qed.

Lemma map_fixed (f : ascii -> ascii) (s : PyStr.text) :
  forallb (fun c => Ascii.eqb (f c) c) s = true -> map f s = s.
Proof.
  induction s as [| c s IH]; [reflexivity |]. cbn [forallb map].
  intros H. apply andb_true_iff in H. destruct H as [Hc Hs].
  apply Ascii.eqb_eq in Hc. rewrite Hc, IH by exact Hs. reflexivity.
Qed.

(** Sanitizing a lower-cased string gives a lower-case string. *)
Lemma sanitize_lower_is_lower (s : string) (n : nat) :
  PyStr.lower (sanitize_string (PyStr.lower s) n)
  = sanitize_string (PyStr.lower s) n.
Proof.
  rewrite <- (string_of_list_ascii_of_string
                (sanitize_string (PyStr.lower s) n)) at 2.
  unfold PyStr.lower at 1. f_equal.
  rewrite sanitize_string_chars, lower_chars.
  apply map_fixed. apply strip_text_forallb. apply forallb_firstn.
  apply forallb_filter_keep. unfold PyStr.lower_text.
  rewrite forallb_forall. intros c Hc. apply in_map_iff in Hc.
  destruct Hc as (c0 & <- & _). rewrite lower_char_idempotent.
  apply Ascii.eqb_refl.
Qed.

Lemma import_coordinates_in_range (lat lon : option R) :
  let p := match lat, lon with
           | Some x, Some y =>
               if negb (validate_coordinates x y) then (0%R, 0%R) else (x, y)
           | _, _ => (0%R, 0%R)
           end in
  coords_in_range (Some (fst p)) (Some (snd p)).
Proof.
  assert (Z0 : coords_in_range (Some 0%R) (Some 0%R)).
  { exists 0%R, 0%R. repeat split; lra. }
  intros p. subst p. destruct lat as [x |], lon as [y |]; try exact Z0.
  destruct (validate_coordinates x y) eqn:E; cbn [negb fst snd];
    [| exact Z0].
  exists x, y. apply validate_coordinates_range in E. tauto.
Qed.

Lemma insert_worker_cases (now : timestamp) (db : DB)
      (name skills phone email : string) (lat lon : R) :
  (insert_worker now db name skills phone email lat lon = None /\
   phone_conflict db phone = true) \/
  (phone_conflict db phone = false /\
   exists id,
     ~ In id (map w_id (workers db)) /\
     insert_worker now db name skills phone email lat lon
     = Some (id,
             mkDB (leads db)
                  (workers db
                   ++ [mkWorker id name skills phone email (Some lat)
                                (Some lon) "active" 0 0 now])
                  (jobs db) (api_cache db) (seq_leads db) id (seq_jobs db))).
Proof.
  unfold insert_worker. destruct (phone_conflict db phone);
    [left; split; reflexivity |].
  right. split; [reflexivity |]. eexists.
  split; [apply next_rowid_fresh | reflexivity].
Qed.

(** What one iteration of the import loop does to the store. *)
Lemma import_row_cases (row_num : Z) (now : timestamp) (db : DB)
      (row : CsvRow) :
  let r := import_row row_num now db row in
  (snd (fst r) = RowError /\ snd r = db) \/
  (snd (fst r) = RowImported /\
   exists w,
     snd r = mkDB (leads db) (workers db ++ [w]) (jobs db) (api_cache db)
                  (seq_leads db) (w_id w) (seq_jobs db) /\
     worker_row_ok w /\ phone_conflict db (w_phone w) = false /\
     ~ In (w_id w) (map w_id (workers db)) /\
     w_phone w
     = (if PyStr.nonempty
             (sanitize_string (csv_phone row) Config.MAX_PHONE_LENGTH)
           && negb (validate_phone
                      (sanitize_string (csv_phone row)
                                       Config.MAX_PHONE_LENGTH))
        then ""
        else sanitize_string (csv_phone row) Config.MAX_PHONE_LENGTH)).
Proof.
  intros r. subst r. unfold import_row.
  set (name := sanitize_string _ Config.MAX_NAME_LENGTH).
  set (skills := sanitize_string (PyStr.lower (csv_skills row)) _).
  set (phone := if PyStr.nonempty (sanitize_string (csv_phone row) _) && _
                then "" else _).
  set (email := if PyStr.nonempty (sanitize_string (csv_email row) _) && _
                then "" else _).
  destruct (PyStr.nonempty name) eqn:En; cbn [negb orb];
    [| left; split; reflexivity].
  destruct (PyStr.nonempty skills) eqn:Es; cbn [negb];
    [| left; split; reflexivity].
  pose proof (import_coordinates_in_range (csv_lat row) (csv_lon row)) as Hc.
  cbn zeta in Hc.
  destruct (match csv_lat row, csv_lon row with
            | Some x, Some y =>
                if negb (validate_coordinates x y) then (0%R, 0%R)
                else (x, y)
            | _, _ => (0%R, 0%R)
            end) as [lat lon].
  cbn [fst snd] in Hc.
  destruct (insert_worker_cases now db name skills phone email lat lon)
    as [[-> _] | (Hconf & id & Hfresh & ->)];
    [left; split; reflexivity |].
  right. split; [reflexivity |]. cbn [snd].
  match goal with
  | |- context [(workers db ++ [?x])%list] => exists x
  end.
  split; [reflexivity |]. cbn [w_id w_phone].
  split; [| split; [assumption | split; [assumption | reflexivity]]].
  unfold worker_row_ok.
  cbn [w_status w_rating w_jobs_completed w_name w_skills w_phone w_email
       w_lat w_lon].
  split; [reflexivity |]. split; [reflexivity |]. split; [reflexivity |].
  split; [apply nonempty_iff; exact En |].
  split; [apply nonempty_iff; exact Es |].
  split; [apply sanitize_lower_is_lower |].
  split; [apply (cleared_or_valid validate_phone) |].
  split; [apply (cleared_or_valid validate_email) | exact Hc].
Qed.

Lemma phones_unique_snoc (db : DB) (w : Worker) (l : list Lead)
      (j : list Job) (c : list CachedQuery) (a b d : Z) :
  phones_unique db -> phone_conflict db (w_phone w) = false ->
  phones_unique (mkDB l (workers db ++ [w]) j c a b d).
Proof.
  unfold phones_unique, phone_conflict. cbn [workers]. intros H Hc.
  rewrite map_app. cbn [map]. apply NoDup_snoc; [exact H |].
  intros Hin. apply in_map_iff in Hin. destruct Hin as (x & Ex & Hx).
  assert (Ht : existsb (fun w0 => String.eqb (w_phone w0) (w_phone w))
                       (workers db) = true).
  { apply existsb_exists. exists x. split; [exact Hx |].
    apply String.eqb_eq. exact Ex. }
  congruence.
Qed.

Lemma import_loop_frame (now : timestamp) (rows : list CsvRow) :
  forall (row_num imported errors : Z) (db : DB),
    let r := import_loop now row_num rows imported errors db in
    exists new_rows,
      workers (snd r) = (workers db ++ new_rows)%list /\
      Forall worker_row_ok new_rows /\
      fst (fst r) = imported + Z.of_nat (List.length new_rows) /\
      snd (fst r)
      = errors + (Z.of_nat (List.length rows)
                  - Z.of_nat (List.length new_rows)) /\
      (List.length new_rows <= List.length rows)%nat /\
      (phones_unique db -> phones_unique (snd r)) /\
      leads (snd r) = leads db /\ jobs (snd r) = jobs db /\
      api_cache (snd r) = api_cache db.
Proof.
  induction rows as [| row rest IH];
    intros row_num imported errors db r; subst r.
  - cbn [import_loop fst snd List.length]. exists [].
    rewrite app_nil_r. cbn [List.length].
    split; [reflexivity |]. split; [constructor |]. split; [lia |].
    split; [lia |]. split; [lia |]. split; [tauto |].
    split; [reflexivity |]. split; reflexivity.
  - cbn [import_loop].
    pose proof (import_row_cases row_num now db row) as Hc.
    destruct (import_row row_num now db row) as [[out o] db1].
    cbn [fst snd] in Hc.
    destruct Hc as [[-> ->] | (-> & w & -> & Hok & Hconf & _)].
    + destruct (IH (row_num + 1) imported (errors + 1) db)
        as (new_rows & H1 & H2 & H3 & H4 & H5 & H6 & H7).
      exists new_rows. cbn [List.length].
      split; [exact H1 |]. split; [exact H2 |]. split; [exact H3 |].
      split; [lia |]. split; [lia |]. split; [exact H6 | exact H7].
    + destruct (IH (row_num + 1) (imported + 1) errors
                   (mkDB (leads db) (workers db ++ [w]) (jobs db)
                         (api_cache db) (seq_leads db) (w_id w) (seq_jobs db)))
        as (new_rows & H1 & H2 & H3 & H4 & H5 & H6 & H7).
      cbn [workers leads jobs api_cache] in H1, H7.
      exists (w :: new_rows). cbn [List.length].
      split; [rewrite H1, <- app_assoc; reflexivity |].
      split; [constructor; assumption |]. split; [lia |].
      split; [lia |]. split; [lia |]. split; [| exact H7].
      intros Hu. apply H6. apply phones_unique_snoc; assumption.
Qed.

End WorkerFacts.

(** X20.  [import_from_csv] only appends worker rows.  The number it
    returns is the number of rows appended, at most the number of CSV
    rows; each new worker is 'active' with rating 0 and no completed
    job, has a non-empty name and non-empty lower-case skills, a phone
    and an email that are empty or of valid format, and coordinates
    within range.  Phone numbers stay unique, and leads and jobs are
    untouched.  A missing file imports nothing. *)
Theorem import_from_csv_appends_clean_rows :
  forall (now : Store.timestamp) (db : Store.DB),
    Batches.import_from_csv now db None = (0%Z, db) /\
    forall rows : list WorkerManager.CsvRow,
      let r := Batches.import_from_csv now db (Some rows) in
      exists new_rows : list Store.Worker,
        Store.workers (snd r) = (Store.workers db ++ new_rows)%list /\
        fst r = Z.of_nat (List.length new_rows) /\
        (List.length new_rows <= List.length rows)%nat /\
        Forall worker_row_ok new_rows /\
        (phones_unique db -> phones_unique (snd r)) /\
        Store.leads (snd r) = Store.leads db /\
        Store.jobs (snd r) = Store.jobs db.
Proof.
  intros now db. split; [reflexivity |]. intros rows r. subst r.
  unfold Batches.import_from_csv.
  pose proof (import_loop_frame now rows 2 0 0 db) as H. cbn zeta in H.
  destruct (Batches.import_loop now 2 rows 0 0 db)
    as [[imported errors] db'].
  cbn [fst snd] in H |- *.
  destruct H as (new_rows & H1 & H2 & H3 & _ & H5 & H6 & H7 & H8 & _).
  exists new_rows.
  split; [exact H1 |]. split; [lia |]. split; [exact H5 |].
  split; [exact H2 |]. split; [exact H6 |]. split; assumption.
Qed.

Lemma import_from_csv_appends_clean_rows_witness :
  phones_unique
    (snd (Batches.import_from_csv 0%Z Fixtures.db_empty
            (Some [Fixtures.csv_bad_phone; Fixtures.csv_bad_phone]))).
Proof.
  destruct (proj2 (import_from_csv_appends_clean_rows 0%Z Fixtures.db_empty)
              [Fixtures.csv_bad_phone; Fixtures.csv_bad_phone])
    as (new_rows & _ & _ & _ & _ & H & _).
  apply H. constructor.
Defined.

Section AddWorkerFacts.
Import Store WorkerManager SecurityValidator Console.
Open Scope Z_scope.

Lemma not_rejected_ok (valid : string -> bool) (s : string) :
  PyStr.nonempty s && negb (valid s) = false ->
  s = "" \/ valid s = true.
Proof.
  destruct s as [| c s]; [left; reflexivity |]. cbn [PyStr.nonempty andb].
  destruct (valid (String c s)); [right; reflexivity | discriminate].
Qed.

Lemma add_worker_coordinates_in_range (lat lon : R) :
  let p := if negb (validate_coordinates lat lon) then (0%R, 0%R)
           else (lat, lon) in
  coords_in_range (Some (fst p)) (Some (snd p)).
Proof.
  intros p. subst p.
  destruct (validate_coordinates lat lon) eqn:E; cbn [negb fst snd].
  - exists lat, lon. apply validate_coordinates_range in E. tauto.
  - exists 0%R, 0%R. repeat split; lra.
Qed.

Lemma add_worker_cases (now : timestamp) (db : DB)
      (name skills phone email : string) (lat lon : R) :
  let r := add_worker now db name skills phone email lat lon in
  (snd (fst r) = false /\ snd r = db /\
   exists m, fst (fst r) = [print_error m]) \/
  (snd (fst r) = true /\
   exists w,
     snd r = mkDB (leads db) (workers db ++ [w]) (jobs db) (api_cache db)
                  (seq_leads db) (w_id w) (seq_jobs db) /\
     fst (fst r) = [print_success (AddedWorker (w_id w))] /\
     worker_row_ok w /\ phone_conflict db (w_phone w) = false /\
     w_phone w = sanitize_string phone Config.MAX_PHONE_LENGTH /\
     w_email w = sanitize_string email Config.MAX_EMAIL_LENGTH /\
     w_name w = sanitize_string name Config.MAX_NAME_LENGTH /\
     w_skills w = sanitize_string (PyStr.lower skills)
                                  Config.MAX_SKILLS_LENGTH).
Proof.
  intros r. subst r. unfold add_worker.
  set (name' := sanitize_string name _).
  set (skills' := sanitize_string (PyStr.lower skills) _).
  set (phone' := sanitize_string phone _).
  set (email' := sanitize_string email _).
  destruct (PyStr.nonempty name') eqn:En; cbn [negb orb];
    [| left; cbn [fst snd]; eauto].
  destruct (PyStr.nonempty skills') eqn:Es; cbn [negb];
    [| left; cbn [fst snd]; eauto].
  destruct (PyStr.nonempty phone' && negb (validate_phone phone')) eqn:Ep;
    [left; cbn [fst snd]; eauto |].
  destruct (PyStr.nonempty email' && negb (validate_email email')) eqn:Ee;
    [left; cbn [fst snd]; eauto |].
  pose proof (add_worker_coordinates_in_range lat lon) as Hc. cbn zeta in Hc.
  destruct (if negb (validate_coordinates lat lon) then (0%R, 0%R)
            else (lat, lon)) as [lat' lon'].
  cbn [fst snd] in Hc.
  destruct (insert_worker_cases now db name' skills' phone' email' lat' lon')
    as [[-> _] | (Hconf & id & Hfresh & ->)];
    [left; cbn [fst snd]; eauto |].
  right. cbn [fst snd]. split; [reflexivity |].
  match goal with
  | |- context [(workers db ++ [?x])%list] => exists x
  end.
  cbn [w_id w_phone w_email w_name w_skills].
  split; [reflexivity |]. split; [reflexivity |].
  split; [| repeat split; try reflexivity; exact Hconf].
  unfold worker_row_ok.
  cbn [w_status w_rating w_jobs_completed w_name w_skills w_phone w_email
       w_lat w_lon].
  split; [reflexivity |]. split; [reflexivity |]. split; [reflexivity |].
  split; [apply nonempty_iff; exact En |].
  split; [apply nonempty_iff; exact Es |].
  split; [apply sanitize_lower_is_lower |].
  split; [apply (not_rejected_ok validate_phone); exact Ep |].
  split; [apply (not_rejected_ok validate_email); exact Ee | exact Hc].
Qed.

End AddWorkerFacts.

(** X21.  [add_worker] either fails, printing an error, returning
    [False] and leaving the store as it was, or succeeds, returning
    [True] after appending exactly one worker: 'active', rating 0,
    with the sanitized name, lower-cased skills, phone and email it was
    given, the phone and email each empty or of valid format, and
    coordinates within range.  Phone numbers stay unique. *)
Theorem add_worker_all_or_nothing :
  forall (now : Store.timestamp) (db : Store.DB)
         (name skills phone email : string) (lat lon : R),
    let r := WorkerManager.add_worker now db name skills phone email
                                      lat lon in
    (snd (fst r) = false /\ snd r = db) \/
    (snd (fst r) = true /\
     exists w : Store.Worker,
       Store.workers (snd r) = (Store.workers db ++ [w])%list /\
       Store.leads (snd r) = Store.leads db /\
       Store.jobs (snd r) = Store.jobs db /\
       worker_row_ok w /\
       ~ In (Store.w_phone w) (map Store.w_phone (Store.workers db)) /\
       Store.w_phone w
       = SecurityValidator.sanitize_string phone Config.MAX_PHONE_LENGTH /\
       Store.w_email w
       = SecurityValidator.sanitize_string email Config.MAX_EMAIL_LENGTH /\
       Store.w_skills w
       = SecurityValidator.sanitize_string (PyStr.lower skills)
                                           Config.MAX_SKILLS_LENGTH /\
       (phones_unique db -> phones_unique (snd r))).
Proof.
  intros now db name skills phone email lat lon r.
  destruct (add_worker_cases now db name skills phone email lat lon)
    as [(H1 & H2 & _) | (H1 & w & Hdb & _ & Hok & Hconf & Hp & He & _ & Hs)];
    fold r in H1; try fold r in H2; try fold r in Hdb.
  - left. split; assumption.
  - right. split; [exact H1 |]. exists w. rewrite Hdb.
    cbn [Store.workers Store.leads Store.jobs].
    split; [reflexivity |]. split; [reflexivity |]. split; [reflexivity |].
    split; [exact Hok |]. split.
    + intros Hin. apply in_map_iff in Hin. destruct Hin as (x & Ex & Hx).
      assert (Ht : WorkerManager.phone_conflict db (Store.w_phone w) = true).
      { unfold WorkerManager.phone_conflict. apply existsb_exists.
        exists x. split; [exact Hx | apply String.eqb_eq; exact Ex]. }
      congruence.
    + split; [exact Hp |]. split; [exact He |]. split; [exact Hs |].
      intros Hu. apply phones_unique_snoc; assumption.
Qed.

Lemma add_worker_all_or_nothing_witness :
  phones_unique
    (snd (WorkerManager.add_worker 0%Z Fixtures.db_empty
            "Ravi" "Plumbing" "12ab" "" 0 0)).
Proof.
  destruct (add_worker_all_or_nothing 0%Z Fixtures.db_empty
              "Ravi" "Plumbing" "12ab" "" 0%R 0%R)
    as [[_ ->] | (_ & w & _ & _ & _ & _ & _ & _ & _ & _ & H)].
  - constructor.
  - apply H. constructor.
Defined.

(** X22.  The empty phone counts as a phone number for [UNIQUE(phone)]:
    once a stored worker has the empty phone, [import_from_csv] skips
    every further row whose phone is empty or fails validation, a row
    that has its name and skills with "Row n: Duplicate phone number,
    skipping" as the last warning printed for it, and [add_worker]
    without a phone fails. *)
Theorem second_worker_without_phone_is_rejected :
  forall (db : Store.DB) (w0 : Store.Worker),
    In w0 (Store.workers db) ->
    Store.w_phone w0 = "" ->
    (forall (row_num : Z) (now : Store.timestamp)
            (row : WorkerManager.CsvRow),
        SecurityValidator.validate_phone
          (SecurityValidator.sanitize_string (WorkerManager.csv_phone row)
                                             Config.MAX_PHONE_LENGTH)
        = false ->
        let r := WorkerManager.import_row row_num now db row in
        snd (fst r) = WorkerManager.RowError /\ snd r = db /\
        (PyStr.nonempty (SecurityValidator.sanitize_string
                           (WorkerManager.row_name row)
                           Config.MAX_NAME_LENGTH) = true ->
         PyStr.nonempty (SecurityValidator.sanitize_string
                           (PyStr.lower (WorkerManager.csv_skills row))
                           Config.MAX_SKILLS_LENGTH) = true ->
         exists before : list Console.printed,
           fst (fst r)
           = (before
              ++ [Console.print_warning
                    (Console.RowDuplicatePhone row_num)])%list)) /\
    (forall (now : Store.timestamp) (name skills email : string)
            (lat lon : R),
        snd (fst (WorkerManager.add_worker now db name skills "" email
                                           lat lon)) = false /\
        snd (WorkerManager.add_worker now db name skills "" email lat lon)
        = db).
Proof.
  intros db w0 Hin Hp.
  assert (Hconf : WorkerManager.phone_conflict db "" = true).
  { unfold WorkerManager.phone_conflict. apply existsb_exists.
    exists w0. split; [exact Hin | rewrite Hp; reflexivity]. }
  split.
  - intros row_num now row Hv r. subst r.
    assert (Hphone :
              (if PyStr.nonempty
                    (SecurityValidator.sanitize_string
                       (WorkerManager.csv_phone row) Config.MAX_PHONE_LENGTH)
                  && negb (SecurityValidator.validate_phone
                             (SecurityValidator.sanitize_string
                                (WorkerManager.csv_phone row)
                                Config.MAX_PHONE_LENGTH))
               then ""
               else SecurityValidator.sanitize_string
                      (WorkerManager.csv_phone row) Config.MAX_PHONE_LENGTH)
              = "").
    { rewrite Hv, andb_true_r.
      destruct (SecurityValidator.sanitize_string
                  (WorkerManager.csv_phone row) Config.MAX_PHONE_LENGTH);
        reflexivity. }
    unfold WorkerManager.import_row. rewrite Hphone.
    destruct (negb (PyStr.nonempty _) || negb (PyStr.nonempty _)) eqn:Ereq.
    + cbn [fst snd]. split; [reflexivity |]. split; [reflexivity |].
      intros H1 H2. rewrite H1, H2 in Ereq. discriminate Ereq.
    + destruct (match WorkerManager.csv_lat row, WorkerManager.csv_lon row
                with
                | Some x, Some y => _
                | _, _ => _
                end) as [lat lon].
      match goal with
      | |- context [WorkerManager.insert_worker now db ?n ?s "" ?e lat lon] =>
          destruct (insert_worker_cases now db n s "" e lat lon)
          as [[-> _] | (Hc & _)]
      end.
      * cbn [fst snd]. split; [reflexivity |]. split; [reflexivity |].
        intros _ _. eexists. rewrite app_assoc. reflexivity.
      * congruence.
  - intros now name skills email lat lon.
    destruct (add_worker_cases now db name skills "" email lat lon)
      as [(H1 & H2 & _) | (_ & w & _ & _ & _ & Hc & Hphone & _)].
    + split; assumption.
    + exfalso. rewrite Hphone in Hc.
      change (SecurityValidator.sanitize_string "" Config.MAX_PHONE_LENGTH)
        with "" in Hc.
      congruence.
Qed.

Lemma second_worker_without_phone_is_rejected_witness :
  snd (fst (WorkerManager.import_row 5%Z 0%Z MoreFixtures.db_ravi
              Fixtures.csv_bad_phone))
  = WorkerManager.RowError /\
  snd (WorkerManager.import_row 5%Z 0%Z MoreFixtures.db_ravi
         Fixtures.csv_bad_phone)
  = MoreFixtures.db_ravi.
Proof.
  destruct (proj1 (second_worker_without_phone_is_rejected
                     MoreFixtures.db_ravi
                     (Store.mkWorker 1 "Ravi" "plumbing" "" "" (Some 0%R)
                                     (Some 0%R) "active" 0 0 0%Z)
                     (or_introl eq_refl) eq_refl)
                  5%Z 0%Z Fixtures.csv_bad_phone eq_refl)
    as (Ho & Hdb & _).
  split; assumption.
Defined.

(** ** The empty service string *)

Section EmptyService.
Import PyStr Sqlite.
Local Open Scope list_scope.

Lemma like_anything (s : string) : like s "%%" = true.
Proof.
  unfold like. cbn [list_ascii_of_string].
  rewrite like_text_percent, like_text_any. reflexivity.
Qed.

End EmptyService.

(** X23.  With the empty service string the [LIKE] filters let
    everything through: [find_best_worker] scans every 'active' worker,
    whatever its skills, and [match_all_leads] selects every 'new' lead,
    whatever its category. *)
Theorem empty_service_matches_everything :
  (forall w : Store.Worker,
      JobMatcher.eligible (PyStr.lower "") w
      = String.eqb (Store.w_status w) "active") /\
  (forall (db : Store.DB) (w : Store.Worker),
      In w (JobMatcher.select_workers db (PyStr.lower "")) <->
      In w (Store.workers db) /\ Store.w_status w = "active") /\
  (forall (db : Store.DB) (max_matches : Z),
      JobMatcher.select_new_leads db "" max_matches
      = Sqlite.limit max_matches
          (filter (fun l => String.eqb (Store.l_status l) "new")
                  (Store.leads db))).
Proof.
  assert (He : forall w, JobMatcher.eligible (PyStr.lower "") w
                         = String.eqb (Store.w_status w) "active").
  { intros w. unfold JobMatcher.eligible.
    change ("%" ++ PyStr.lower "" ++ "%") with "%%".
    rewrite like_anything. apply andb_true_r. }
  split; [exact He |]. split.
  - intros db w. rewrite select_workers_In, He, String.eqb_eq. reflexivity.
  - intros db n. unfold JobMatcher.select_new_leads. f_equal.
    apply filter_ext. intros l.
    change ("%" ++ "" ++ "%") with "%%".
    rewrite like_anything. apply andb_true_r.
Qed.

(** X24.  [create_job] returns a job id (a value other than 0) exactly
    when the lead and the worker are both stored and no statement
    raises; a missing lead or worker is a foreign-key failure, answered
    with 0. *)
Theorem create_job_succeeds_iff :
  forall (f : JobMatcher.faults) (now : Store.timestamp) (db : Store.DB)
         (lead_id worker_id : Z) (service : string) (price : R),
    fst (JobMatcher.create_job f now db lead_id worker_id service price)
    <> 0%Z
    <->
    JobMatcher.lead_exists db lead_id = true /\
    JobMatcher.worker_exists db worker_id = true /\
    f JobMatcher.AtConnect = false /\ f JobMatcher.AtInsertJob = false /\
    f JobMatcher.AtUpdateLead = false /\ f JobMatcher.AtCommit = false.
Proof.
  intros f now db lead_id worker_id service price.
  destruct (create_job_cases f now db lead_id worker_id service price)
    as [[E H] | (E & H1 & H2 & H3 & H4 & H5 & H6)]; rewrite E.
  - cbn [fst]. split; [intros Hn; contradiction |].
    intros (Hl & Hw & F1 & F2 & F3 & F4). exfalso.
    rewrite Hl, Hw in H. cbn [andb] in H.
    destruct H as [H | [H | [H | [H | H]]]]; congruence.
  - unfold job_created. cbn [fst]. split; [intros _; tauto |].
    intros _.
    pose proof (next_rowid_positive (Store.seq_jobs db)
                  (map Store.j_id (Store.jobs db))). lia.
Qed.
